(** * png-creator: pixel canvas, pixel encoder and PNG assembler

    A shallow embedding of [pixelCanvas.ts], [png.helper.ts], [validation.ts],
    [png.types.ts] and [pngCreator.ts], and the properties of the design
    document proved about it.

    Modelling conventions.
    - A JavaScript [number] that the program receives from its caller is a
      value of [number]: a finite rational, [NaN] or an infinity.  Runtime
      type tests ([typeof], [=== undefined]) are made on [jsval].
    - Sizes, coordinates and loop counters, which the program uses as array
      indices and array lengths, are integers ([Z]); a coordinate that is
      not an integer is outside the model.  The engine's bound on array
      lengths and memory exhaustion are not modelled.
    - A [Buffer] is a list of bytes; storing a number in a buffer keeps its
      low eight bits.
    - An exception is a [Throw] result.  Methods that mutate an object run in
      the monad [M], in which the state reached when the exception is thrown
      is kept, so that "no mutation on failure" is a statement to prove.
    - The only floating-point computation of the program, the luminance sum
      of the greyscale conversion, is evaluated on binary64 floats. *)

From Stdlib Require Import ZArith QArith Qround Floats Lia List.
From Stdlib.Strings Require Import String Byte.
From stdpp Require Import base list.
Import ListNotations.
Open Scope Z_scope.

(* ================================================================== *)
(** * Exceptions and the two monads *)

Inductive error : Type := TypeError | RangeError | ReferenceError.

Inductive result (A : Type) : Type :=
| Ok (a : A)
| Throw (e : error).
Arguments Ok {A} a.
Arguments Throw {A} e.

Definition rbind {A B} (r : result A) (k : A -> result B) : result B :=
  match r with
  | Ok a => k a
  | Throw e => Throw e
  end.

Declare Scope result_scope.
Delimit Scope result_scope with result.
Notation "x <- e ;; k" := (rbind e (fun x => k))
  (at level 100, e at next level, right associativity) : result_scope.
Notation "e ;; k" := (rbind e (fun _ => k))
  (at level 100, right associativity) : result_scope.

(** [for (const a of l)] with a local accumulator, in code that can throw. *)
Fixpoint foldR {A B} (body : A -> B -> result B) (l : list A) (acc : B) : result B :=
  match l with
  | [] => Ok acc
  | a :: l' => rbind (body a acc) (foldR body l')
  end.

(** The counters [0, 1, ..., n-1] of [for (let i = 0; i < n; i++)]. *)
Definition counters (n : Z) : list Z := map Z.of_nat (seq 0 (Z.to_nat n)).

(** Code that mutates an object of type [S]: the state is threaded through, and
    is returned as it stands when an exception is thrown. *)
Definition M (S A : Type) : Type := S -> result A * S.

Definition ret {S A} (a : A) : M S A := fun s => (Ok a, s).

Definition bind {S A B} (m : M S A) (k : A -> M S B) : M S B :=
  fun s =>
    match m s with
    | (Ok a, s') => k a s'
    | (Throw e, s') => (Throw e, s')
    end.

Definition get {S} : M S S := fun s => (Ok s, s).
Definition put {S} (s : S) : M S unit := fun _ => (Ok tt, s).
Definition lift {S A} (r : result A) : M S A := fun s => (r, s).

Declare Scope monad_scope.
Delimit Scope monad_scope with monad.
Notation "x <- e ;; k" := (bind e (fun x => k))
  (at level 100, e at next level, right associativity) : monad_scope.
Notation "e ;; k" := (bind e (fun _ => k))
  (at level 100, right associativity) : monad_scope.

(** [for (const a of l) body(a)]. *)
Fixpoint for_of {S A} (l : list A) (body : A -> M S unit) : M S unit :=
  match l with
  | [] => ret tt
  | a :: l' => bind (body a) (fun _ => for_of l' body)
  end.

(** A loop that also updates a local variable. *)
Fixpoint foldM {S A B} (body : A -> B -> M S B) (l : list A) (acc : B) : M S B :=
  match l with
  | [] => ret acc
  | a :: l' => bind (body a acc) (foldM body l')
  end.

(* ================================================================== *)
(** * JavaScript numbers and values *)

Inductive number : Type :=
| Fin (q : Q)
| NaN
| PosInf
| NegInf.

Definition Int (z : Z) : number := Fin (inject_Z z).

Definition Qltb (p q : Q) : bool := Qnum p * QDen q <? Qnum q * QDen p.

(** [a < b] *)
Definition num_lt (a b : number) : bool :=
  match a, b with
  | Fin p, Fin q => Qltb p q
  | Fin _, PosInf => true
  | NegInf, Fin _ => true
  | NegInf, PosInf => true
  | _, _ => false
  end.

(** [a === b] on numbers *)
Definition num_eq (a b : number) : bool :=
  match a, b with
  | Fin p, Fin q => Qeq_bool p q
  | PosInf, PosInf => true
  | NegInf, NegInf => true
  | _, _ => false
  end.

(** [Number.isInteger] *)
Definition isInteger (n : number) : bool :=
  match n with
  | Fin q => Qnum q mod QDen q =? 0
  | _ => false
  end.

(** The integer a number is truncated to by the bit operators, before its
    reduction to 32 bits: [NaN] and the infinities become 0. *)
Definition truncate (n : number) : Z :=
  match n with
  | Fin q => Z.quot (Qnum q) (QDen q)
  | _ => 0
  end.

(** The value of an integral number. *)
Definition num_to_Z (n : number) : Z :=
  match n with
  | Fin q => Qfloor q
  | _ => 0
  end.

Definition wrap32 (z : Z) : Z := z mod 2 ^ 32.

(** [ToUint32] and [ToInt32] on integers. *)
Definition to_uint32 (z : Z) : Z := wrap32 z.
Definition to_int32 (z : Z) : Z :=
  if wrap32 z <? 2 ^ 31 then wrap32 z else wrap32 z - 2 ^ 32.

Inductive jsval : Type :=
| JUndefined
| JNull
| JBool (b : bool)
| JStr (s : string)
| JNum (n : number).

(* ================================================================== *)
(** * validation.ts *)

Definition throwIfNotNumber (value : jsval) : result number :=
  match value with
  | JNum n => Ok n
  | _ => Throw TypeError
  end.

Definition throwIfNegative (value : number) : result unit :=
  if num_lt value (Int 0) then Throw RangeError else Ok tt.

(** [Object.hasOwn(object, value)] on an object literal. *)
Definition hasOwn {V} (object : list (string * V)) (value : string) : bool :=
  existsb (fun kv => String.eqb (fst kv) value) object.

(** [object[key]] for an own key. *)
Fixpoint property {V} (object : list (string * V)) (key : string) : option V :=
  match object with
  | [] => None
  | (k, v) :: rest => if String.eqb k key then Some v else property rest key
  end.

Definition throwIfNotInKeys {V} (value : string) (object : list (string * V)) : result unit :=
  if hasOwn object value then Ok tt else Throw ReferenceError.

Definition throwIfOutOfRange (value : number) (min max : number) : result unit :=
  if num_lt value min || num_lt max value then Throw RangeError else Ok tt.

(** Modelled from the spec: [throwIfNotInteger], which [pixelCanvas.ts]
    imports from [validation.ts] and whose body is missing there.  The design
    document has [setScale] fail "unless factor is an integer" and counts a
    wrong kind of value as a type error; the test of the helper expects a
    [TypeError] on [3.14] and none on [42]. *)
Definition throwIfNotInteger (value : number) : result unit :=
  if isInteger value then Ok tt else Throw TypeError.

(* ================================================================== *)
(** * png.types.ts *)

Module COLOR_TYPES.
Definition GRAYSCALE : Z := 0.
Definition TRUE_COLOR : Z := 2.
Definition INDEXED_COLOR : Z := 3.
Definition GRAYSCALE_ALPHA : Z := 4.
Definition TRUE_COLOR_ALPHA : Z := 6.
End COLOR_TYPES.

(** Every colour type but the indexed one. *)
Definition AVAILABLE_COLOR_TYPES : list Z :=
  filter (fun colorType => colorType <> 3)
    [COLOR_TYPES.GRAYSCALE; COLOR_TYPES.TRUE_COLOR; COLOR_TYPES.INDEXED_COLOR;
     COLOR_TYPES.GRAYSCALE_ALPHA; COLOR_TYPES.TRUE_COLOR_ALPHA].

Definition COLOR_TYPE_BYTES : list (Z * Z) :=
  [ (COLOR_TYPES.GRAYSCALE, 1);
    (COLOR_TYPES.TRUE_COLOR, 3);
    (COLOR_TYPES.INDEXED_COLOR, 1);
    (COLOR_TYPES.GRAYSCALE_ALPHA, 2);
    (COLOR_TYPES.TRUE_COLOR_ALPHA, 4) ].

(** [COLOR_TYPE_BYTES[colorType]] *)
Definition color_type_bytes (colorType : Z) : Z :=
  match find (fun kv => fst kv =? colorType) COLOR_TYPE_BYTES with
  | Some kv => snd kv
  | None => 0
  end.

Module VALID_COLOR_VALUE_RANGE.
Definition min : number := Int 0.
Definition max : number := Int 0xffffff.
End VALID_COLOR_VALUE_RANGE.

Open Scope string_scope.

Definition COLORS : list (string * Z) :=
  [ ("aliceblue", 0xf0f8ff);
    ("antiquewhite", 0xfaebd7);
    ("aqua", 0x00ffff);
    ("aquamarine", 0x7fffd4);
    ("azure", 0xf0ffff);
    ("beige", 0xf5f5dc);
    ("bisque", 0xffe4c4);
    ("black", 0x000000);
    ("blanchedalmond", 0xffebcd);
    ("blue", 0x0000ff);
    ("blueviolet", 0x8a2be2);
    ("brown", 0xa52a2a);
    ("burlywood", 0xdeb887);
    ("cadetblue", 0x5f9ea0);
    ("chartreuse", 0x7fff00);
    ("chocolate", 0xd2691e);
    ("coral", 0xff7f50);
    ("cornflowerblue", 0x6495ed);
    ("cornsilk", 0xfff8dc);
    ("crimson", 0xdc143c);
    ("cyan", 0x00ffff);
    ("darkblue", 0x00008b);
    ("darkcyan", 0x008b8b);
    ("darkgoldenrod", 0xb8860b);
    ("darkgray", 0xa9a9a9);
    ("darkgreen", 0x006400);
    ("darkgrey", 0xa9a9a9);
    ("darkkhaki", 0xbdb76b);
    ("darkmagenta", 0x8b008b);
    ("darkolivegreen", 0x556b2f);
    ("darkorange", 0xff8c00);
    ("darkorchid", 0x9932cc);
    ("darkred", 0x8b0000);
    ("darksalmon", 0xe9967a);
    ("darkseagreen", 0x8fbc8f);
    ("darkslateblue", 0x483d8b);
    ("darkslategray", 0x2f4f4f);
    ("darkslategrey", 0x2f4f4f);
    ("darkturquoise", 0x00ced1);
    ("darkviolet", 0x9400d3);
    ("deeppink", 0xff1493);
    ("deepskyblue", 0x00bfff);
    ("dimgray", 0x696969);
    ("dimgrey", 0x696969);
    ("dodgerblue", 0x1e90ff);
    ("firebrick", 0xb22222);
    ("floralwhite", 0xfffaf0);
    ("forestgreen", 0x228b22);
    ("fuchsia", 0xff00ff);
    ("gainsboro", 0xdcdcdc);
    ("ghostwhite", 0xf8f8ff);
    ("gold", 0xffd700);
    ("goldenrod", 0xdaa520);
    ("gray", 0x808080);
    ("green", 0x008000);
    ("greenyellow", 0xadff2f);
    ("grey", 0x808080);
    ("honeydew", 0xf0fff0);
    ("hotpink", 0xff69b4);
    ("indianred", 0xcd5c5c);
    ("indigo", 0x4b0082);
    ("ivory", 0xfffff0);
    ("khaki", 0xf0e68c);
    ("lavender", 0xe6e6fa);
    ("lavenderblush", 0xfff0f5);
    ("lawngreen", 0x7cfc00);
    ("lemonchiffon", 0xfffacd);
    ("lightblue", 0xadd8e6);
    ("lightcoral", 0xf08080);
    ("lightcyan", 0xe0ffff);
    ("lightgoldenrodyellow", 0xfafad2);
    ("lightgray", 0xd3d3d3);
    ("lightgreen", 0x90ee90);
    ("lightgrey", 0xd3d3d3);
    ("lightpink", 0xffb6c1);
    ("lightsalmon", 0xffa07a);
    ("lightseagreen", 0x20b2aa);
    ("lightskyblue", 0x87cefa);
    ("lightslategray", 0x778899);
    ("lightslategrey", 0x778899);
    ("lightsteelblue", 0xb0c4de);
    ("lightyellow", 0xffffe0);
    ("lime", 0x00ff00);
    ("limegreen", 0x32cd32);
    ("linen", 0xfaf0e6);
    ("magenta", 0xff00ff);
    ("maroon", 0x800000);
    ("mediumaquamarine", 0x66cdaa);
    ("mediumblue", 0x0000cd);
    ("mediumorchid", 0xba55d3);
    ("mediumpurple", 0x9370db);
    ("mediumseagreen", 0x3cb371);
    ("mediumslateblue", 0x7b68ee);
    ("mediumspringgreen", 0x00fa9a);
    ("mediumturquoise", 0x48d1cc);
    ("mediumvioletred", 0xc71585);
    ("midnightblue", 0x191970);
    ("mintcream", 0xf5fffa);
    ("mistyrose", 0xffe4e1);
    ("moccasin", 0xffe4b5);
    ("navajowhite", 0xffdead);
    ("navy", 0x000080);
    ("oldlace", 0xfdf5e6);
    ("olive", 0x808000);
    ("olivedrab", 0x6b8e23);
    ("orange", 0xffa500);
    ("orangered", 0xff4500);
    ("orchid", 0xda70d6);
    ("palegoldenrod", 0xeee8aa);
    ("palegreen", 0x98fb98);
    ("paleturquoise", 0xafeeee);
    ("palevioletred", 0xdb7093);
    ("papayawhip", 0xffefd5);
    ("peachpuff", 0xffdab9);
    ("peru", 0xcd853f);
    ("pink", 0xffc0cb);
    ("plum", 0xdda0dd);
    ("powderblue", 0xb0e0e6);
    ("purple", 0x800080);
    ("rebeccapurple", 0x663399);
    ("red", 0xff0000);
    ("rosybrown", 0xbc8f8f);
    ("royalblue", 0x4169e1);
    ("saddlebrown", 0x8b4513);
    ("salmon", 0xfa8072);
    ("sandybrown", 0xf4a460);
    ("seagreen", 0x2e8b57);
    ("seashell", 0xfff5ee);
    ("sienna", 0xa0522d);
    ("silver", 0xc0c0c0);
    ("skyblue", 0x87ceeb);
    ("slateblue", 0x6a5acd);
    ("slategray", 0x708090);
    ("slategrey", 0x708090);
    ("snow", 0xfffafa);
    ("springgreen", 0x00ff7f);
    ("steelblue", 0x4682b4);
    ("tan", 0xd2b48c);
    ("teal", 0x008080);
    ("thistle", 0xd8bfd8);
    ("tomato", 0xff6347);
    ("turquoise", 0x40e0d0);
    ("violet", 0xee82ee);
    ("wheat", 0xf5deb3);
    ("white", 0xffffff);
    ("whitesmoke", 0xf5f5f5);
    ("yellow", 0xffff00);
    ("yellowgreen", 0x9acd32) ].

Close Scope string_scope.

(* ================================================================== *)
(** * Buffers *)

Abbreviation Buffer := (list byte) (only parsing).

Definition byte_to_Z (b : byte) : Z := Z.of_N (Byte.to_N b).

(** The byte a number becomes when it is stored in a buffer. *)
Definition byte_of_Z (z : Z) : byte :=
  match Byte.of_N (Z.to_N (z mod 256)) with
  | Some b => b
  | None => x00
  end.

(** [Buffer.alloc(size)]: [size] zero bytes. *)
Definition Buffer_alloc (size : Z) : Buffer := replicate (Z.to_nat size) x00.

(** [buffer[index] = value]; a write outside a buffer is ignored. *)
Definition Buffer_set (buffer : Buffer) (index : nat) (value : Z) : Buffer :=
  <[index := byte_of_Z value]> buffer.

(** [Buffer.concat(list)] *)
Definition Buffer_concat (list : list Buffer) : Buffer := concat list.

(* ================================================================== *)
(** * png.helper.ts *)

Definition throwIfInvalidColorValue (colorValue : number) : result unit :=
  (throwIfNegative colorValue;;
   throwIfOutOfRange colorValue VALID_COLOR_VALUE_RANGE.min VALID_COLOR_VALUE_RANGE.max)%result.

(** [(colorValue >> shift) & 0xff] *)
Definition sample (colorValue : number) (shift : Z) : Z :=
  Z.land (Z.shiftr (to_int32 (truncate colorValue)) shift) 0xff.

Definition createTrueColorPixelBuffer (colorValue : number) : result Buffer :=
  (throwIfInvalidColorValue colorValue;;
   let buffer := Buffer_alloc (color_type_bytes COLOR_TYPES.TRUE_COLOR) in
   let buffer := Buffer_set buffer 0 (sample colorValue 16) in
   let buffer := Buffer_set buffer 1 (sample colorValue 8) in
   let buffer := Buffer_set buffer 2 (sample colorValue 0) in
   Ok buffer)%result.

(** The double that an integer sample is. *)
Definition to_float (z : Z) : float := PrimFloat.of_uint63 (Uint63.of_Z z).

(** [Math.round]: the nearest integer, the upper one of two equally near.  The
    value is the number stored afterwards in a buffer, where [NaN] and the
    infinities count as 0. *)
Definition Math_round (x : float) : Z :=
  match Prim2SF x with
  | S754_finite s m e =>
      let n := if s then Z.neg m else Z.pos m in
      if 0 <=? e then n * 2 ^ e else (2 * n + 2 ^ (- e)) / 2 ^ (- e + 1)
  | _ => 0
  end.

#[warnings="-inexact-float"]
Definition convertTrueColorToGrayscale (colorValue : number) : Z :=
  let red := sample colorValue 16 in
  let green := sample colorValue 8 in
  let blue := sample colorValue 0 in
  let grayscale :=
    Math_round (0.299 * to_float red + 0.587 * to_float green + 0.114 * to_float blue)%float in
  grayscale.

Definition createGrayscalePixelBuffer (colorValue : number) : result Buffer :=
  (throwIfInvalidColorValue colorValue;;
   let buffer := Buffer_alloc (color_type_bytes COLOR_TYPES.GRAYSCALE) in
   let grayscaleColor := convertTrueColorToGrayscale colorValue in
   let buffer := Buffer_set buffer 0 grayscaleColor in
   Ok buffer)%result.

Definition createAlphaPixelBuffer (colorValue : number) : result Buffer :=
  (throwIfInvalidColorValue colorValue;;
   let buffer := Buffer_alloc 1 in
   let buffer := if negb (num_eq colorValue (Int 0)) then Buffer_set buffer 0 0xff else buffer in
   Ok buffer)%result.

Definition createPixelBuffer (colorValue : number) (colorType : Z) : result Buffer :=
  if colorType =? COLOR_TYPES.GRAYSCALE then
    createGrayscalePixelBuffer colorValue
  else if colorType =? COLOR_TYPES.GRAYSCALE_ALPHA then
    (gray <- createGrayscalePixelBuffer colorValue;;
     alpha <- createAlphaPixelBuffer colorValue;;
     Ok (Buffer_concat [gray; alpha]))%result
  else if colorType =? COLOR_TYPES.TRUE_COLOR then
    createTrueColorPixelBuffer colorValue
  else if colorType =? COLOR_TYPES.TRUE_COLOR_ALPHA then
    (rgb <- createTrueColorPixelBuffer colorValue;;
     alpha <- createAlphaPixelBuffer colorValue;;
     Ok (Buffer_concat [rgb; alpha]))%result
  else Throw TypeError.

(* ================================================================== *)
(** * JavaScript arrays *)

(** [new Array(length)]: a range error unless [length] is an array length. *)
Definition new_Array (length : number) : result nat :=
  if isInteger length && negb (num_lt length (Int 0))
  then Ok (Z.to_nat (num_to_Z length))
  else Throw RangeError.

(** [array[index]]: [None] is [undefined]. *)
Definition js_get {A} (array : list A) (index : Z) : option A :=
  if index <? 0 then None else array !! Z.to_nat index.

(** [array[index] = value]: inside the array the element is replaced; past
    its end the array grows, the slots in between staying empty ([hole] is what
    an empty slot is read as); a negative index sets a property and leaves the
    elements as they are. *)
Definition js_set {A} (hole : A) (array : list A) (index : Z) (value : A) : list A :=
  if index <? 0 then array
  else if index <? Z.of_nat (length array) then <[Z.to_nat index := value]> array
  else array ++ replicate (Z.to_nat index - length array) hole ++ [value].

(** [array.map(f)] for an [f] that can throw. *)
Fixpoint mapR {A B} (f : A -> result B) (l : list A) : result (list B) :=
  match l with
  | [] => Ok []
  | a :: l' => (b <- f a;; bs <- mapR f l';; Ok (b :: bs))%result
  end.

(* ================================================================== *)
(** * pixelCanvas.ts *)

(** A cell of a pixel map: [null] (unset), a colour value, or [undefined]
    (an empty slot of an array that was extended past its end). *)
Inductive cell : Type :=
| Null
| Undefined
| Color (n : number).

Abbreviation PixelMap := (list (list cell)) (only parsing).

(** [column[index] = value], column [x] of a pixel map *)
Definition js_set_cell (column : list cell) (index : Z) (value : cell) : list cell :=
  js_set Undefined column index value.

(** [pixelMap[x]![y]]: a type error when column [x] is missing. *)
Definition read2 (pixelMap : PixelMap) (x y : Z) : result cell :=
  match js_get pixelMap x with
  | None => Throw TypeError
  | Some column => Ok (default Undefined (js_get column y))
  end.

(** [pixelMap[x]![y] = value] *)
Definition write2 (pixelMap : PixelMap) (x y : Z) (value : cell) : result PixelMap :=
  match js_get pixelMap x with
  | None => Throw TypeError
  | Some column => Ok (<[Z.to_nat x := js_set_cell column y value]> pixelMap)
  end.

Record PixelCanvasOptions : Type := {
  o_width : jsval;
  o_height : jsval;
  o_backgroundColor : jsval;
  o_pixelMap : option PixelMap
}.

Class IPixelCanvas (T : Type) : Type := {
  getPixelMap : T -> PixelMap;
  getSize : T -> Z * Z;
  getBackgroundColor : T -> number
}.

Definition initPixelMap (width height : number) : result PixelMap :=
  (outer <- new_Array width;;
   mapR (fun _ : unit => inner <- new_Array height;; Ok (replicate inner Null))
        (replicate outer tt))%result.

Record PixelCanvas : Type := {
  width : Z;
  height : Z;
  pixelMap : PixelMap;
  lastUsedColor : number;
  backgroundColor : number
}.

Definition set_width (w : Z) (this : PixelCanvas) : PixelCanvas :=
  {| width := w; height := height this; pixelMap := pixelMap this;
     lastUsedColor := lastUsedColor this; backgroundColor := backgroundColor this |}.
Definition set_height (h : Z) (this : PixelCanvas) : PixelCanvas :=
  {| width := width this; height := h; pixelMap := pixelMap this;
     lastUsedColor := lastUsedColor this; backgroundColor := backgroundColor this |}.
Definition set_pixelMap (pm : PixelMap) (this : PixelCanvas) : PixelCanvas :=
  {| width := width this; height := height this; pixelMap := pm;
     lastUsedColor := lastUsedColor this; backgroundColor := backgroundColor this |}.
Definition set_lastUsedColor (c : number) (this : PixelCanvas) : PixelCanvas :=
  {| width := width this; height := height this; pixelMap := pixelMap this;
     lastUsedColor := c; backgroundColor := backgroundColor this |}.
Definition set_backgroundColor (c : number) (this : PixelCanvas) : PixelCanvas :=
  {| width := width this; height := height this; pixelMap := pixelMap this;
     lastUsedColor := lastUsedColor this; backgroundColor := c |}.

(** [COLORS[color]]; a missing property reads as [undefined], which is not a
    number. *)
Definition COLORS_at (color : string) : number :=
  match property COLORS color with
  | Some v => Int v
  | None => NaN
  end.

Definition validateColor (color : jsval) : result number :=
  match color with
  | JStr name =>
      (throwIfNotInKeys name COLORS;;
       Ok (COLORS_at name))%result
  | _ =>
      (color <- throwIfNotNumber color;;
       throwIfOutOfRange color VALID_COLOR_VALUE_RANGE.min VALID_COLOR_VALUE_RANGE.max;;
       Ok color)%result
  end.

Definition validateInitialPixelMap (pixelMap : PixelMap) (width height : number) : result unit :=
  if negb (num_eq (Int (Z.of_nat (length pixelMap))) width) then Throw RangeError
  else
    foldR (fun column _ =>
             if negb (num_eq (Int (Z.of_nat (length column))) height)
             then Throw RangeError else Ok tt)
          pixelMap tt.

(** The fields as their initialisers leave them, before the constructor body
    runs. *)
Definition PixelCanvas_fields : result PixelCanvas :=
  (pixelMap <- initPixelMap (Int 16) (Int 16);;
   Ok {| width := 16; height := 16; pixelMap := pixelMap;
         lastUsedColor := Int 0; backgroundColor := Int 0 |})%result.

(** [new PixelCanvas(options)].  The sizes are stored as integers.  When the
    constructor returns, the width is an array length (it passed [new Array]
    or equals the length of the supplied map), and so is the height unless
    the map has no column, in which case no check looks at it. *)
Definition PixelCanvas_new (options : option PixelCanvasOptions) : result PixelCanvas :=
  (this <- PixelCanvas_fields;;
   match options with
   | None => Ok this
   | Some options =>
       let width := o_width options in
       let height := o_height options in
       let backgroundColor := o_backgroundColor options in
       width <- throwIfNotNumber width;;
       throwIfNegative width;;
       let this := set_width (num_to_Z width) this in
       height <- throwIfNotNumber height;;
       throwIfNegative height;;
       let this := set_height (num_to_Z height) this in
       this <- match o_pixelMap options with
               | Some pixelMap =>
                   validateInitialPixelMap pixelMap width height;;
                   Ok (set_pixelMap pixelMap this)
               | None =>
                   pixelMap <- initPixelMap width height;;
                   Ok (set_pixelMap pixelMap this)
               end;;
       backgroundColor <- validateColor backgroundColor;;
       Ok (set_backgroundColor backgroundColor this)
   end)%result.

(** [this.#pixelMap[x]![y] = value] *)
Definition write_cell (x y : Z) (value : cell) : M PixelCanvas unit :=
  (this <- get;;
   pixelMap <- lift (write2 (pixelMap this) x y value);;
   put (set_pixelMap pixelMap this))%monad.

(** [color !== undefined ? this.#validateColor(color) : this.#lastUsedColor] *)
Definition currentColor_of (color : jsval) : M PixelCanvas number :=
  match color with
  | JUndefined => (this <- get;; ret (lastUsedColor this))%monad
  | _ => lift (validateColor color)
  end.

Definition set_lastUsed (currentColor : number) : M PixelCanvas unit :=
  (this <- get;; put (set_lastUsedColor currentColor this))%monad.

Definition setPixel (x y : Z) (color : jsval) : M PixelCanvas unit :=
  (this <- get;;
   lift (throwIfOutOfRange (Int x) (Int 0) (Int (width this - 1)));;
   lift (throwIfOutOfRange (Int y) (Int 0) (Int (height this - 1)));;
   currentColor <- currentColor_of color;;
   write_cell x y (Color currentColor);;
   set_lastUsed currentColor)%monad.

Definition setPixels (xValues yValues : list Z) (color : jsval) : M PixelCanvas unit :=
  (for_of xValues (fun x =>
     this <- get;;
     lift (throwIfOutOfRange (Int x) (Int 0) (Int (width this - 1))));;
   for_of yValues (fun y =>
     this <- get;;
     lift (throwIfOutOfRange (Int y) (Int 0) (Int (height this - 1))));;
   currentColor <- currentColor_of color;;
   for_of xValues (fun x =>
     for_of yValues (fun y =>
       write_cell x y (Color currentColor)));;
   set_lastUsed currentColor)%monad.

Definition setColumn (x : Z) (color : jsval) : M PixelCanvas unit :=
  (this <- get;;
   lift (throwIfOutOfRange (Int x) (Int 0) (Int (width this - 1)));;
   currentColor <- currentColor_of color;;
   for_of (counters (height this)) (fun y => write_cell x y (Color currentColor));;
   set_lastUsed currentColor)%monad.

Definition setRow (y : Z) (color : jsval) : M PixelCanvas unit :=
  (this <- get;;
   lift (throwIfOutOfRange (Int y) (Int 0) (Int (height this - 1)));;
   currentColor <- currentColor_of color;;
   for_of (counters (width this)) (fun x => write_cell x y (Color currentColor));;
   set_lastUsed currentColor)%monad.

(** [#scaleOnePixel]: [pixelMap'] is the parameter [pixelMap], the new map;
    [pixelMap this] is [this.#pixelMap], the old one. *)
Definition scaleOnePixel (x y scale : Z) (pixelMap' : PixelMap) : M PixelCanvas PixelMap :=
  foldM (fun i pixelMap' =>
    foldM (fun j pixelMap' =>
      (let newX := x * scale + i in
       let newY := y * scale + j in
       this <- get;;
       value <- lift (read2 (pixelMap this) x y);;
       lift (write2 pixelMap' newX newY value))%monad)
      (counters scale) pixelMap')
    (counters scale) pixelMap'.

Definition setScale (scale : jsval) : M PixelCanvas unit :=
  (scale <- lift (throwIfNotNumber scale);;
   lift (throwIfNegative scale);;
   lift (throwIfOutOfRange scale (Int 1) (Int 100));;
   lift (throwIfNotInteger scale);;
   let scale := num_to_Z scale in
   this <- get;;
   let newWidth := width this * scale in
   let newHeight := height this * scale in
   newPixelMap <- lift (initPixelMap (Int newWidth) (Int newHeight));;
   newPixelMap <-
     foldM (fun x newPixelMap =>
       foldM (fun y newPixelMap => scaleOnePixel x y scale newPixelMap)
             (counters (height this)) newPixelMap)
       (counters (width this)) newPixelMap;;
   this <- get;;
   put (set_pixelMap newPixelMap (set_height newHeight (set_width newWidth this))))%monad.

#[export] Instance PixelCanvas_IPixelCanvas : IPixelCanvas PixelCanvas := {
  getPixelMap this := pixelMap this;
  getSize this := (width this, height this);
  getBackgroundColor this := backgroundColor this
}.

(* ================================================================== *)
(** * pngCreator.ts *)

(** ** The 32-bit integer operators *)

(** [a & b], [a ^ b] and [~a] work on and return signed 32-bit integers;
    [a >>> n] reads [a] as an unsigned one. *)
Definition js_and (a b : Z) : Z := to_int32 (Z.land (to_int32 a) (to_int32 b)).
Definition js_xor (a b : Z) : Z := to_int32 (Z.lxor (to_int32 a) (to_int32 b)).
Definition js_not (a : Z) : Z := to_int32 (Z.lnot (to_int32 a)).
Definition js_ushr (a n : Z) : Z := Z.shiftr (to_uint32 a) (n mod 32).

(** ** Writing integers into a buffer *)

(** [buffer.writeUInt8(value, offset)]: a range error when the value is not
    an unsigned byte or the offset is outside the buffer. *)
Definition writeUInt8 (buffer : Buffer) (value offset : Z) : result Buffer :=
  if (value <? 0) || (255 <? value) then Throw RangeError
  else if (offset <? 0) || (Z.of_nat (length buffer) <? offset + 1) then Throw RangeError
  else Ok (Buffer_set buffer (Z.to_nat offset) value).

(** [buffer.writeUInt32BE(value, offset)]: most significant byte first. *)
Definition writeUInt32BE (buffer : Buffer) (value offset : Z) : result Buffer :=
  if (value <? 0) || (2 ^ 32 - 1 <? value) then Throw RangeError
  else if (offset <? 0) || (Z.of_nat (length buffer) <? offset + 4) then Throw RangeError
  else
    let o := Z.to_nat offset in
    let buffer := Buffer_set buffer o (Z.shiftr value 24) in
    let buffer := Buffer_set buffer (o + 1) (Z.shiftr value 16) in
    let buffer := Buffer_set buffer (o + 2) (Z.shiftr value 8) in
    let buffer := Buffer_set buffer (o + 3) value in
    Ok buffer.

(** ** The assembler *)

Inductive CriticalChunk : Type := IHDR | IDAT | IEND.

Open Scope string_scope.

(** [Buffer.from(chunkType)]: the bytes of the tag. *)
Definition Buffer_from (chunkType : CriticalChunk) : Buffer :=
  list_byte_of_string
    match chunkType with
    | IHDR => "IHDR"
    | IDAT => "IDAT"
    | IEND => "IEND"
    end.

Close Scope string_scope.

(** An instance: the cache of the checksum table, and the compressor it was
    given ([dependencies.zlibModule.deflateSync]). *)
Record PNGCreator : Type := {
  crc32Table : list Z;
  zlib : Buffer -> Buffer
}.

Definition set_crc32Table (table : list Z) (this : PNGCreator) : PNGCreator :=
  {| crc32Table := table; zlib := zlib this |}.

Definition getPNGCreator (zlibModule : Buffer -> Buffer) : PNGCreator :=
  {| crc32Table := []; zlib := zlibModule |}.

Definition PNG_SIGNATURE : list Z := [0x89; 0x50; 0x4e; 0x47; 0x0d; 0x0a; 0x1a; 0x0a].
Definition pngSignatureBuffer : Buffer := map byte_of_Z PNG_SIGNATURE.
Definition CHUNK_BYTES_SIZE : Z := 4.
Definition DEFAULT_COLOR_TYPE : Z := COLOR_TYPES.TRUE_COLOR.

Module IHDR_INDEXES.
Definition WIDTH : Z := 0.
Definition HEIGHT : Z := 4.
Definition BIT_DEPTH : Z := 8.
Definition COLOR_TYPE : Z := 9.
Definition COMPRESSION_METHOD : Z := 10.
Definition FILTER_METHOD : Z := 11.
Definition INTERLACE_METHOD : Z := 12.
End IHDR_INDEXES.

Definition IHDR_BYTES_LENGTH : Z := 13.
Definition DEFAULT_BIT_DEPTH : Z := 8.
Definition DEFAULT_COMPRESSION_METHOD : Z := 0.
Definition DEFAULT_FILTER_METHOD : Z := 0.
Definition DEFAULT_INTERLACE_METHOD : Z := 0.

(** One pass of the inner loop of [#getCrc32Table]. *)
Definition crc_table_bit (current : Z) : Z :=
  let isLeastBitOne := js_and current 1 in
  if negb (isLeastBitOne =? 0) then js_xor 0xedb88320 (js_ushr current 1)
  else js_ushr current 1.

(** The entry [#getCrc32Table] computes for [index]. *)
Definition crc_table_entry (index : Z) : Z :=
  let current := fold_left (fun current _ => crc_table_bit current) (counters 8) index in
  js_ushr current 0.

(** [#getCrc32Table]: the table is filled on the first call, when the cache
    is empty, and returned as it is afterwards.  An empty slot of the table
    would be read as [undefined], which the xor of [#computeCRC32] takes for
    0. *)
Definition getCrc32Table : M PNGCreator (list Z) :=
  (this <- get;;
   (if Z.of_nat (length (crc32Table this)) =? 0 then
      for_of (counters 256) (fun index =>
        this <- get;;
        put (set_crc32Table (js_set 0 (crc32Table this) index (crc_table_entry index)) this))
    else ret tt);;
   this <- get;;
   ret (crc32Table this))%monad.

(** [table[index]!] *)
Definition table_at (table : list Z) (index : Z) : Z := default 0 (js_get table index).

Definition computeCRC32 (buffer : Buffer) : M PNGCreator Z :=
  (table <- getCrc32Table;;
   let crc :=
     fold_left (fun crc byte =>
                  let index := js_and (js_xor crc (byte_to_Z byte)) 0xff in
                  js_xor (table_at table index) (js_ushr crc 8))
               buffer 0xffffffff in
   ret (js_ushr (js_not crc) 0))%monad.

Definition createIHDRBuffer (width height colorType : Z) : result Buffer :=
  (let ihdr := Buffer_alloc IHDR_BYTES_LENGTH in
   ihdr <- writeUInt32BE ihdr width IHDR_INDEXES.WIDTH;;
   ihdr <- writeUInt32BE ihdr height IHDR_INDEXES.HEIGHT;;
   ihdr <- writeUInt8 ihdr DEFAULT_BIT_DEPTH IHDR_INDEXES.BIT_DEPTH;;
   ihdr <- writeUInt8 ihdr colorType IHDR_INDEXES.COLOR_TYPE;;
   ihdr <- writeUInt8 ihdr DEFAULT_COMPRESSION_METHOD IHDR_INDEXES.COMPRESSION_METHOD;;
   ihdr <- writeUInt8 ihdr DEFAULT_FILTER_METHOD IHDR_INDEXES.FILTER_METHOD;;
   ihdr <- writeUInt8 ihdr DEFAULT_INTERLACE_METHOD IHDR_INDEXES.INTERLACE_METHOD;;
   Ok ihdr)%result.

Definition createChunk (chunkType : CriticalChunk) (chunkData : Buffer) : M PNGCreator Buffer :=
  (let typeBuffer := Buffer_from chunkType in
   let length := Buffer_alloc CHUNK_BYTES_SIZE in
   length <- lift (writeUInt32BE length (Z.of_nat (List.length chunkData)) 0);;
   let crcBuffer := Buffer_concat [typeBuffer; chunkData] in
   let crc := Buffer_alloc CHUNK_BYTES_SIZE in
   checksum <- computeCRC32 crcBuffer;;
   crc <- lift (writeUInt32BE crc checksum 0);;
   ret (Buffer_concat [length; typeBuffer; chunkData; crc]))%monad.

(** The value a cell of the resolved map is used as: [undefined], which
    [column === null] lets through, fails every comparison and is 0 for the
    bit operators, as [NaN] is. *)
Definition resolve_cell (backgroundColor : number) (column : cell) : number :=
  match column with
  | Null => backgroundColor
  | Color n => n
  | Undefined => NaN
  end.

Definition addBackgroundColor (pixelMap : PixelMap) (backgroundColor : number)
  : list (list number) :=
  fold_left (fun newPixelMap row =>
               let newRow :=
                 fold_left (fun newRow column =>
                              newRow ++ [resolve_cell backgroundColor column])
                           row [] in
               newPixelMap ++ [newRow])
            pixelMap [].

(** [pixelMap[x]![y]!] on the resolved map: a type error when column [x] is
    missing; a missing element is [undefined]. *)
Definition read_color (pixelMap : list (list number)) (x y : Z) : result number :=
  match js_get pixelMap x with
  | None => Throw TypeError
  | Some column => Ok (default NaN (js_get column y))
  end.

Definition computeImageBuffer {T} `{IPixelCanvas T} (pixelCanvas : T) (colorType : Z)
  : result Buffer :=
  (let '(width, height) := getSize pixelCanvas in
   let pixelMap :=
     addBackgroundColor (getPixelMap pixelCanvas) (getBackgroundColor pixelCanvas) in
   imageBuffer <-
     foldR (fun y imageBuffer =>
              let imageBuffer := imageBuffer ++ [Buffer_alloc 1] in
              foldR (fun x imageBuffer =>
                       colorValue <- read_color pixelMap x y;;
                       pixel <- createPixelBuffer colorValue colorType;;
                       Ok (imageBuffer ++ [pixel]))
                    (counters width) imageBuffer)
           (counters height) [];;
   Ok (Buffer_concat imageBuffer))%result.

Definition finalizeCreation (ihdrBuffer idatBuffer : Buffer) : M PNGCreator Buffer :=
  (ihdr <- createChunk IHDR ihdrBuffer;;
   idat <- createChunk IDAT idatBuffer;;
   iend <- createChunk IEND (Buffer_alloc 0);;
   ret (Buffer_concat [pngSignatureBuffer; ihdr; idat; iend]))%monad.

Definition createFromCanvas {T} `{IPixelCanvas T} (pixelCanvas : T) (colorMode : option Z)
  : M PNGCreator Buffer :=
  (let colorType := default DEFAULT_COLOR_TYPE colorMode in
   imageData <- lift (computeImageBuffer pixelCanvas colorType);;
   this <- get;;
   let idatBuffer := zlib this imageData in
   let '(width, height) := getSize pixelCanvas in
   ihdrBuffer <- lift (createIHDRBuffer width height colorType);;
   finalizeCreation ihdrBuffer idatBuffer)%monad.

Definition createFromBuffer (pixelBuffer : Buffer) (width height colorType : Z)
  : M PNGCreator Buffer :=
  (this <- get;;
   let idatBuffer := zlib this pixelBuffer in
   ihdrBuffer <- lift (createIHDRBuffer width height colorType);;
   finalizeCreation ihdrBuffer idatBuffer)%monad.

(* ================================================================== *)
(** * The formulas of the design document *)

(** The design document's formula for the greyscale sample, the sum being
    the one of binary64 arithmetic, taken from left to right. *)
#[warnings="-inexact-float"]
Definition luminance (R G B : Z) : Z :=
  Math_round (0.299 * to_float R + 0.587 * to_float G + 0.114 * to_float B)%float.

(** The canvases of the test suite. *)
Definition canvas_of (w h : Z) (bg : Z) : result PixelCanvas :=
  PixelCanvas_new (Some {| o_width := JNum (Int w); o_height := JNum (Int h);
                           o_backgroundColor := JNum (Int bg); o_pixelMap := None |}).

Definition run {A} (c : result PixelCanvas) (m : M PixelCanvas A) : result A * option PixelCanvas :=
  match c with
  | Ok this => let (r, this') := m this in (r, Some this')
  | Throw e => (Throw e, None)
  end.

(** ** The constructor's failures, as the design document states them *)








(** ** The checksum and the layout of the output *)

(** The reflected CRC-32, one bit at a time: the register is shifted right
    and, when the bit shifted out is 1, the polynomial 0xEDB88320 is added. *)
Definition crc32_bit (c : Z) : Z :=
  if Z.odd c then Z.lxor (Z.shiftr c 1) 0xEDB88320 else Z.shiftr c 1.

Definition crc32_byte (c : Z) (b : byte) : Z :=
  Nat.iter 8 crc32_bit (Z.lxor c (byte_to_Z b)).

(** The register starts from all ones and is inverted at the end. *)
Definition crc32 (data : list byte) : Z :=
  Z.lxor (fold_left crc32_byte data 0xFFFFFFFF) 0xFFFFFFFF.

(** The 256 entries of the lookup table. *)
Definition crc_table : list Z := map crc_table_entry (counters 256).

(** The states of the cache of an instance: empty, then filled for good. *)
Definition cache_ok (this : PNGCreator) : Prop :=
  crc32Table this = [] \/ crc32Table this = crc_table.

Definition BigEndian32 (v : Z) : list byte :=
  [byte_of_Z (v / 2 ^ 24); byte_of_Z (v / 2 ^ 16); byte_of_Z (v / 2 ^ 8); byte_of_Z v].

(** [chunk(type, payload) = BigEndian32(len(payload)) || type || payload ||
    BigEndian32(crc32(type || payload))] *)
Definition chunk (type : CriticalChunk) (payload : list byte) : list byte :=
  BigEndian32 (Z.of_nat (length payload)) ++ Buffer_from type ++ payload
  ++ BigEndian32 (crc32 (Buffer_from type ++ payload)).

(** The number that four bytes are, the most significant one first. *)
Definition be_value (bytes : list byte) : Z :=
  fold_left (fun acc b => acc * 256 + byte_to_Z b) bytes 0.

Definition signature : list byte := [x89; x50; x4e; x47; x0d; x0a; x1a; x0a].

(** The 13 bytes of the header. *)
Definition header (width height colorType : Z) : list byte :=
  BigEndian32 width ++ BigEndian32 height ++ [x08; byte_of_Z colorType; x00; x00; x00].

Definition png (width height colorType : Z) (compressed : list byte) : list byte :=
  signature ++ chunk IHDR (header width height colorType)
  ++ chunk IDAT compressed ++ chunk IEND [].

(** ** The raw pixel stream *)

(** The grid in which every unset cell has the background colour, a set
    cell keeping its value. *)
Definition resolved_grid {T} `{IPixelCanvas T} (pixelCanvas : T) : list (list number) :=
  map (map (resolve_cell (getBackgroundColor pixelCanvas))) (getPixelMap pixelCanvas).

(** Row [y]: the filter byte 0, then the bytes of the pixels from left to
    right. *)
Definition scanline {T} `{IPixelCanvas T} (pixelCanvas : T) (colorType : Z) (y : Z)
  : result (list byte) :=
  (pixels <- mapR (fun x =>
                     colorValue <- read_color (resolved_grid pixelCanvas) x y;;
                     createPixelBuffer colorValue colorType)
                  (counters (fst (getSize pixelCanvas)));;
   Ok (x00 :: concat pixels))%result.

(** The rows from top to bottom, one after the other. *)
Definition raw_pixel_stream {T} `{IPixelCanvas T} (pixelCanvas : T) (colorType : Z)
  : result (list byte) :=
  (scanlines <- mapR (scanline pixelCanvas colorType) (counters (snd (getSize pixelCanvas)));;
   Ok (concat scanlines))%result.

(** ** Canvases *)

(** The invariant of the class: the sizes are not negative and the map has
    [width] columns of [height] cells. *)
Definition wf (this : PixelCanvas) : Prop :=
  0 <= width this /\ 0 <= height this /\
  length (pixelMap this) = Z.to_nat (width this) /\
  Forall (fun column : list cell => length column = Z.to_nat (height this)) (pixelMap this).

(** The cell at column [x] and row [y], if there is one. *)
Definition cell_at (pixelMap : PixelMap) (x y : Z) : option cell :=
  match js_get pixelMap x with
  | Some column => js_get column y
  | None => None
  end.

(** The map in which the cell at [(x, y)] is [value]. *)
Definition put_cell (pixelMap : PixelMap) (x y : Z) (value : cell) : PixelMap :=
  match pixelMap !! Z.to_nat x with
  | Some column => <[Z.to_nat x := <[Z.to_nat y := value]> column]> pixelMap
  | None => pixelMap
  end.

(** The colour a fill operation writes: the one given, resolved, or the last
    one used when none is given. *)
Definition resolved_color (color : jsval) (this : PixelCanvas) : result number :=
  match color with
  | JUndefined => Ok (lastUsedColor this)
  | _ => validateColor color
  end.

(** ** Grids, writes and the scale factor *)

Definition dims (w h : nat) (pixelMap : PixelMap) : Prop :=
  length pixelMap = w /\ Forall (fun column : list cell => length column = h) pixelMap.

Definition in_grid (w h : nat) (x y : Z) : Prop :=
  0 <= x < Z.of_nat w /\ 0 <= y < Z.of_nat h.

(** The cells of [xValues] times [yValues], as writes of one value. *)
Definition product_writes (xValues yValues : list Z) (value : cell) : list (Z * Z * cell) :=
  flat_map (fun x => map (fun y => (x, y, value)) yValues) xValues.

(** The checks of [setScale] pass exactly on the integers of [1, 100]. *)
Definition scale_checks (scale : jsval) : result number :=
  (scale <- throwIfNotNumber scale;;
   throwIfNegative scale;;
   throwIfOutOfRange scale (Int 1) (Int 100);;
   throwIfNotInteger scale;;
   Ok scale)%result.

Definition valid_scale (scale : jsval) : Prop :=
  exists n, scale = JNum n /\ isInteger n = true /\ 1 <= num_to_Z n <= 100.

(** The cell of the canvas at [(x, y)]. *)
Definition old_cell (this : PixelCanvas) (x y : Z) : cell :=
  default Undefined (cell_at (pixelMap this) x y).

(** The writes of [setScale], in the order of its loops. *)
Definition scale_writes (this : PixelCanvas) (f : Z) : list (Z * Z * cell) :=
  flat_map (fun x =>
    flat_map (fun y =>
      flat_map (fun i =>
        map (fun j => (x * f + i, y * f + j, old_cell this x y)) (counters f))
        (counters f))
      (counters (height this)))
    (counters (width this)).

(** ** The colours of a canvas *)

(** A cell that is unset or holds a colour value the pixel encoder accepts. *)
Definition valid_cell (c : cell) : Prop :=
  match c with
  | Null => True
  | Color n => throwIfInvalidColorValue n = Ok tt
  | Undefined => False
  end.

(** The colours of a canvas are all values the pixel encoder accepts. *)
Definition valid_colors (this : PixelCanvas) : Prop :=
  throwIfInvalidColorValue (backgroundColor this) = Ok tt /\
  throwIfInvalidColorValue (lastUsedColor this) = Ok tt /\
  Forall (Forall valid_cell) (pixelMap this).

(* ================================================================== *)
(** * Properties *)

(** ** Numbers, bytes and the monads *)

Lemma num_lt_Int (a b : Z) : num_lt (Int a) (Int b) = (a <? b).
Proof. unfold num_lt, Int, Qltb. simpl. rewrite !Z.mul_1_r. reflexivity. Qed.

Lemma num_eq_Int (a b : Z) : num_eq (Int a) (Int b) = (a =? b).
Proof. unfold num_eq, Int, Qeq_bool. simpl. rewrite !Z.mul_1_r. reflexivity. Qed.

Lemma truncate_Int (z : Z) : truncate (Int z) = z.
Proof. unfold truncate, Int. simpl. apply Z.quot_1_r. Qed.

Lemma isInteger_Int (z : Z) : isInteger (Int z) = true.
Proof. unfold isInteger, Int. simpl. rewrite Z.mod_1_r. reflexivity. Qed.

Lemma num_to_Z_Int (z : Z) : num_to_Z (Int z) = z.
Proof. unfold num_to_Z, Int. apply Qfloor_Z. Qed.

Lemma to_int32_small (z : Z) : 0 <= z < 2 ^ 31 -> to_int32 z = z.
Proof.
  intros Hz. unfold to_int32, wrap32.
  rewrite Z.mod_small by lia.
  destruct (Z.ltb_spec z (2 ^ 31)); lia.
Qed.

Lemma byte_to_of_Z (z : Z) : byte_to_Z (byte_of_Z z) = z mod 256.
Proof.
  unfold byte_to_Z, byte_of_Z.
  assert (Hr : 0 <= z mod 256 < 256) by (apply Z.mod_pos_bound; lia).
  destruct (Byte.of_N (Z.to_N (z mod 256))) as [b|] eqn:E.
  - apply Byte.to_of_N in E. rewrite E. lia.
  - apply Byte.of_N_None_iff in E. lia.
Qed.

Lemma byte_to_Z_range (b : byte) : 0 <= byte_to_Z b < 256.
Proof. unfold byte_to_Z. pose proof (Byte.to_N_bounded b). lia. Qed.

Lemma byte_of_to_Z (b : byte) : byte_of_Z (byte_to_Z b) = b.
Proof.
  unfold byte_of_Z. rewrite Z.mod_small by apply byte_to_Z_range.
  unfold byte_to_Z. rewrite N2Z.id, Byte.of_to_N. reflexivity.
Qed.

Lemma throwIfInvalidColorValue_Int (z : Z) :
  0 <= z <= 0xFFFFFF -> throwIfInvalidColorValue (Int z) = Ok tt.
Proof.
  intros Hz. unfold throwIfInvalidColorValue, throwIfNegative, throwIfOutOfRange.
  unfold VALID_COLOR_VALUE_RANGE.min, VALID_COLOR_VALUE_RANGE.max.
  rewrite !num_lt_Int.
  destruct (Z.ltb_spec z 0); [lia|]. simpl.
  destruct (Z.ltb_spec 0xFFFFFF z); [lia|]. reflexivity.
Qed.

Lemma sample_Int (z shift : Z) :
  0 <= z <= 0xFFFFFF -> 0 <= shift -> sample (Int z) shift = (z / 2 ^ shift) mod 256.
Proof.
  intros Hz Hs. unfold sample. rewrite truncate_Int, to_int32_small by lia.
  change 0xff with (Z.ones 8). rewrite Z.land_ones by lia.
  rewrite Z.shiftr_div_pow2 by lia. reflexivity.
Qed.

(** ** The cases of the test suites *)

Example createPixelBuffer_tests :
  map (fun t => createPixelBuffer (Int 0x123456) t) [2; 0; 4; 6]
  = [Ok [x12; x34; x56]; Ok [x2e]; Ok [x2e; xff]; Ok [x12; x34; x56; xff]]
  /\ createPixelBuffer (Int 0) 4 = Ok [x00; x00]
  /\ createPixelBuffer (Int 0) 6 = Ok [x00; x00; x00; x00]
  /\ createPixelBuffer (Int 0) 5 = Throw TypeError
  /\ createPixelBuffer (Int (-1)) 2 = Throw RangeError
  /\ createPixelBuffer (Int 0x1000000) 6 = Throw RangeError.
Proof. vm_compute. repeat split. Qed.

Example setScale_test :
  let c := Color (Int 0x123456) in
  option_map pixelMap
    (snd (run (canvas_of 2 2 0)
              (setPixel 0 0 (JNum (Int 0x123456));; setScale (JNum (Int 2)))%monad))
  = Some [[c; c; Null; Null]; [c; c; Null; Null];
          [Null; Null; Null; Null]; [Null; Null; Null; Null]].
Proof. vm_compute. reflexivity. Qed.

Example setPixels_test :
  let c := Color (Int 0x123456) in
  option_map pixelMap
    (snd (run (canvas_of 3 3 0)
              (setPixels [0; 1] [0; 1] (JNum (Int 0x123456));;
               setPixels [2] [2] JUndefined)%monad))
  = Some [[c; c; Null]; [c; c; Null]; [Null; Null; c]].
Proof. vm_compute. reflexivity. Qed.

Example setScale_errors :
  map (fun v => fst (run (PixelCanvas_new None) (setScale v)))
      [JStr "notANumber"; JNum (Int (-1)); JNum (Fin (5 # 2)); JNum (Int 0); JNum (Int 101)]
  = [Throw TypeError; Throw RangeError; Throw TypeError; Throw RangeError; Throw RangeError].
Proof. vm_compute. reflexivity. Qed.

(** ** The pixel encoder on packed colours *)

Lemma createTrueColorPixelBuffer_Int (z : Z) :
  0 <= z <= 0xFFFFFF ->
  createTrueColorPixelBuffer (Int z)
  = Ok [byte_of_Z (sample (Int z) 16); byte_of_Z (sample (Int z) 8);
        byte_of_Z (sample (Int z) 0)].
Proof.
  intros Hz. unfold createTrueColorPixelBuffer.
  rewrite throwIfInvalidColorValue_Int by exact Hz. reflexivity.
Qed.

Lemma createGrayscalePixelBuffer_Int (z : Z) :
  0 <= z <= 0xFFFFFF ->
  createGrayscalePixelBuffer (Int z) = Ok [byte_of_Z (convertTrueColorToGrayscale (Int z))].
Proof.
  intros Hz. unfold createGrayscalePixelBuffer.
  rewrite throwIfInvalidColorValue_Int by exact Hz. reflexivity.
Qed.

Lemma createAlphaPixelBuffer_Int (z : Z) :
  0 <= z <= 0xFFFFFF ->
  createAlphaPixelBuffer (Int z) = Ok [if z =? 0 then x00 else xff].
Proof.
  intros Hz. unfold createAlphaPixelBuffer.
  rewrite throwIfInvalidColorValue_Int by exact Hz.
  rewrite num_eq_Int. destruct (z =? 0); reflexivity.
Qed.

(** C5.  For a colour value in [0, 0xFFFFFF], the two alpha modes give the
    samples of the mode without alpha (three for Truecolor, one for
    Greyscale) followed by exactly one byte, 0x00 when the value is 0 and
    0xFF otherwise; black in TruecolorAlpha is four zero bytes. *)
Theorem alpha_byte_keyed_on_black (z : Z) :
  0 <= z <= 0xFFFFFF ->
  let alpha := if z =? 0 then x00 else xff in
  (exists rgb,
      createPixelBuffer (Int z) COLOR_TYPES.TRUE_COLOR = Ok rgb /\
      length rgb = 3%nat /\
      createPixelBuffer (Int z) COLOR_TYPES.TRUE_COLOR_ALPHA = Ok (rgb ++ [alpha])) /\
  (exists grey,
      createPixelBuffer (Int z) COLOR_TYPES.GRAYSCALE = Ok grey /\
      length grey = 1%nat /\
      createPixelBuffer (Int z) COLOR_TYPES.GRAYSCALE_ALPHA = Ok (grey ++ [alpha])) /\
  (z <> 0 -> alpha = xff) /\
  createPixelBuffer (Int 0) COLOR_TYPES.TRUE_COLOR_ALPHA = Ok [x00; x00; x00; x00].
Proof.
  intros Hz alpha. unfold createPixelBuffer. cbn [Z.eqb COLOR_TYPES.GRAYSCALE
    COLOR_TYPES.GRAYSCALE_ALPHA COLOR_TYPES.TRUE_COLOR COLOR_TYPES.TRUE_COLOR_ALPHA
    Pos.eqb].
  rewrite createTrueColorPixelBuffer_Int, createGrayscalePixelBuffer_Int,
    createAlphaPixelBuffer_Int by exact Hz.
  repeat split.
  - eexists. repeat split.
  - eexists. repeat split.
  - intros Hnz. subst alpha. destruct (Z.eqb_spec z 0); [contradiction|reflexivity].
Qed.

Lemma alpha_byte_keyed_on_black_witness :
  (exists rgb,
      createPixelBuffer (Int 0x123456) COLOR_TYPES.TRUE_COLOR = Ok rgb /\
      length rgb = 3%nat /\
      createPixelBuffer (Int 0x123456) COLOR_TYPES.TRUE_COLOR_ALPHA = Ok (rgb ++ [xff])) /\
  (exists grey,
      createPixelBuffer (Int 0x123456) COLOR_TYPES.GRAYSCALE = Ok grey /\
      length grey = 1%nat /\
      createPixelBuffer (Int 0x123456) COLOR_TYPES.GRAYSCALE_ALPHA = Ok (grey ++ [xff])) /\
  (0x123456 <> 0 -> xff = xff) /\
  createPixelBuffer (Int 0) COLOR_TYPES.TRUE_COLOR_ALPHA = Ok [x00; x00; x00; x00].
Proof. apply (alpha_byte_keyed_on_black 0x123456). lia. Defined.



(** The sum is the one of the doubles: where the real sum lies halfway between
    two integers the double sum can fall short of it, and the sample is then
    the lower integer.  For R = 0, G = 36, B = 12 the real sum is 22.5. *)
Remark luminance_halfway :
  299 * 0 + 587 * 36 + 114 * 12 = 22500 /\ luminance 0 36 12 = 22 /\
  createPixelBuffer (Int 0x00240C) COLOR_TYPES.GRAYSCALE = Ok [x16].
Proof. vm_compute. repeat split. Qed.

(** C10.  Without options the constructor succeeds with width 16, height 16,
    background colour 0, last used colour 0 and a map of 16 columns of 16
    unset cells. *)
Theorem PixelCanvas_new_default :
  PixelCanvas_new None
  = Ok {| width := 16; height := 16;
          pixelMap := replicate 16 (replicate 16 Null);
          lastUsedColor := Int 0; backgroundColor := Int 0 |}.
Proof. vm_compute. reflexivity. Qed.

(** ** The constructor *)

Lemma PixelCanvas_fields_eq :
  PixelCanvas_fields
  = Ok {| width := 16; height := 16; pixelMap := replicate 16 (replicate 16 Null);
          lastUsedColor := Int 0; backgroundColor := Int 0 |}.
Proof. vm_compute. reflexivity. Qed.

Lemma mapR_const {A B} (r : result B) (l : list A) :
  mapR (fun _ => r) l
  = match l with
    | [] => Ok []
    | _ :: _ => match r with
                | Ok b => Ok (replicate (length l) b)
                | Throw e => Throw e
                end
    end.
Proof.
  induction l as [|a l IH]; [reflexivity|].
  cbn [mapR]. destruct r as [b|e]; cbn [rbind]; [|reflexivity].
  rewrite IH. destruct l; reflexivity.
Qed.

Lemma initPixelMap_cases (w h : number) :
  initPixelMap w h
  = if isInteger w && negb (num_lt w (Int 0)) then
      if (Z.to_nat (num_to_Z w) =? 0)%nat then Ok []
      else if isInteger h && negb (num_lt h (Int 0)) then
             Ok (replicate (Z.to_nat (num_to_Z w)) (replicate (Z.to_nat (num_to_Z h)) Null))
           else Throw RangeError
    else Throw RangeError.
Proof.
  unfold initPixelMap, new_Array.
  destruct (isInteger w && negb (num_lt w (Int 0))); cbn [rbind]; [|reflexivity].
  rewrite mapR_const, length_replicate.
  destruct (Z.to_nat (num_to_Z w)) as [|n] eqn:E; [reflexivity|].
  destruct (isInteger h && negb (num_lt h (Int 0))); reflexivity.
Qed.

Lemma initPixelMap_Int (w h : Z) :
  0 <= w -> 0 <= h ->
  initPixelMap (Int w) (Int h) = Ok (replicate (Z.to_nat w) (replicate (Z.to_nat h) Null)).
Proof.
  intros Hw Hh. rewrite initPixelMap_cases, !isInteger_Int, !num_lt_Int, !num_to_Z_Int.
  destruct (Z.ltb_spec w 0); [lia|]. destruct (Z.ltb_spec h 0); [lia|]. cbn [andb negb].
  destruct (Nat.eqb_spec (Z.to_nat w) 0) as [E|E]; [|reflexivity].
  rewrite E. reflexivity.
Qed.


Lemma validateInitialPixelMap_cases (pixelMap : PixelMap) (w h : number) :
  validateInitialPixelMap pixelMap w h
  = if num_eq (Int (Z.of_nat (length pixelMap))) w
       && forallb (fun column => num_eq (Int (Z.of_nat (length column))) h) pixelMap
    then Ok tt else Throw RangeError.
Proof.
  unfold validateInitialPixelMap.
  destruct (num_eq (Int (Z.of_nat (length pixelMap))) w); cbn [negb andb]; [|reflexivity].
  induction pixelMap as [|column rest IH]; [reflexivity|].
  cbn [foldR forallb].
  destruct (num_eq (Int (Z.of_nat (length column))) h); cbn [negb rbind andb];
    [exact IH|reflexivity].
Qed.

Lemma validateColor_error_cases (color : jsval) :
  validateColor color
  = match color with
    | JStr name => if hasOwn COLORS name then Ok (COLORS_at name) else Throw ReferenceError
    | JNum n => if num_lt n (Int 0) || num_lt (Int 0xFFFFFF) n then Throw RangeError else Ok n
    | _ => Throw TypeError
    end.
Proof.
  destruct color as [| |b|name|n]; try reflexivity.
  - unfold validateColor, throwIfNotInKeys. destruct (hasOwn COLORS name); reflexivity.
  - unfold validateColor, throwIfNotNumber, throwIfOutOfRange. cbn [rbind].
    unfold VALID_COLOR_VALUE_RANGE.min, VALID_COLOR_VALUE_RANGE.max.
    destruct (num_lt n (Int 0) || num_lt (Int 0xFFFFFF) n); reflexivity.
Qed.

(** The constructor, check by check. *)
Lemma PixelCanvas_new_cases (o : PixelCanvasOptions) :
  PixelCanvas_new (Some o)
  = match o_width o with
    | JNum w =>
        if num_lt w (Int 0) then Throw RangeError else
        match o_height o with
        | JNum h =>
            if num_lt h (Int 0) then Throw RangeError else
            match
              match o_pixelMap o with
              | Some pixelMap =>
                  rbind (validateInitialPixelMap pixelMap w h) (fun _ => Ok pixelMap)
              | None => initPixelMap w h
              end
            with
            | Ok pixelMap =>
                match validateColor (o_backgroundColor o) with
                | Ok c => Ok {| width := num_to_Z w; height := num_to_Z h;
                               pixelMap := pixelMap; lastUsedColor := Int 0;
                               backgroundColor := c |}
                | Throw e => Throw e
                end
            | Throw e => Throw e
            end
        | _ => Throw TypeError
        end
    | _ => Throw TypeError
    end.
Proof.
  unfold PixelCanvas_new. rewrite PixelCanvas_fields_eq. cbn [rbind].
  destruct (o_width o) as [| |b|s|w]; try reflexivity.
  cbn [throwIfNotNumber rbind]. unfold throwIfNegative.
  destruct (num_lt w (Int 0)); cbn [rbind]; [reflexivity|].
  destruct (o_height o) as [| |b|s|h]; try reflexivity.
  cbn [throwIfNotNumber rbind].
  destruct (num_lt h (Int 0)); cbn [rbind]; [reflexivity|].
  destruct (o_pixelMap o) as [pm|].
  - destruct (validateInitialPixelMap pm w h) as [[]|e]; cbn [rbind]; [|reflexivity].
    destruct (validateColor (o_backgroundColor o)); reflexivity.
  - destruct (initPixelMap w h) as [pm|e]; cbn [rbind]; [|reflexivity].
    destruct (validateColor (o_backgroundColor o)); reflexivity.
Qed.





(** ** The 32-bit operators *)

Lemma wrap32_range (z : Z) : 0 <= wrap32 z < 2 ^ 32.
Proof. unfold wrap32. apply Z.mod_pos_bound. lia. Qed.

Lemma wrap32_small (z : Z) : 0 <= z < 2 ^ 32 -> wrap32 z = z.
Proof. intros Hz. unfold wrap32. apply Z.mod_small. exact Hz. Qed.

Lemma wrap32_land (z : Z) : wrap32 z = Z.land z (Z.ones 32).
Proof. unfold wrap32. rewrite Z.land_ones by lia. reflexivity. Qed.

Lemma wrap32_to_int32 (z : Z) : wrap32 (to_int32 z) = wrap32 z.
Proof.
  unfold to_int32. pose proof (wrap32_range z) as Hr.
  destruct (wrap32 z <? 2 ^ 31).
  - apply wrap32_small. exact Hr.
  - unfold wrap32 in *. change (2 ^ 32) with 4294967296 in *.
    rewrite <- (Z.mod_mod z 4294967296) at 2 by lia.
    generalize dependent (z mod 4294967296). intros r Hr.
    rewrite (Z.mod_small r) by lia.
    replace (r - 4294967296) with (r + (-1) * 4294967296) by lia.
    rewrite Z.mod_add by lia. apply Z.mod_small. lia.
Qed.

Lemma wrap32_lxor (a b : Z) : wrap32 (Z.lxor a b) = Z.lxor (wrap32 a) (wrap32 b).
Proof.
  rewrite !wrap32_land. apply Z.bits_inj'. intros i Hi.
  rewrite !Z.lxor_spec, !Z.land_spec, !Z.lxor_spec.
  destruct (Z.testbit a i), (Z.testbit b i), (Z.testbit (Z.ones 32) i); reflexivity.
Qed.

Lemma wrap32_land_r (a b : Z) : wrap32 (Z.land a b) = Z.land (wrap32 a) (wrap32 b).
Proof.
  rewrite !wrap32_land. apply Z.bits_inj'. intros i Hi.
  rewrite !Z.land_spec.
  destruct (Z.testbit a i), (Z.testbit b i), (Z.testbit (Z.ones 32) i); reflexivity.
Qed.

Lemma wrap32_js_xor (a b : Z) : wrap32 (js_xor a b) = Z.lxor (wrap32 a) (wrap32 b).
Proof. unfold js_xor. rewrite wrap32_to_int32, wrap32_lxor, !wrap32_to_int32. reflexivity. Qed.

Lemma wrap32_js_not (a : Z) : wrap32 (js_not a) = Z.lxor (wrap32 a) 0xFFFFFFFF.
Proof.
  unfold js_not. rewrite wrap32_to_int32.
  rewrite <- (wrap32_to_int32 a). rewrite !wrap32_land.
  change 0xFFFFFFFF with (Z.ones 32).
  apply Z.bits_inj'. intros i Hi.
  rewrite Z.lxor_spec, !Z.land_spec, Z.lnot_spec by exact Hi.
  destruct (Z.testbit (to_int32 a) i), (Z.testbit (Z.ones 32) i); reflexivity.
Qed.

Lemma js_and_255 (a : Z) : js_and a 0xff = Z.land (wrap32 a) 0xff.
Proof.
  unfold js_and. rewrite (to_int32_small 0xff) by lia.
  assert (E : Z.land (to_int32 a) 0xff = Z.land (wrap32 a) 0xff).
  { rewrite <- (wrap32_to_int32 a), wrap32_land.
    change 0xff with (Z.ones 8).
    apply Z.bits_inj'. intros i Hi. rewrite !Z.land_spec.
    destruct (Z.ltb_spec i 8).
    - rewrite (Z.ones_spec_low 32) by lia. rewrite andb_true_r. reflexivity.
    - rewrite (Z.ones_spec_high 8) by lia. rewrite !andb_false_r. reflexivity. }
  rewrite E. apply to_int32_small.
  change 0xff with (Z.ones 8). rewrite Z.land_ones by lia.
  pose proof (Z.mod_pos_bound (wrap32 a) (2 ^ 8)). lia.
Qed.

Lemma js_ushr_wrap (a n : Z) : 0 <= n < 32 -> js_ushr a n = Z.shiftr (wrap32 a) n.
Proof. intros Hn. unfold js_ushr, to_uint32. rewrite Z.mod_small by exact Hn. reflexivity. Qed.

Lemma shiftr_range32 (u n : Z) : 0 <= u < 2 ^ 32 -> 0 <= n -> 0 <= Z.shiftr u n < 2 ^ 32.
Proof.
  intros Hu Hn. rewrite Z.shiftr_div_pow2 by exact Hn.
  assert (0 < 2 ^ n) by (apply Z.pow_pos_nonneg; lia).
  split; [apply Z.div_pos; lia|].
  apply Z.le_lt_trans with u; [|lia].
  apply Z.div_le_upper_bound; nia.
Qed.

(** ** The checksum *)

Lemma crc32_bit_lxor (a b : Z) :
  crc32_bit (Z.lxor a b) = Z.lxor (crc32_bit a) (crc32_bit b).
Proof.
  unfold crc32_bit. rewrite <- !Z.bit0_odd, Z.lxor_spec, Z.shiftr_lxor.
  apply Z.bits_inj'. intros i Hi.
  destruct (Z.testbit a 0), (Z.testbit b 0); cbn [xorb]; rewrite !Z.lxor_spec;
    destruct (Z.testbit (Z.shiftr a 1) i), (Z.testbit (Z.shiftr b 1) i),
      (Z.testbit 0xEDB88320 i); reflexivity.
Qed.

Lemma iter_crc32_bit_lxor (n : nat) (a b : Z) :
  Nat.iter n crc32_bit (Z.lxor a b)
  = Z.lxor (Nat.iter n crc32_bit a) (Nat.iter n crc32_bit b).
Proof.
  induction n as [|n IH]; [reflexivity|].
  rewrite !Nat.iter_succ, IH. apply crc32_bit_lxor.
Qed.

(** On a register whose low [n] bits are zero, [n] steps only shift. *)
Lemma iter_crc32_bit_shift (n : nat) (h : Z) :
  (forall i, 0 <= i < Z.of_nat n -> Z.testbit h i = false) ->
  Nat.iter n crc32_bit h = Z.shiftr h (Z.of_nat n).
Proof.
  induction n as [|n IH]; intros Hlow.
  - rewrite Z.shiftr_0_r. reflexivity.
  - rewrite Nat.iter_succ, IH by (intros i Hi; apply Hlow; lia).
    unfold crc32_bit. rewrite <- Z.bit0_odd, Z.shiftr_spec by lia.
    rewrite Hlow by lia. rewrite Z.shiftr_shiftr by lia.
    f_equal. lia.
Qed.

(** The step of the table-driven algorithm. *)
Lemma crc32_byte_by_table (u : Z) (b : byte) :
  crc32_byte u b
  = Z.lxor (Nat.iter 8 crc32_bit (Z.land (Z.lxor u (byte_to_Z b)) 0xff)) (Z.shiftr u 8).
Proof.
  unfold crc32_byte. set (x := Z.lxor u (byte_to_Z b)).
  assert (Esplit : x = Z.lxor (Z.land x 0xff) (Z.ldiff x 0xff)).
  { apply Z.bits_inj'. intros i Hi. rewrite Z.lxor_spec, Z.land_spec, Z.ldiff_spec.
    destruct (Z.testbit x i), (Z.testbit 0xff i); reflexivity. }
  rewrite Esplit at 1. rewrite iter_crc32_bit_lxor. f_equal.
  rewrite iter_crc32_bit_shift.
  - change (Z.of_nat 8) with 8. apply Z.bits_inj'. intros i Hi.
    rewrite !Z.shiftr_spec, Z.ldiff_spec by exact Hi.
    change 0xff with (Z.ones 8). rewrite Z.ones_spec_high by lia.
    unfold x. rewrite Z.lxor_spec.
    assert (Hb : Z.testbit (byte_to_Z b) (i + 8) = false).
    { pose proof (byte_to_Z_range b) as Hr.
      destruct (Z.eq_dec (byte_to_Z b) 0) as [E|E]; [rewrite E; apply Z.testbit_0_l|].
      apply Z.bits_above_log2; [lia|].
      apply Z.lt_le_trans with 8; [|lia]. apply Z.log2_lt_pow2; lia. }
    rewrite Hb. destruct (Z.testbit u (i + 8)); reflexivity.
  - intros i Hi. rewrite Z.ldiff_spec. change 0xff with (Z.ones 8).
    rewrite Z.ones_spec_low by lia. apply andb_false_r.
Qed.

Lemma crc_table_checked :
  forallb (fun i => (table_at crc_table i =? Nat.iter 8 crc32_bit i)
                    && (0 <=? table_at crc_table i) && (table_at crc_table i <? 2 ^ 32))
          (counters 256) = true.
Proof. vm_compute. reflexivity. Qed.

Lemma In_counters (n i : Z) : 0 <= i < n -> In i (counters n).
Proof.
  intros Hi. unfold counters. apply in_map_iff. exists (Z.to_nat i).
  split; [lia|]. apply in_seq. lia.
Qed.

Lemma table_at_crc_table (i : Z) :
  0 <= i < 256 ->
  table_at crc_table i = Nat.iter 8 crc32_bit i /\ 0 <= table_at crc_table i < 2 ^ 32.
Proof.
  intros Hi. pose proof crc_table_checked as H.
  rewrite forallb_forall in H. specialize (H i (In_counters 256 i Hi)).
  apply andb_prop in H as [H H3]. apply andb_prop in H as [H1 H2].
  split; [apply Z.eqb_eq; exact H1|]. split; [apply Z.leb_le; exact H2|apply Z.ltb_lt; exact H3].
Qed.

Lemma crc_table_length : length crc_table = 256%nat.
Proof. reflexivity. Qed.

Lemma getCrc32Table_spec (this : PNGCreator) :
  cache_ok this ->
  getCrc32Table this = (Ok crc_table, set_crc32Table crc_table this).
Proof.
  intros Hok. destruct this as [table z]. unfold cache_ok in Hok. cbn in Hok.
  destruct Hok as [E|E]; subst table; vm_compute; reflexivity.
Qed.

Lemma cache_ok_filled (this : PNGCreator) : cache_ok (set_crc32Table crc_table this).
Proof. right. reflexivity. Qed.

(** What one pass of the loop of [#computeCRC32] does to the register. *)
Lemma computeCRC32_step (c : Z) (b : byte) :
  wrap32 (js_xor (table_at crc_table (js_and (js_xor c (byte_to_Z b)) 0xff)) (js_ushr c 8))
  = crc32_byte (wrap32 c) b.
Proof.
  pose proof (wrap32_range c) as Hc. pose proof (byte_to_Z_range b) as Hb.
  rewrite wrap32_js_xor, js_and_255, wrap32_js_xor, js_ushr_wrap by lia.
  rewrite (wrap32_small (byte_to_Z b)) by lia.
  rewrite (wrap32_small (Z.shiftr (wrap32 c) 8)) by (apply shiftr_range32; lia).
  set (index := Z.land (Z.lxor (wrap32 c) (byte_to_Z b)) 0xff).
  assert (Hindex : 0 <= index < 256).
  { unfold index. change 0xff with (Z.ones 8). rewrite Z.land_ones by lia.
    apply Z.mod_pos_bound. lia. }
  destruct (table_at_crc_table index Hindex) as [Et Hr].
  rewrite (wrap32_small _ Hr), Et. symmetry. apply crc32_byte_by_table.
Qed.

Lemma computeCRC32_fold (buffer : Buffer) (c : Z) :
  wrap32 (fold_left (fun crc byte =>
                       let index := js_and (js_xor crc (byte_to_Z byte)) 0xff in
                       js_xor (table_at crc_table index) (js_ushr crc 8))
                    buffer c)
  = fold_left crc32_byte buffer (wrap32 c).
Proof.
  revert c. induction buffer as [|b buffer IH]; intros c; [reflexivity|].
  cbn [fold_left]. rewrite IH. f_equal. apply computeCRC32_step.
Qed.

Lemma computeCRC32_spec (buffer : Buffer) (this : PNGCreator) :
  cache_ok this ->
  computeCRC32 buffer this = (Ok (crc32 buffer), set_crc32Table crc_table this).
Proof.
  intros Hok. unfold computeCRC32, bind. rewrite (getCrc32Table_spec this Hok).
  unfold ret. f_equal. f_equal.
  rewrite js_ushr_wrap by lia. rewrite Z.shiftr_0_r, wrap32_js_not, computeCRC32_fold.
  reflexivity.
Qed.

Lemma crc32_range (buffer : Buffer) : 0 <= crc32 buffer < 2 ^ 32.
Proof.
  unfold crc32.
  pose proof (computeCRC32_fold buffer 0xFFFFFFFF) as E.
  change (wrap32 0xFFFFFFFF) with 0xFFFFFFFF in E. rewrite <- E.
  match goal with |- context [wrap32 ?x] => generalize x end. intros X.
  change 0xFFFFFFFF with (wrap32 0xFFFFFFFF).
  rewrite <- wrap32_lxor. apply wrap32_range.
Qed.

Lemma cache_ok_after (earlier : list Buffer) (this : PNGCreator) :
  cache_ok this ->
  cache_ok (snd (for_of earlier (fun b => bind (computeCRC32 b) (fun _ => ret tt)) this)).
Proof.
  revert this. induction earlier as [|b earlier IH]; intros this Hok; [exact Hok|].
  cbn [for_of]. unfold bind at 1. unfold bind at 1.
  rewrite (computeCRC32_spec b this Hok). unfold ret at 1.
  apply IH. apply cache_ok_filled.
Qed.

(** C4.  Whatever checksums an instance computed before, [#computeCRC32]
    returns the reflected CRC-32 of its argument (polynomial 0xEDB88320,
    register started from 0xFFFFFFFF and inverted at the end), a 32-bit value;
    it reads a table of 256 entries; the checksum of the tag IEND is
    0xAE426082. *)
Theorem computeCRC32_is_crc32
  (zlibModule : Buffer -> Buffer) (earlier : list Buffer) (buffer : Buffer) :
  let this :=
    snd (for_of earlier (fun b => bind (computeCRC32 b) (fun _ => ret tt))
                (getPNGCreator zlibModule)) in
  fst (computeCRC32 buffer this) = Ok (crc32 buffer) /\
  length (crc32Table (snd (computeCRC32 buffer this))) = 256%nat /\
  0 <= crc32 buffer < 2 ^ 32 /\
  crc32 (Buffer_from IEND) = 0xAE426082.
Proof.
  intros this.
  assert (Hok : cache_ok this) by (apply cache_ok_after; left; reflexivity).
  rewrite (computeCRC32_spec buffer this Hok). cbn [fst snd].
  repeat apply conj; try reflexivity; apply crc32_range.
Qed.

(** ** Chunks and the layout of the output *)

Lemma BigEndian32_value (v : Z) : 0 <= v < 2 ^ 32 -> be_value (BigEndian32 v) = v.
Proof.
  intros Hv. unfold be_value, BigEndian32. cbn [fold_left].
  rewrite !byte_to_of_Z.
  change (2 ^ 24) with 16777216. change (2 ^ 16) with 65536. change (2 ^ 8) with 256.
  change (2 ^ 32) with 4294967296 in Hv.
  Z.div_mod_to_equations. lia.
Qed.

Lemma writeUInt32BE_alloc (v : Z) :
  writeUInt32BE (Buffer_alloc CHUNK_BYTES_SIZE) v 0
  = if (v <? 0) || (2 ^ 32 - 1 <? v) then Throw RangeError else Ok (BigEndian32 v).
Proof.
  unfold writeUInt32BE. destruct ((v <? 0) || (2 ^ 32 - 1 <? v)); [reflexivity|].
  cbn -[byte_of_Z Z.shiftr Z.pow Z.div]. unfold BigEndian32.
  rewrite !Z.shiftr_div_pow2 by lia. reflexivity.
Qed.

Lemma createIHDRBuffer_cases (w h t : Z) :
  createIHDRBuffer w h t
  = if ((w <? 0) || (2 ^ 32 - 1 <? w)) || ((h <? 0) || (2 ^ 32 - 1 <? h))
       || ((t <? 0) || (255 <? t))
    then Throw RangeError else Ok (header w h t).
Proof.
  unfold createIHDRBuffer, writeUInt32BE at 1.
  destruct ((w <? 0) || (2 ^ 32 - 1 <? w)); [reflexivity|].
  cbn -[byte_of_Z Z.shiftr Z.pow Z.div Z.ltb Z.sub]. unfold writeUInt32BE.
  destruct ((h <? 0) || (2 ^ 32 - 1 <? h)); [reflexivity|].
  cbn -[byte_of_Z Z.shiftr Z.pow Z.div Z.ltb Z.sub].
  change (0 <? 0) with false. change (13 <? 4 + 4) with false. cbn [orb].
  cbn -[byte_of_Z Z.shiftr Z.pow Z.div Z.ltb Z.sub].
  unfold writeUInt8.
  cbn -[byte_of_Z Z.shiftr Z.pow Z.div Z.ltb Z.sub].
  destruct ((t <? 0) || (255 <? t)); [reflexivity|].
  cbn -[byte_of_Z Z.shiftr Z.pow Z.div]. unfold header, BigEndian32.
  rewrite !Z.shiftr_div_pow2 by lia. reflexivity.
Qed.

Lemma header_length (w h t : Z) : length (header w h t) = 13%nat.
Proof. reflexivity. Qed.

Lemma createChunk_cases (chunkType : CriticalChunk) (chunkData : Buffer) (this : PNGCreator) :
  cache_ok this ->
  createChunk chunkType chunkData this
  = if Z.of_nat (length chunkData) <? 2 ^ 32
    then (Ok (chunk chunkType chunkData), set_crc32Table crc_table this)
    else (Throw RangeError, this).
Proof.
  intros Hok. unfold createChunk, bind, lift. rewrite writeUInt32BE_alloc.
  destruct (Z.ltb_spec (Z.of_nat (length chunkData)) 0) as [Hneg|_]; [lia|]. cbn [orb].
  destruct (Z.ltb_spec (Z.of_nat (length chunkData)) (2 ^ 32)) as [Hlen|Hlen].
  - destruct (Z.ltb_spec (2 ^ 32 - 1) (Z.of_nat (length chunkData))); [lia|].
    rewrite (computeCRC32_spec _ this Hok), writeUInt32BE_alloc.
    pose proof (crc32_range (Buffer_concat [Buffer_from chunkType; chunkData])) as Hr.
    destruct (Z.ltb_spec (crc32 (Buffer_concat [Buffer_from chunkType; chunkData])) 0); [lia|].
    destruct (Z.ltb_spec (2 ^ 32 - 1) (crc32 (Buffer_concat [Buffer_from chunkType; chunkData])));
      [lia|].
    cbn [orb]. unfold ret, chunk, Buffer_concat. cbn [concat]. rewrite !app_nil_r. reflexivity.
  - destruct (Z.ltb_spec (2 ^ 32 - 1) (Z.of_nat (length chunkData))); [reflexivity|lia].
Qed.

(** C3.  For each of the tags and every payload whose length fits in 32 bits,
    the chunk is the length of the payload on four bytes, the most significant
    first, then the four bytes of the tag, the payload, and the CRC-32 of tag
    and payload on four bytes, the most significant first. *)
Theorem createChunk_framing
  (chunkType : CriticalChunk) (chunkData : Buffer) (this : PNGCreator) :
  cache_ok this ->
  Z.of_nat (length chunkData) < 2 ^ 32 ->
  fst (createChunk chunkType chunkData this)
  = Ok (BigEndian32 (Z.of_nat (length chunkData)) ++ Buffer_from chunkType ++ chunkData
        ++ BigEndian32 (crc32 (Buffer_from chunkType ++ chunkData))) /\
  length (Buffer_from chunkType) = 4%nat /\
  be_value (BigEndian32 (Z.of_nat (length chunkData))) = Z.of_nat (length chunkData) /\
  be_value (BigEndian32 (crc32 (Buffer_from chunkType ++ chunkData)))
  = crc32 (Buffer_from chunkType ++ chunkData).
Proof.
  intros Hok Hlen. rewrite (createChunk_cases _ _ _ Hok).
  destruct (Z.ltb_spec (Z.of_nat (length chunkData)) (2 ^ 32)); [|lia].
  repeat apply conj.
  - reflexivity.
  - destruct chunkType; reflexivity.
  - apply BigEndian32_value. lia.
  - apply BigEndian32_value. apply crc32_range.
Qed.

Lemma createChunk_framing_witness :
  fst (createChunk IDAT [x01; x02; x03] (getPNGCreator id))
  = Ok (BigEndian32 3 ++ Buffer_from IDAT ++ [x01; x02; x03]
        ++ BigEndian32 (crc32 (Buffer_from IDAT ++ [x01; x02; x03]))) /\
  length (Buffer_from IDAT) = 4%nat /\
  be_value (BigEndian32 3) = 3 /\
  be_value (BigEndian32 (crc32 (Buffer_from IDAT ++ [x01; x02; x03])))
  = crc32 (Buffer_from IDAT ++ [x01; x02; x03]).
Proof.
  apply (createChunk_framing IDAT [x01; x02; x03] (getPNGCreator id)).
  - left. reflexivity.
  - cbn. lia.
Defined.

Lemma finalizeCreation_cases (ihdrBuffer idatBuffer : Buffer) (this : PNGCreator) :
  cache_ok this ->
  finalizeCreation ihdrBuffer idatBuffer this
  = if Z.of_nat (length ihdrBuffer) <? 2 ^ 32 then
      if Z.of_nat (length idatBuffer) <? 2 ^ 32 then
        (Ok (signature ++ chunk IHDR ihdrBuffer ++ chunk IDAT idatBuffer ++ chunk IEND []),
         set_crc32Table crc_table this)
      else (Throw RangeError, set_crc32Table crc_table this)
    else (Throw RangeError, this).
Proof.
  intros Hok. unfold finalizeCreation. unfold bind at 1.
  rewrite (createChunk_cases _ _ _ Hok).
  destruct (Z.of_nat (length ihdrBuffer) <? 2 ^ 32); [|reflexivity].
  unfold bind at 1. rewrite (createChunk_cases _ _ _ (cache_ok_filled this)).
  destruct (Z.of_nat (length idatBuffer) <? 2 ^ 32); [|reflexivity].
  unfold bind at 1. rewrite (createChunk_cases _ _ _ (cache_ok_filled _)).
  change (Z.of_nat (length (Buffer_alloc 0)) <? 2 ^ 32) with true. cbv iota beta.
  unfold ret, Buffer_concat. cbn [concat]. rewrite app_nil_r.
  destruct this; reflexivity.
Qed.

Lemma createFromBuffer_cases (pixelBuffer : Buffer) (w h t : Z) (this : PNGCreator) :
  cache_ok this ->
  fst (createFromBuffer pixelBuffer w h t this)
  = if ((w <? 0) || (2 ^ 32 - 1 <? w)) || ((h <? 0) || (2 ^ 32 - 1 <? h))
       || ((t <? 0) || (255 <? t))
    then Throw RangeError
    else if Z.of_nat (length (zlib this pixelBuffer)) <? 2 ^ 32
         then Ok (png w h t (zlib this pixelBuffer))
         else Throw RangeError.
Proof.
  intros Hok. unfold createFromBuffer, bind, get, lift.
  rewrite createIHDRBuffer_cases.
  destruct (_ || _ || _); [reflexivity|].
  rewrite (finalizeCreation_cases _ _ _ Hok), header_length.
  change (Z.of_nat 13 <? 2 ^ 32) with true. cbn iota.
  destruct (Z.of_nat (length (zlib this pixelBuffer)) <? 2 ^ 32); reflexivity.
Qed.

Lemma createFromCanvas_cases {T} `{IPixelCanvas T}
  (pixelCanvas : T) (colorMode : option Z) (this : PNGCreator) :
  fst (createFromCanvas pixelCanvas colorMode this)
  = match computeImageBuffer pixelCanvas (default DEFAULT_COLOR_TYPE colorMode) with
    | Ok imageData =>
        fst (createFromBuffer imageData (fst (getSize pixelCanvas)) (snd (getSize pixelCanvas))
               (default DEFAULT_COLOR_TYPE colorMode) this)
    | Throw e => Throw e
    end.
Proof.
  unfold createFromCanvas, createFromBuffer, bind, get, lift.
  destruct (computeImageBuffer pixelCanvas (default DEFAULT_COLOR_TYPE colorMode));
    [|reflexivity].
  destruct (getSize pixelCanvas) as [w h]. reflexivity.
Qed.



(** ** The raw pixel stream *)

Lemma fold_left_push {A B} (f : A -> B) (l : list A) (acc : list B) :
  fold_left (fun acc a => acc ++ [f a]) l acc = acc ++ map f l.
Proof.
  revert acc. induction l as [|a l IH]; intros acc; cbn [fold_left map].
  - rewrite app_nil_r. reflexivity.
  - rewrite IH, <- app_assoc. reflexivity.
Qed.

Lemma addBackgroundColor_map (pixelMap : PixelMap) (backgroundColor : number) :
  addBackgroundColor pixelMap backgroundColor
  = map (map (resolve_cell backgroundColor)) pixelMap.
Proof.
  unfold addBackgroundColor.
  rewrite (fold_left_push
             (fun row => fold_left (fun newRow column =>
                                      newRow ++ [resolve_cell backgroundColor column])
                                   row [])).
  cbn [app]. apply map_ext. intros row. apply (fold_left_push _ row []).
Qed.

(** A loop that appends to a list what each pass produces. *)
Lemma foldR_append {A B} (body : A -> list B -> result (list B)) (g : A -> result (list B))
  (l : list A) (acc : list B) :
  (forall a acc, body a acc = rbind (g a) (fun bs => Ok (acc ++ bs))) ->
  foldR body l acc = rbind (mapR g l) (fun bss => Ok (acc ++ concat bss)).
Proof.
  intros Hbody. revert acc. induction l as [|a l IH]; intros acc; cbn [foldR mapR rbind].
  - cbn [concat]. rewrite app_nil_r. reflexivity.
  - rewrite Hbody. destruct (g a) as [bs|e]; cbn [rbind]; [|reflexivity].
    rewrite IH. destruct (mapR g l) as [bss|e]; cbn [rbind]; [|reflexivity].
    cbn [concat]. rewrite app_assoc. reflexivity.
Qed.

Lemma mapR_post {A B C} (g : A -> result B) (h : B -> C) (l : list A) :
  mapR (fun a => rbind (g a) (fun b => Ok (h b))) l
  = rbind (mapR g l) (fun bs => Ok (map h bs)).
Proof.
  induction l as [|a l IH]; [reflexivity|]. cbn [mapR].
  destruct (g a) as [b|e]; cbn [rbind]; [|reflexivity].
  rewrite IH. destruct (mapR g l); reflexivity.
Qed.

Lemma concat_singletons {A} (l : list A) : concat (map (fun a => [a]) l) = l.
Proof. induction l as [|a l IH]; [reflexivity|]. cbn. rewrite IH. reflexivity. Qed.

Lemma computeImageBuffer_is_stream {T} `{IPixelCanvas T} (pixelCanvas : T) (colorType : Z) :
  computeImageBuffer pixelCanvas colorType = raw_pixel_stream pixelCanvas colorType.
Proof.
  unfold computeImageBuffer, raw_pixel_stream, scanline, resolved_grid.
  destruct (getSize pixelCanvas) as [width height]. cbn [fst snd].
  rewrite addBackgroundColor_map.
  set (grid := map (map (resolve_cell (getBackgroundColor pixelCanvas)))
                   (getPixelMap pixelCanvas)).
  set (pixel := fun y x => rbind (read_color grid x y)
                                 (fun colorValue => createPixelBuffer colorValue colorType)).
  rewrite (foldR_append _
             (fun y => rbind (mapR (pixel y) (counters width))
                             (fun pixels => Ok ([Buffer_alloc 1] ++ pixels)))).
  - rewrite (mapR_post (fun y => mapR (pixel y) (counters width))
                       (fun pixels => [Buffer_alloc 1] ++ pixels)).
    rewrite (mapR_post (fun y => mapR (pixel y) (counters width))
                       (fun pixels => x00 :: concat pixels)).
    destruct (mapR _ (counters height)) as [rows|e]; cbn [rbind]; [|reflexivity].
    f_equal. unfold Buffer_concat. cbn [app].
    induction rows as [|row rows IH]; [reflexivity|].
    cbn [map concat]. rewrite concat_app, IH. reflexivity.
  - intros y acc.
    rewrite (foldR_append _ (fun x => rbind (pixel y x) (fun p => Ok [p]))).
    + rewrite (mapR_post (pixel y) (fun p => [p])).
      destruct (mapR (pixel y) (counters width)) as [pixels|e]; cbn [rbind]; [|reflexivity].
      rewrite concat_singletons, <- app_assoc. reflexivity.
    + intros x acc'. unfold pixel.
      destruct (read_color grid x y) as [colorValue|e]; cbn [rbind]; [|reflexivity].
      destruct (createPixelBuffer colorValue colorType); reflexivity.
Qed.

(** C1.  For every canvas and colour mode, the pixel stream that
    [createFromCanvas] builds and hands to the compressor is the one obtained
    by giving every unset cell the background colour, set cells keeping
    their value, and then, for the rows y = 0 .. height-1 from top to bottom,
    emitting the byte 0 followed by the encoded pixels x = 0 .. width-1 from
    left to right, all rows concatenated. *)
Theorem raw_stream_row_major {T} `{IPixelCanvas T}
  (pixelCanvas : T) (colorMode : option Z) (this : PNGCreator) :
  let colorType := default COLOR_TYPES.TRUE_COLOR colorMode in
  computeImageBuffer pixelCanvas colorType = raw_pixel_stream pixelCanvas colorType /\
  fst (createFromCanvas pixelCanvas colorMode this)
  = match raw_pixel_stream pixelCanvas colorType with
    | Ok imageData =>
        fst (createFromBuffer imageData (fst (getSize pixelCanvas))
               (snd (getSize pixelCanvas)) colorType this)
    | Throw e => Throw e
    end /\
  (forall x y backgroundColor,
      read_color (map (map (resolve_cell backgroundColor)) (getPixelMap pixelCanvas)) x y
      = rbind (read2 (getPixelMap pixelCanvas) x y)
              (fun value => Ok (resolve_cell backgroundColor value))) /\
  (forall backgroundColor n,
      resolve_cell backgroundColor Null = backgroundColor /\
      resolve_cell backgroundColor (Color n) = n).
Proof.
  intros colorType. repeat apply conj.
  - apply computeImageBuffer_is_stream.
  - rewrite createFromCanvas_cases. change DEFAULT_COLOR_TYPE with COLOR_TYPES.TRUE_COLOR.
    fold colorType. rewrite computeImageBuffer_is_stream. reflexivity.
  - intros x y backgroundColor. unfold read_color, read2, js_get.
    destruct (x <? 0); [reflexivity|].
    rewrite list_lookup_fmap.
    destruct (getPixelMap pixelCanvas !! Z.to_nat x) as [column|]; [|reflexivity].
    cbn [fmap option_fmap option_map rbind]. f_equal.
    destruct (y <? 0); [reflexivity|].
    rewrite list_lookup_fmap. destruct (column !! Z.to_nat y); reflexivity.
  - intros backgroundColor n. split; reflexivity.
Qed.

(** ** Loops *)

Lemma for_of_state {S A} (body : A -> M S unit) (f : A -> S -> S)
  (I : S -> Prop) (P : A -> Prop) (l : list A) (s : S) :
  (forall a s, P a -> I s -> body a s = (Ok tt, f a s) /\ I (f a s)) ->
  Forall P l -> I s ->
  for_of l body s = (Ok tt, fold_left (fun s a => f a s) l s)
  /\ I (fold_left (fun s a => f a s) l s).
Proof.
  intros Hbody HP. revert s. induction HP as [|a l Ha HP IH]; intros s Hs.
  - split; [reflexivity|exact Hs].
  - destruct (Hbody a s Ha Hs) as [E Hs']. cbn [for_of fold_left].
    unfold bind. rewrite E. apply IH. exact Hs'.
Qed.

Lemma foldM_pure {S A B} (body : A -> B -> M S B) (f : A -> B -> B)
  (I : B -> Prop) (P : A -> Prop) (l : list A) (acc : B) (s : S) :
  (forall a b, P a -> I b -> body a b s = (Ok (f a b), s) /\ I (f a b)) ->
  Forall P l -> I acc ->
  foldM body l acc s = (Ok (fold_left (fun b a => f a b) l acc), s)
  /\ I (fold_left (fun b a => f a b) l acc).
Proof.
  intros Hbody HP. revert acc. induction HP as [|a l Ha HP IH]; intros acc Hacc.
  - split; [reflexivity|exact Hacc].
  - destruct (Hbody a acc Ha Hacc) as [E Hacc']. cbn [foldM fold_left].
    unfold bind. rewrite E. apply IH. exact Hacc'.
Qed.

Lemma fold_left_flat_map {A B C} (f : C -> B -> C) (g : A -> list B) (l : list A) (c : C) :
  fold_left f (flat_map g l) c = fold_left (fun c a => fold_left f (g a) c) l c.
Proof.
  revert c. induction l as [|a l IH]; intros c; [reflexivity|].
  cbn [flat_map fold_left]. rewrite fold_left_app. apply IH.
Qed.

Lemma fold_left_map {A B C} (f : C -> B -> C) (g : A -> B) (l : list A) (c : C) :
  fold_left f (map g l) c = fold_left (fun c a => f c (g a)) l c.
Proof.
  revert c. induction l as [|a l IH]; intros c; [reflexivity|]. cbn [map fold_left]. apply IH.
Qed.

Lemma Forall_counters (n : Z) : Forall (fun i => 0 <= i < n) (counters n).
Proof.
  apply Forall_forall. intros i Hi. apply list_elem_of_In in Hi.
  unfold counters in Hi. apply in_map_iff in Hi as (k & <- & Hk). apply in_seq in Hk. lia.
Qed.

(** ** Writing cells *)

Lemma dims_lookup (w h : nat) (pixelMap : PixelMap) (x : Z) :
  dims w h pixelMap -> 0 <= x < Z.of_nat w ->
  exists column, pixelMap !! Z.to_nat x = Some column /\ length column = h.
Proof.
  intros [Hlen Hcols] Hx.
  destruct (lookup_lt_is_Some_2 pixelMap (Z.to_nat x)) as [column E]; [lia|].
  exists column. split; [exact E|].
  rewrite Forall_forall in Hcols. apply Hcols. eapply list_elem_of_lookup_2. exact E.
Qed.

Lemma write2_in_grid (w h : nat) (pixelMap : PixelMap) (x y : Z) (value : cell) :
  dims w h pixelMap -> in_grid w h x y ->
  write2 pixelMap x y value = Ok (put_cell pixelMap x y value).
Proof.
  intros Hd [Hx Hy]. destruct (dims_lookup w h pixelMap x Hd Hx) as (column & E & Hlen).
  unfold write2, put_cell, js_get. destruct (Z.ltb_spec x 0); [lia|]. rewrite E.
  unfold js_set_cell, js_set. destruct (Z.ltb_spec y 0); [lia|].
  destruct (Z.ltb_spec y (Z.of_nat (length column))); [reflexivity|lia].
Qed.

Lemma read2_in_grid (w h : nat) (pixelMap : PixelMap) (x y : Z) :
  dims w h pixelMap -> in_grid w h x y ->
  exists value, cell_at pixelMap x y = Some value /\ read2 pixelMap x y = Ok value.
Proof.
  intros Hd [Hx Hy]. destruct (dims_lookup w h pixelMap x Hd Hx) as (column & E & Hlen).
  unfold read2, cell_at, js_get. destruct (Z.ltb_spec x 0); [lia|]. rewrite E.
  destruct (Z.ltb_spec y 0); [lia|].
  destruct (lookup_lt_is_Some_2 column (Z.to_nat y)) as [value Ev]; [lia|].
  exists value. rewrite Ev. split; reflexivity.
Qed.

Lemma put_cell_dims (w h : nat) (pixelMap : PixelMap) (x y : Z) (value : cell) :
  dims w h pixelMap -> dims w h (put_cell pixelMap x y value).
Proof.
  intros [Hlen Hcols]. unfold put_cell.
  destruct (pixelMap !! Z.to_nat x) as [column|] eqn:E; [|split; assumption].
  split; [rewrite length_insert; exact Hlen|].
  apply Forall_insert; [exact Hcols|]. rewrite length_insert.
  rewrite Forall_forall in Hcols. apply Hcols. eapply list_elem_of_lookup_2. exact E.
Qed.

Lemma cell_at_put_cell (w h : nat) (pixelMap : PixelMap) (x y x' y' : Z) (value : cell) :
  dims w h pixelMap -> in_grid w h x y ->
  cell_at (put_cell pixelMap x y value) x' y'
  = if decide (x' = x /\ y' = y) then Some value else cell_at pixelMap x' y'.
Proof.
  intros Hd [Hx Hy]. destruct (dims_lookup w h pixelMap x Hd Hx) as (column & E & Hlen).
  unfold put_cell, cell_at, js_get. rewrite E.
  destruct (Z.ltb_spec x' 0).
  { destruct (decide (x' = x /\ y' = y)) as [[-> _]|_]; [lia|reflexivity]. }
  destruct (decide (Z.to_nat x' = Z.to_nat x)) as [Ex|Ex].
  - assert (x' = x) by lia. subst x'.
    rewrite list_lookup_insert_eq by (eapply lookup_lt_Some; exact E). rewrite E.
    destruct (Z.ltb_spec y' 0).
    { destruct (decide (x = x /\ y' = y)) as [[_ ->]|_]; [lia|reflexivity]. }
    destruct (decide (Z.to_nat y' = Z.to_nat y)) as [Ey|Ey].
    + assert (y' = y) by lia. subst y'.
      rewrite list_lookup_insert_eq by lia.
      destruct (decide (x = x /\ y = y)) as [_|Hn]; [reflexivity|]. exfalso. apply Hn. split; reflexivity.
    + rewrite list_lookup_insert_ne by (intros E'; apply Ey; symmetry; exact E').
      destruct (decide (x = x /\ y' = y)) as [[_ ->]|_]; [contradiction|reflexivity].
  - rewrite list_lookup_insert_ne by (intros E'; apply Ex; symmetry; exact E').
    destruct (decide (x' = x /\ y' = y)) as [[-> _]|_]; [contradiction|reflexivity].
Qed.

(** A sequence of writes inside the grid, the cell at [(x, y)] being written
    [g x y] each time it is written. *)
Lemma fold_put_cell (w h : nat) (g : Z -> Z -> cell) (ws : list (Z * Z * cell))
  (pixelMap : PixelMap) :
  dims w h pixelMap ->
  (forall x y v, In (x, y, v) ws -> in_grid w h x y /\ v = g x y) ->
  let pixelMap' := fold_left (fun pm '(x, y, v) => put_cell pm x y v) ws pixelMap in
  dims w h pixelMap' /\
  (forall x y v, In (x, y, v) ws -> cell_at pixelMap' x y = Some (g x y)) /\
  (forall x y, (forall v, ~ In (x, y, v) ws) -> cell_at pixelMap' x y = cell_at pixelMap x y).
Proof.
  intros Hd. induction ws as [|[[x y] v] ws IH] using rev_ind; intros Hws pm'.
  - repeat split; try apply Hd. intros x y v [].
  - subst pm'. rewrite fold_left_app. cbn [fold_left].
    destruct IH as (Hd' & Hin & Hout).
    { intros x0 y0 v0 H0. apply Hws. apply in_or_app. left. exact H0. }
    destruct (Hws x y v) as [Hxy Hv]; [apply in_or_app; right; left; reflexivity|].
    split; [apply put_cell_dims; exact Hd'|]. split.
    + intros x0 y0 v0 H0. rewrite (cell_at_put_cell w h) by assumption.
      destruct (decide (x0 = x /\ y0 = y)) as [[-> ->]|Hne]; [rewrite Hv; reflexivity|].
      apply in_app_or in H0 as [H0|[H0|[]]]; [apply (Hin _ _ _ H0)|].
      injection H0 as -> -> _. exfalso. apply Hne. split; reflexivity.
    + intros x0 y0 Hnot. rewrite (cell_at_put_cell w h) by assumption.
      destruct (decide (x0 = x /\ y0 = y)) as [[-> ->]|Hne].
      * exfalso. apply (Hnot v). apply in_or_app. right. left. reflexivity.
      * apply Hout. intros v0 H0. apply (Hnot v0). apply in_or_app. left. exact H0.
Qed.

(** ** Fill operations *)

Lemma throwIfOutOfRange_Int (v lo hi : Z) :
  throwIfOutOfRange (Int v) (Int lo) (Int hi)
  = if (v <? lo) || (hi <? v) then Throw RangeError else Ok tt.
Proof. unfold throwIfOutOfRange. rewrite !num_lt_Int. reflexivity. Qed.

(** The loops that validate the coordinates leave the canvas as it is. *)
Lemma validation_loop (bound : PixelCanvas -> Z) (values : list Z) (this : PixelCanvas) :
  for_of values
    (fun v => bind get (fun this =>
                lift (throwIfOutOfRange (Int v) (Int 0) (Int (bound this - 1))))) this
  = if forallb (fun v => (0 <=? v) && (v <? bound this)) values
    then (Ok tt, this) else (Throw RangeError, this).
Proof.
  induction values as [|v values IH]; [reflexivity|].
  cbn [for_of forallb]. unfold bind at 1. unfold bind at 1. unfold get at 1, lift at 1.
  rewrite throwIfOutOfRange_Int.
  destruct (Z.ltb_spec v 0), (Z.ltb_spec (bound this - 1) v), (Z.leb_spec 0 v),
    (Z.ltb_spec v (bound this)); try lia; cbn [orb andb]; try reflexivity.
  exact IH.
Qed.

Lemma currentColor_of_spec (color : jsval) (this : PixelCanvas) :
  currentColor_of color this = (resolved_color color this, this).
Proof. destruct color; reflexivity. Qed.

Lemma set_pixelMap_twice (a b : PixelMap) (this : PixelCanvas) :
  set_pixelMap a (set_pixelMap b this) = set_pixelMap a this.
Proof. reflexivity. Qed.

Lemma set_pixelMap_same (this : PixelCanvas) : set_pixelMap (pixelMap this) this = this.
Proof. destruct this; reflexivity. Qed.

Lemma write_cell_in_grid (w h : nat) (x y : Z) (value : cell) (this : PixelCanvas) :
  dims w h (pixelMap this) -> in_grid w h x y ->
  write_cell x y value this
  = (Ok tt, set_pixelMap (put_cell (pixelMap this) x y value) this).
Proof.
  intros Hd Hxy. unfold write_cell, bind, get, lift, put.
  rewrite (write2_in_grid w h) by assumption. reflexivity.
Qed.

Lemma in_product_writes (xValues yValues : list Z) (value : cell) (x y : Z) (v : cell) :
  In (x, y, v) (product_writes xValues yValues value)
  <-> In x xValues /\ In y yValues /\ v = value.
Proof.
  unfold product_writes. rewrite in_flat_map. split.
  - intros (x0 & Hx0 & Hin). apply in_map_iff in Hin as (y0 & E & Hy0).
    injection E as -> -> ->. repeat split; assumption.
  - intros (Hx & Hy & ->). exists x. split; [exact Hx|].
    apply in_map_iff. exists y. split; [reflexivity|exact Hy].
Qed.

Lemma product_loop (w h : nat) (xValues yValues : list Z) (value : cell) (this : PixelCanvas) :
  dims w h (pixelMap this) ->
  Forall (fun x => 0 <= x < Z.of_nat w) xValues ->
  Forall (fun y => 0 <= y < Z.of_nat h) yValues ->
  for_of xValues (fun x => for_of yValues (fun y => write_cell x y value)) this
  = (Ok tt,
     set_pixelMap (fold_left (fun pm '(x, y, v) => put_cell pm x y v)
                             (product_writes xValues yValues value) (pixelMap this))
                  this).
Proof.
  intros Hd Hxs Hys.
  set (put := fun y x (s : PixelCanvas) => set_pixelMap (put_cell (pixelMap s) x y value) s).
  destruct (for_of_state
              (fun x => for_of yValues (fun y => write_cell x y value))
              (fun x s => fold_left (fun s y => put y x s) yValues s)
              (fun s => dims w h (pixelMap s))
              (fun x => 0 <= x < Z.of_nat w) xValues this) as [E _].
  - intros x s Hx Hs.
    apply (for_of_state (fun y => write_cell x y value) (fun y s => put y x s)
             (fun s => dims w h (pixelMap s)) (fun y => 0 <= y < Z.of_nat h)).
    + intros y s' Hy Hs'. split.
      * apply (write_cell_in_grid w h); [exact Hs'|split; assumption].
      * apply put_cell_dims. exact Hs'.
    + exact Hys.
    + exact Hs.
  - exact Hxs.
  - exact Hd.
  - rewrite E. f_equal. unfold product_writes.
    rewrite fold_left_flat_map. clear E Hd Hxs Hys.
    revert this. induction xValues as [|x xValues IHx]; intros this.
    + cbn [fold_left]. symmetry. apply set_pixelMap_same.
    + cbn [fold_left]. rewrite IHx. clear IHx.
      rewrite fold_left_map.
      assert (Einner : forall s : PixelCanvas,
                 fold_left (fun s y => put y x s) yValues s
                 = set_pixelMap (fold_left (fun pm y => put_cell pm x y value)
                                           yValues (pixelMap s)) s).
      { induction yValues as [|y yValues IHy]; intros s.
        - cbn [fold_left]. symmetry. apply set_pixelMap_same.
        - cbn [fold_left]. rewrite IHy. unfold put. reflexivity. }
      rewrite Einner. reflexivity.
Qed.

Lemma wf_dims (this : PixelCanvas) :
  wf this -> dims (Z.to_nat (width this)) (Z.to_nat (height this)) (pixelMap this).
Proof. intros (_ & _ & Hlen & Hcols). split; assumption. Qed.

Lemma forallb_range (bound : Z) (values : list Z) :
  forallb (fun v => (0 <=? v) && (v <? bound)) values = true
  <-> Forall (fun v => 0 <= v < bound) values.
Proof.
  rewrite forallb_forall, Forall_forall. split; intros H v Hv.
  - apply list_elem_of_In in Hv. specialize (H v Hv). lia.
  - apply list_elem_of_In in Hv. specialize (H v Hv). lia.
Qed.



(** ** Scaling *)

Lemma integer_value (q : Q) :
  Qnum q mod QDen q = 0 -> Qnum q = Qfloor q * QDen q.
Proof.
  intros Hmod. unfold Qfloor. destruct q as [a b]. cbn [Qnum Qden] in *.
  pose proof (Z.div_mod a (Z.pos b)) as Hdiv. lia.
Qed.

Lemma scale_checks_valid (scale : jsval) :
  valid_scale scale -> exists n, scale = JNum n /\ scale_checks scale = Ok n.
Proof.
  intros (n & -> & Hint & Hrange). exists n. split; [reflexivity|].
  unfold scale_checks, throwIfNotNumber, throwIfNegative, throwIfOutOfRange, throwIfNotInteger.
  cbn [rbind]. rewrite Hint.
  destruct n as [q| | |]; try discriminate Hint.
  cbn [isInteger] in Hint. apply Z.eqb_eq in Hint.
  pose proof (integer_value q Hint) as Hq. cbn [num_to_Z] in Hrange.
  unfold num_lt, Int, Qltb. cbn [Qnum Qden inject_Z].
  assert (Hb : 0 < QDen q) by reflexivity.
  destruct (Z.ltb_spec (Qnum q * 1) (0 * QDen q)); [nia|]. cbn [rbind].
  destruct (Z.ltb_spec (Qnum q * 1) (1 * QDen q)); [nia|].
  destruct (Z.ltb_spec (100 * QDen q) (Qnum q * 1)); [nia|]. reflexivity.
Qed.

Lemma scale_checks_invalid (scale : jsval) :
  ~ valid_scale scale -> exists e, scale_checks scale = Throw e.
Proof.
  intros Hnot. unfold scale_checks.
  destruct scale as [| |b|s|n]; try (eexists; reflexivity).
  cbn [throwIfNotNumber rbind].
  unfold throwIfNegative. destruct (num_lt n (Int 0)) eqn:Hneg; [eexists; reflexivity|].
  cbn [rbind]. unfold throwIfOutOfRange.
  destruct (num_lt n (Int 1) || num_lt (Int 100) n) eqn:Hout; [eexists; reflexivity|].
  cbn [rbind]. unfold throwIfNotInteger.
  destruct (isInteger n) eqn:Hint; [|eexists; reflexivity].
  exfalso. apply Hnot. exists n. repeat split; try assumption.
  - destruct n as [q| | |]; try discriminate Hint.
    cbn [isInteger] in Hint. apply Z.eqb_eq in Hint.
    pose proof (integer_value q Hint) as Hq. cbn [num_to_Z].
    apply orb_false_elim in Hout as [Hlo _].
    unfold num_lt, Int, Qltb in Hlo. cbn [Qnum Qden inject_Z] in Hlo.
    assert (Hb : 0 < QDen q) by reflexivity.
    destruct (Z.ltb_spec (Qnum q * 1) (1 * QDen q)); [discriminate|]. nia.
  - destruct n as [q| | |]; try discriminate Hint.
    cbn [isInteger] in Hint. apply Z.eqb_eq in Hint.
    pose proof (integer_value q Hint) as Hq. cbn [num_to_Z].
    apply orb_false_elim in Hout as [_ Hhi].
    unfold num_lt, Int, Qltb in Hhi. cbn [Qnum Qden inject_Z] in Hhi.
    assert (Hb : 0 < QDen q) by reflexivity.
    destruct (Z.ltb_spec (100 * QDen q) (Qnum q * 1)); [discriminate|]. nia.
Qed.

Lemma setScale_cases (scale : jsval) (this : PixelCanvas) :
  setScale scale this
  = match scale_checks scale with
    | Throw e => (Throw e, this)
    | Ok n =>
        let f := num_to_Z n in
        match initPixelMap (Int (width this * f)) (Int (height this * f)) with
        | Throw e => (Throw e, this)
        | Ok newPixelMap =>
            match foldM (fun x newPixelMap =>
                           foldM (fun y newPixelMap => scaleOnePixel x y f newPixelMap)
                                 (counters (height this)) newPixelMap)
                        (counters (width this)) newPixelMap this with
            | (Ok newPixelMap, this') =>
                (Ok tt, set_pixelMap newPixelMap
                          (set_height (height this * f) (set_width (width this * f) this')))
            | (Throw e, this') => (Throw e, this')
            end
        end
    end.
Proof.
  unfold setScale, scale_checks, bind, lift, get, put.
  destruct (throwIfNotNumber scale) as [n|e]; cbn [rbind]; [|reflexivity].
  destruct (throwIfNegative n) as [[]|e]; cbn [rbind]; [|reflexivity].
  destruct (throwIfOutOfRange n (Int 1) (Int 100)) as [[]|e]; cbn [rbind]; [|reflexivity].
  destruct (throwIfNotInteger n) as [[]|e]; cbn [rbind]; [|reflexivity].
  cbv zeta.
  destruct (initPixelMap _ _) as [pm0|e]; [|reflexivity].
  destruct (foldM _ _ pm0 this) as [[pm|e] this']; reflexivity.
Qed.

Lemma in_scale_writes (this : PixelCanvas) (f X Y : Z) (v : cell) :
  In (X, Y, v) (scale_writes this f)
  <-> exists x y i j,
        0 <= x < width this /\ 0 <= y < height this /\ 0 <= i < f /\ 0 <= j < f /\
        X = x * f + i /\ Y = y * f + j /\ v = old_cell this x y.
Proof.
  unfold scale_writes. split.
  - intros H. apply in_flat_map in H as (x & Hx & H).
    apply in_flat_map in H as (y & Hy & H).
    apply in_flat_map in H as (i & Hi & H).
    apply in_map_iff in H as (j & E & Hj). injection E as <- <- <-.
    pose proof (Forall_counters (width this)) as Fx.
    pose proof (Forall_counters (height this)) as Fy.
    pose proof (Forall_counters f) as Ff.
    rewrite Forall_forall in Fx, Fy, Ff.
    apply list_elem_of_In in Hx, Hy, Hi, Hj.
    specialize (Fx x Hx). specialize (Fy y Hy).
    pose proof (Ff i Hi) as Fi. pose proof (Ff j Hj) as Fj.
    exists x, y, i, j. repeat split; try reflexivity; lia.
  - intros (x & y & i & j & Hx & Hy & Hi & Hj & -> & -> & ->).
    apply in_flat_map. exists x. split; [apply In_counters; exact Hx|].
    apply in_flat_map. exists y. split; [apply In_counters; exact Hy|].
    apply in_flat_map. exists i. split; [apply In_counters; exact Hi|].
    apply in_map_iff. exists j. split; [reflexivity|apply In_counters; exact Hj].
Qed.

Lemma fold_left_pointwise {A B} (f g : B -> A -> B) (l : list A) (b : B) :
  (forall b a, f b a = g b a) -> fold_left f l b = fold_left g l b.
Proof.
  intros Hfg. revert b. induction l as [|a l IH]; intros b; [reflexivity|].
  cbn [fold_left]. rewrite Hfg. apply IH.
Qed.

Lemma scale_loops (this : PixelCanvas) (f : Z) (newPixelMap : PixelMap) :
  wf this -> 1 <= f ->
  dims (Z.to_nat (width this * f)) (Z.to_nat (height this * f)) newPixelMap ->
  foldM (fun x newPixelMap =>
           foldM (fun y newPixelMap => scaleOnePixel x y f newPixelMap)
                 (counters (height this)) newPixelMap)
        (counters (width this)) newPixelMap this
  = (Ok (fold_left (fun pm '(x, y, v) => put_cell pm x y v)
                   (scale_writes this f) newPixelMap),
     this).
Proof.
  intros Hwf Hf Hd.
  set (W := Z.to_nat (width this * f)). set (H := Z.to_nat (height this * f)).
  fold W H in Hd.
  pose proof Hwf as (Hw & Hh & _ & _).
  set (put := fun x y i j (pm : PixelMap) =>
                put_cell pm (x * f + i) (y * f + j) (old_cell this x y)).
  destruct (foldM_pure
              (fun x pm => foldM (fun y pm => scaleOnePixel x y f pm) (counters (height this)) pm)
              (fun x pm => fold_left (fun pm y =>
                             fold_left (fun pm i =>
                               fold_left (fun pm j => put x y i j pm) (counters f) pm)
                               (counters f) pm)
                             (counters (height this)) pm)
              (dims W H) (fun x => 0 <= x < width this)
              (counters (width this)) newPixelMap this) as [E _].
  - intros x pm Hx Hpm.
    apply (foldM_pure
             (fun y pm => scaleOnePixel x y f pm)
             (fun y pm => fold_left (fun pm i =>
                            fold_left (fun pm j => put x y i j pm) (counters f) pm)
                            (counters f) pm)
             (dims W H) (fun y => 0 <= y < height this)); [|apply Forall_counters|exact Hpm].
    intros y pm1 Hy Hpm1. unfold scaleOnePixel.
    apply (foldM_pure _
             (fun i pm => fold_left (fun pm j => put x y i j pm) (counters f) pm)
             (dims W H) (fun i => 0 <= i < f)); [|apply Forall_counters|exact Hpm1].
    intros i pm2 Hi Hpm2.
    apply (foldM_pure _ (fun j pm => put x y i j pm)
             (dims W H) (fun j => 0 <= j < f)); [|apply Forall_counters|exact Hpm2].
    intros j pm3 Hj Hpm3. unfold bind, get, lift.
    destruct (read2_in_grid (Z.to_nat (width this)) (Z.to_nat (height this))
                (pixelMap this) x y) as (value & Ecell & Eread).
    { apply wf_dims. exact Hwf. }
    { split; lia. }
    rewrite Eread.
    assert (Hgrid : in_grid W H (x * f + i) (y * f + j)).
    { unfold in_grid, W, H. split; nia. }
    rewrite (write2_in_grid W H) by assumption.
    unfold put, old_cell. rewrite Ecell. cbn [default].
    split; [reflexivity|apply put_cell_dims; exact Hpm3].
  - apply Forall_counters.
  - exact Hd.
  - rewrite E. f_equal. f_equal. unfold scale_writes.
    rewrite fold_left_flat_map. apply fold_left_pointwise. intros pm x.
    rewrite fold_left_flat_map. apply fold_left_pointwise. intros pm1 y.
    rewrite fold_left_flat_map. apply fold_left_pointwise. intros pm2 i.
    rewrite fold_left_map. reflexivity.
Qed.

Lemma replicate_dims (w h : nat) : dims w h (replicate w (replicate h Null)).
Proof.
  split; [apply length_replicate|].
  apply Forall_forall. intros column Hin. apply elem_of_replicate in Hin as [-> _].
  apply length_replicate.
Qed.

Lemma dims_ext (w h : nat) (a b : PixelMap) :
  dims w h a -> dims w h b ->
  (forall x y, in_grid w h x y -> cell_at a x y = cell_at b x y) ->
  a = b.
Proof.
  intros Ha Hb Hcells. apply list_eq. intros k.
  destruct (decide (k < w)%nat) as [Hk|Hk].
  - destruct (dims_lookup w h a (Z.of_nat k) Ha) as (ca & Eca & Hla); [lia|].
    destruct (dims_lookup w h b (Z.of_nat k) Hb) as (cb & Ecb & Hlb); [lia|].
    rewrite Nat2Z.id in Eca, Ecb. rewrite Eca, Ecb. f_equal.
    apply list_eq. intros m.
    destruct (decide (m < h)%nat) as [Hm|Hm].
    + specialize (Hcells (Z.of_nat k) (Z.of_nat m)).
      unfold cell_at, js_get in Hcells.
      destruct (Z.ltb_spec (Z.of_nat k) 0); [lia|]. destruct (Z.ltb_spec (Z.of_nat m) 0); [lia|].
      rewrite !Nat2Z.id, Eca, Ecb in Hcells. apply Hcells. split; lia.
    + rewrite !lookup_ge_None_2 by lia. reflexivity.
  - destruct Ha as [Hla _], Hb as [Hlb _]. rewrite !lookup_ge_None_2 by lia. reflexivity.
Qed.

Lemma div_block (x f i : Z) : 0 <= i < f -> (x * f + i) / f = x.
Proof.
  intros Hi. rewrite Z.div_add_l by lia. rewrite Z.div_small by lia. lia.
Qed.

(** C7.  On a canvas of w by h cells, [setScale] with an integer factor f of
    [1, 100] gives a canvas of w f by h f cells in which every cell of the
    block (x f .. x f + f - 1, y f .. y f + f - 1) is the cell (x, y) of the
    canvas before, unset cells included; with the factor 1 the map is the one
    before; and with any other argument [setScale] throws and leaves the
    canvas as it was. *)
Theorem setScale_replicates (this : PixelCanvas) (scale : jsval) :
  wf this ->
  (forall n, scale = JNum n -> isInteger n = true -> 1 <= num_to_Z n <= 100 ->
     let f := num_to_Z n in
     exists this',
       setScale scale this = (Ok tt, this') /\
       width this' = width this * f /\ height this' = height this * f /\
       (forall x y i j,
           0 <= x < width this -> 0 <= y < height this -> 0 <= i < f -> 0 <= j < f ->
           cell_at (pixelMap this') (x * f + i) (y * f + j) = cell_at (pixelMap this) x y) /\
       wf this' /\
       lastUsedColor this' = lastUsedColor this /\
       backgroundColor this' = backgroundColor this /\
       (f = 1 -> pixelMap this' = pixelMap this)) /\
  (~ valid_scale scale -> exists e, setScale scale this = (Throw e, this)).
Proof.
  intros Hwf. split.
  - intros n En Hint Hrange f. rewrite setScale_cases.
    destruct (scale_checks_valid scale) as (n' & En' & Echecks).
    { exists n. repeat split; try assumption; lia. }
    rewrite En in En'. injection En' as <-. rewrite Echecks. cbv zeta. fold f.
    pose proof Hwf as (Hw & Hh & Hlen & Hcols).
    rewrite initPixelMap_Int by nia.
    rewrite (scale_loops this f) by (try exact Hwf; try lia; apply replicate_dims).
    eexists. split; [reflexivity|].
    cbn [width height pixelMap lastUsedColor backgroundColor set_pixelMap set_height set_width].
    destruct (fold_put_cell (Z.to_nat (width this * f)) (Z.to_nat (height this * f))
                (fun X Y => old_cell this (X / f) (Y / f)) (scale_writes this f)
                (replicate (Z.to_nat (width this * f))
                           (replicate (Z.to_nat (height this * f)) Null)))
      as (Hd' & Hin & Hout).
    { apply replicate_dims. }
    { intros X Y v Hv. apply in_scale_writes in Hv
        as (x & y & i & j & Hx & Hy & Hi & Hj & -> & -> & ->).
      rewrite !div_block by assumption. split; [split; nia|reflexivity]. }
    assert (Hcells : forall x y i j,
               0 <= x < width this -> 0 <= y < height this -> 0 <= i < f -> 0 <= j < f ->
               cell_at (fold_left (fun pm '(x, y, v) => put_cell pm x y v)
                                  (scale_writes this f)
                                  (replicate (Z.to_nat (width this * f))
                                             (replicate (Z.to_nat (height this * f)) Null)))
                       (x * f + i) (y * f + j)
               = cell_at (pixelMap this) x y).
    { intros x y i j Hx Hy Hi Hj.
      rewrite (Hin (x * f + i) (y * f + j) (old_cell this x y)).
      - rewrite !div_block by assumption. unfold old_cell.
        destruct (read2_in_grid (Z.to_nat (width this)) (Z.to_nat (height this))
                    (pixelMap this) x y) as (value & Ecell & _).
        + apply wf_dims. exact Hwf.
        + split; lia.
        + rewrite Ecell. reflexivity.
      - apply in_scale_writes. exists x, y, i, j. repeat split; try reflexivity; lia. }
    split; [reflexivity|]. split; [reflexivity|]. split; [exact Hcells|].
    split; [|split; [reflexivity|split; [reflexivity|]]].
    + unfold wf.
      cbn [width height pixelMap set_pixelMap set_height set_width].
      split; [nia|]. split; [nia|]. exact Hd'.
    + intros Hf1. rewrite Hf1 in *. rewrite !Z.mul_1_r in *.
      apply (dims_ext (Z.to_nat (width this)) (Z.to_nat (height this))).
      * exact Hd'.
      * apply wf_dims. exact Hwf.
      * intros x y [Hx Hy]. specialize (Hcells x y 0 0).
        rewrite !Z.mul_1_r, !Z.add_0_r in Hcells. apply Hcells; lia.
  - intros Hnot. rewrite setScale_cases.
    destruct (scale_checks_invalid scale Hnot) as [e Ee]. rewrite Ee.
    exists e. reflexivity.
Qed.

Lemma setScale_replicates_witness :
  let this := {| width := 2; height := 1; pixelMap := [[Color (Int 0x123456)]; [Null]];
                 lastUsedColor := Int 0x123456; backgroundColor := Int 0 |} in
  let scale := JNum (Int 3) in
  (forall n, scale = JNum n -> isInteger n = true -> 1 <= num_to_Z n <= 100 ->
     let f := num_to_Z n in
     exists this',
       setScale scale this = (Ok tt, this') /\
       width this' = width this * f /\ height this' = height this * f /\
       (forall x y i j,
           0 <= x < width this -> 0 <= y < height this -> 0 <= i < f -> 0 <= j < f ->
           cell_at (pixelMap this') (x * f + i) (y * f + j) = cell_at (pixelMap this) x y) /\
       wf this' /\
       lastUsedColor this' = lastUsedColor this /\
       backgroundColor this' = backgroundColor this /\
       (f = 1 -> pixelMap this' = pixelMap this)) /\
  (~ valid_scale scale -> exists e, setScale scale this = (Throw e, this)).
Proof.
  intros this scale. apply (setScale_replicates this scale).
  unfold wf. cbn. repeat split; try lia. repeat constructor.
Defined.

(** ** The invariant holds of every canvas the constructor returns *)

Lemma num_to_Z_nonneg (n : number) : num_lt n (Int 0) = false -> 0 <= num_to_Z n.
Proof.
  destruct n as [q| | |]; cbn [num_to_Z]; try lia.
  unfold num_lt, Int, Qltb. cbn [Qnum Qden inject_Z]. intros Hq.
  destruct (Z.ltb_spec (Qnum q * 1) (0 * QDen q)); [discriminate|].
  unfold Qfloor. destruct q as [a b]. cbn [Qnum Qden] in *. apply Z.div_pos; lia.
Qed.

Lemma num_eq_length (len : nat) (n : number) :
  num_eq (Int (Z.of_nat len)) n = true -> len = Z.to_nat (num_to_Z n).
Proof.
  destruct n as [q| | |]; cbn [num_eq]; try discriminate.
  unfold Int, Qeq_bool. cbn [Qnum Qden inject_Z num_to_Z]. intros Hq.
  apply Z.eqb_eq in Hq. unfold Qfloor. destruct q as [a b]. cbn [Qnum Qden] in *.
  assert (E : a / Z.pos b = Z.of_nat len).
  { cbn [Qnum Qden inject_Z] in Hq.
    symmetry. apply (Z.div_unique a (Z.pos b) (Z.of_nat len) 0); lia. }
  rewrite E. lia.
Qed.

Lemma PixelCanvas_new_wf (options : option PixelCanvasOptions) (this : PixelCanvas) :
  PixelCanvas_new options = Ok this -> wf this.
Proof.
  destruct options as [o|].
  - rewrite PixelCanvas_new_cases.
    destruct (o_width o) as [| |b|s|w]; try discriminate.
    destruct (num_lt w (Int 0)) eqn:Hw; [discriminate|].
    destruct (o_height o) as [| |b|s|h]; try discriminate.
    destruct (num_lt h (Int 0)) eqn:Hh; [discriminate|].
    destruct (match o_pixelMap o with Some _ => _ | None => _ end) as [pm|e] eqn:Emap;
      [|discriminate].
    destruct (validateColor (o_backgroundColor o)) as [c|e]; [|discriminate].
    intros E. injection E as <-.
    unfold wf. cbn [width height pixelMap].
    split; [apply num_to_Z_nonneg; exact Hw|]. split; [apply num_to_Z_nonneg; exact Hh|].
    destruct (o_pixelMap o) as [pm'|].
    + rewrite validateInitialPixelMap_cases in Emap.
      destruct (num_eq _ w) eqn:Elen; cbn [andb] in Emap; [|discriminate].
      destruct (forallb _ pm') eqn:Ecols; cbn [rbind] in Emap; [|discriminate].
      injection Emap as <-. split; [apply num_eq_length; exact Elen|].
      apply Forall_forall. intros column Hin. apply num_eq_length.
      rewrite forallb_forall in Ecols. apply Ecols. apply list_elem_of_In. exact Hin.
    + rewrite initPixelMap_cases in Emap.
      destruct (isInteger w && _); [|discriminate].
      destruct (Nat.eqb_spec (Z.to_nat (num_to_Z w)) 0) as [E0|E0].
      * injection Emap as <-. rewrite E0. split; [reflexivity|constructor].
      * destruct (isInteger h && _); [|discriminate]. injection Emap as <-.
        apply replicate_dims.
  - unfold PixelCanvas_new. rewrite PixelCanvas_fields_eq. cbn [rbind].
    intros E. injection E as <-.
    unfold wf. cbn. repeat split; try lia. repeat constructor.
Qed.

(** ** More cases of the test suites and of the design document *)

Example constructor_tests :
  let options w h bg pm :=
    Some {| o_width := w; o_height := h; o_backgroundColor := bg; o_pixelMap := pm |} in
  let n z := JNum (Int z) in
  let failure (r : result PixelCanvas) := match r with Ok _ => None | Throw e => Some e end in
  map failure
      [ PixelCanvas_new (options (JStr "notANumber") (n 16) (n 0) None);
        PixelCanvas_new (options (n (-1)) (n 16) (n 0) None);
        PixelCanvas_new (options (n 16) (JStr "notANumber") (n 0) None);
        PixelCanvas_new (options (n 16) (n (-1)) (n 0) None);
        PixelCanvas_new (options (n 16) (n 16) (JStr "invalidColor") None);
        PixelCanvas_new (options (n 16) (n 16) (JBool false) None);
        PixelCanvas_new (options (n 16) (n 16) (n (-1)) None);
        PixelCanvas_new (options (n 16) (n 16) (n 0x1000000) None);
        PixelCanvas_new (options (n 16) (n 16) (n 0) (Some (replicate 16 (replicate 8 Null))));
        PixelCanvas_new (options (n 16) (n 16) (n 0) (Some (replicate 8 (replicate 16 Null))));
        PixelCanvas_new (options (n 32) (n 32) (n 0x123456) None);
        PixelCanvas_new (options (n 8) (n 8) (JStr "limegreen") None) ]
  = [ Some TypeError; Some RangeError; Some TypeError; Some RangeError;
      Some ReferenceError; Some TypeError; Some RangeError; Some RangeError;
      Some RangeError; Some RangeError; None; None ].
Proof. vm_compute. reflexivity. Qed.

Example cursor_default :
  option_map (fun this => cell_at (pixelMap this) 1 0)
    (snd (run (canvas_of 32 32 0)
              (bind (setPixel 0 0 (JNum (Int 0x123456)))
                    (fun _ => setPixel 1 0 JUndefined))))
  = Some (Some (Color (Int 0x123456))).
Proof. vm_compute. reflexivity. Qed.

(** The scenario of the design document: a canvas of 2 by 2 cells with a
    black background and the cell (0, 0) set to 0x123456, in Truecolor mode,
    the compressor leaving the stream as it is. *)
Example end_to_end :
  let stream := [x00; x12; x34; x56; x00; x00; x00;
                 x00; x00; x00; x00; x00; x00; x00] in
  match canvas_of 2 2 0 with
  | Ok this =>
      let (_, this) := setPixel 0 0 (JNum (Int 0x123456)) this in
      computeImageBuffer this COLOR_TYPES.TRUE_COLOR = Ok stream /\
      fst (createFromCanvas this None (getPNGCreator id))
      = Ok (signature ++ chunk IHDR (header 2 2 2) ++ chunk IDAT stream ++ chunk IEND [])
  | Throw _ => False
  end.
Proof. vm_compute. split; reflexivity. Qed.

#[warnings="-inexact-float"]
Example Math_round_tests :
  map Math_round [0.5; 1.5; 2.5; -0.5; -1.5; -2.5; 0.49999999999999994; 45.71; 255.4]%float
  = [1; 2; 3; 0; -1; -2; 0; 46; 255].
Proof. vm_compute. reflexivity. Qed.

(** The check value of the CRC-32: the checksum of the nine digits. *)
Example crc32_check_value :
  crc32 (list_byte_of_string "123456789") = 0xCBF43926 /\
  fst (computeCRC32 (list_byte_of_string "123456789") (getPNGCreator id)) = Ok 0xCBF43926.
Proof. vm_compute. split; reflexivity. Qed.

(* ================================================================== *)
(** * Further properties of the code *)

(** ** The fills *)

Lemma forallb_counters (n : Z) :
  forallb (fun v => (0 <=? v) && (v <? n)) (counters n) = true.
Proof. apply forallb_range. apply Forall_counters. Qed.

Lemma range_check (v bound : Z) :
  throwIfOutOfRange (Int v) (Int 0) (Int (bound - 1))
  = if (0 <=? v) && (v <? bound) then Ok tt else Throw RangeError.
Proof.
  rewrite throwIfOutOfRange_Int.
  destruct (Z.ltb_spec v 0), (Z.ltb_spec (bound - 1) v), (Z.leb_spec 0 v),
    (Z.ltb_spec v bound); try lia; reflexivity.
Qed.

(** The fills, check by check, on any canvas. *)
Lemma setPixels_cases (xValues yValues : list Z) (color : jsval) (this : PixelCanvas) :
  setPixels xValues yValues color this
  = if forallb (fun v => (0 <=? v) && (v <? width this)) xValues then
      if forallb (fun v => (0 <=? v) && (v <? height this)) yValues then
        match resolved_color color this with
        | Ok c =>
            match for_of xValues (fun x => for_of yValues (fun y => write_cell x y (Color c)))
                         this with
            | (Ok _, this') => (Ok tt, set_lastUsedColor c this')
            | (Throw e, this') => (Throw e, this')
            end
        | Throw e => (Throw e, this)
        end
      else (Throw RangeError, this)
    else (Throw RangeError, this).
Proof.
  unfold setPixels. unfold bind at 1. rewrite (validation_loop width).
  destruct (forallb _ xValues); [|reflexivity].
  unfold bind at 1. rewrite (validation_loop height).
  destruct (forallb _ yValues); [|reflexivity].
  unfold bind at 1. rewrite currentColor_of_spec.
  destruct (resolved_color color this) as [c|e]; [|reflexivity].
  unfold bind at 1.
  destruct (for_of xValues _ this) as [[[]|e] this']; reflexivity.
Qed.

Lemma setPixel_cases (x y : Z) (color : jsval) (this : PixelCanvas) :
  setPixel x y color this
  = if (0 <=? x) && (x <? width this) then
      if (0 <=? y) && (y <? height this) then
        match resolved_color color this with
        | Ok c =>
            match write_cell x y (Color c) this with
            | (Ok _, this') => (Ok tt, set_lastUsedColor c this')
            | (Throw e, this') => (Throw e, this')
            end
        | Throw e => (Throw e, this)
        end
      else (Throw RangeError, this)
    else (Throw RangeError, this).
Proof.
  unfold setPixel, bind, get, lift. rewrite !range_check.
  destruct ((0 <=? x) && (x <? width this)); [|reflexivity].
  destruct ((0 <=? y) && (y <? height this)); [|reflexivity].
  rewrite currentColor_of_spec.
  destruct (resolved_color color this) as [c|e]; [|reflexivity].
  destruct (write_cell x y (Color c) this) as [[[]|e] this']; reflexivity.
Qed.

Lemma setColumn_cases (x : Z) (color : jsval) (this : PixelCanvas) :
  setColumn x color this
  = if (0 <=? x) && (x <? width this) then
      match resolved_color color this with
      | Ok c =>
          match for_of (counters (height this)) (fun y => write_cell x y (Color c)) this with
          | (Ok _, this') => (Ok tt, set_lastUsedColor c this')
          | (Throw e, this') => (Throw e, this')
          end
      | Throw e => (Throw e, this)
      end
    else (Throw RangeError, this).
Proof.
  unfold setColumn, bind, get, lift. rewrite range_check.
  destruct ((0 <=? x) && (x <? width this)); [|reflexivity].
  rewrite currentColor_of_spec.
  destruct (resolved_color color this) as [c|e]; [|reflexivity].
  destruct (for_of _ _ this) as [[[]|e] this']; reflexivity.
Qed.

Lemma setRow_cases (y : Z) (color : jsval) (this : PixelCanvas) :
  setRow y color this
  = if (0 <=? y) && (y <? height this) then
      match resolved_color color this with
      | Ok c =>
          match for_of (counters (width this)) (fun x => write_cell x y (Color c)) this with
          | (Ok _, this') => (Ok tt, set_lastUsedColor c this')
          | (Throw e, this') => (Throw e, this')
          end
      | Throw e => (Throw e, this)
      end
    else (Throw RangeError, this).
Proof.
  unfold setRow, bind, get, lift. rewrite range_check.
  destruct ((0 <=? y) && (y <? height this)); [|reflexivity].
  rewrite currentColor_of_spec.
  destruct (resolved_color color this) as [c|e]; [|reflexivity].
  destruct (for_of _ _ this) as [[[]|e] this']; reflexivity.
Qed.

Lemma for_of_singleton {S A} (a : A) (body : A -> M S unit) (s : S) :
  for_of [a] body s = body a s.
Proof.
  cbn [for_of]. unfold bind, ret. destruct (body a s) as [[[]|e] s']; reflexivity.
Qed.

Lemma for_of_ext {S A} (f g : A -> M S unit) (l : list A) (s : S) :
  (forall a s, f a s = g a s) -> for_of l f s = for_of l g s.
Proof.
  intros Hfg. revert s. induction l as [|a l IH]; intros s; [reflexivity|].
  cbn [for_of]. unfold bind. rewrite Hfg. destruct (g a s) as [[[]|e] s']; [apply IH|reflexivity].
Qed.

Lemma setPixel_eq (x y : Z) (color : jsval) (this : PixelCanvas) :
  setPixel x y color this = setPixels [x] [y] color this.
Proof.
  rewrite setPixel_cases, setPixels_cases. cbn [forallb]. rewrite !andb_true_r.
  destruct (resolved_color color this) as [c|e]; [|reflexivity].
  rewrite !for_of_singleton. reflexivity.
Qed.

Lemma setColumn_eq (x : Z) (color : jsval) (this : PixelCanvas) :
  setColumn x color this = setPixels [x] (counters (height this)) color this.
Proof.
  rewrite setColumn_cases, setPixels_cases, forallb_counters.
  cbn [forallb]. rewrite !andb_true_r.
  destruct (resolved_color color this) as [c|e]; [|reflexivity].
  rewrite for_of_singleton. reflexivity.
Qed.

Lemma setRow_eq (y : Z) (color : jsval) (this : PixelCanvas) :
  setRow y color this = setPixels (counters (width this)) [y] color this.
Proof.
  rewrite setRow_cases, setPixels_cases, forallb_counters.
  cbn [forallb]. rewrite !andb_true_r.
  destruct (resolved_color color this) as [c|e]; [|reflexivity].
  rewrite (for_of_ext (fun x => for_of [y] (fun y0 => write_cell x y0 (Color c)))
                      (fun x => write_cell x y (Color c)));
    [reflexivity|]. intros x s.
  apply (for_of_singleton y (fun y0 => write_cell x y0 (Color c))).
Qed.

(** X1.  [setPixel], [setColumn] and [setRow] are [setPixels] on one
    coordinate, on one column and all the rows, and on all the columns and
    one row: the same result or exception and the same canvas afterwards, on
    every canvas and for every colour argument. *)
Theorem fills_are_setPixels (this : PixelCanvas) (color : jsval) :
  (forall x y, setPixel x y color this = setPixels [x] [y] color this) /\
  (forall x, setColumn x color this = setPixels [x] (counters (height this)) color this) /\
  (forall y, setRow y color this = setPixels (counters (width this)) [y] color this).
Proof.
  repeat apply conj.
  - intros x y. apply setPixel_eq.
  - intros x. apply setColumn_eq.
  - intros y. apply setRow_eq.
Qed.

(** What a fill that passes its checks does to a canvas. *)
Lemma setPixels_writes (this : PixelCanvas) (xValues yValues : list Z) (color : jsval)
  (c : number) :
  wf this ->
  Forall (fun x => 0 <= x < width this) xValues ->
  Forall (fun y => 0 <= y < height this) yValues ->
  resolved_color color this = Ok c ->
  exists this',
    setPixels xValues yValues color this = (Ok tt, this') /\
    (forall x y, In x xValues -> In y yValues ->
                 cell_at (pixelMap this') x y = Some (Color c)) /\
    (forall x y, ~ (In x xValues /\ In y yValues) ->
                 cell_at (pixelMap this') x y = cell_at (pixelMap this) x y) /\
    width this' = width this /\ height this' = height this /\
    backgroundColor this' = backgroundColor this /\
    lastUsedColor this' = c /\ wf this'.
Proof.
  intros Hwf Hxs Hys Hc. rewrite setPixels_cases.
  rewrite (proj2 (forallb_range _ _) Hxs), (proj2 (forallb_range _ _) Hys), Hc.
  rewrite (product_loop (Z.to_nat (width this)) (Z.to_nat (height this)));
    [|apply wf_dims; exact Hwf
     |eapply Forall_impl; [exact Hxs|cbn beta; intros; lia]
     |eapply Forall_impl; [exact Hys|cbn beta; intros; lia]].
  eexists. split; [reflexivity|].
  cbn [pixelMap set_lastUsedColor set_pixelMap width height backgroundColor lastUsedColor].
  destruct Hwf as (Hw & Hh & Hlen & Hcols).
  destruct (fold_put_cell (Z.to_nat (width this)) (Z.to_nat (height this))
              (fun _ _ => Color c) (product_writes xValues yValues (Color c))
              (pixelMap this)) as (Hd' & Hin & Hout).
  - split; assumption.
  - intros x y v Hv. apply in_product_writes in Hv as (Hx & Hy & ->).
    rewrite Forall_forall in Hxs, Hys.
    apply list_elem_of_In in Hx, Hy. specialize (Hxs x Hx). specialize (Hys y Hy).
    split; [split; lia|reflexivity].
  - repeat split; try assumption; try apply Hd'.
    + intros x y Hx Hy. apply (Hin x y (Color c)). apply in_product_writes. auto.
    + intros x y Hnot. apply Hout. intros v Hv.
      apply in_product_writes in Hv as (Hx & Hy & _). apply Hnot. split; assumption.
Qed.

Lemma in_range_true (v bound : Z) : 0 <= v < bound -> (0 <=? v) && (v <? bound) = true.
Proof. intros H. destruct (Z.leb_spec 0 v), (Z.ltb_spec v bound); try lia; reflexivity. Qed.

Lemma in_range_false (v bound : Z) : ~ 0 <= v < bound -> (0 <=? v) && (v <? bound) = false.
Proof. intros H. destruct (Z.leb_spec 0 v), (Z.ltb_spec v bound); try lia; reflexivity. Qed.

Lemma In_counters_iff (n i : Z) : In i (counters n) <-> 0 <= i < n.
Proof.
  split; [|apply In_counters]. intros Hi.
  pose proof (Forall_counters n) as F. rewrite Forall_forall in F.
  apply F. apply list_elem_of_In. exact Hi.
Qed.





(** X4.  On such a canvas, [setRow] with y in [0, height) and a colour that
    resolves writes the resolved colour to every cell of row y and to no cell
    of another row, keeps the sizes and the background colour and makes the
    colour the last one used.  With y out of range it throws a range error,
    and with a colour that does not resolve the error of the colour, the
    canvas being left as it was. *)
Theorem setRow_fills_row (this : PixelCanvas) (y : Z) (color : jsval) :
  wf this ->
  (0 <= y < height this ->
   forall c, resolved_color color this = Ok c ->
   exists this',
     setRow y color this = (Ok tt, this') /\
     (forall x, 0 <= x < width this -> cell_at (pixelMap this') x y = Some (Color c)) /\
     (forall x' y', y' <> y ->
                    cell_at (pixelMap this') x' y' = cell_at (pixelMap this) x' y') /\
     width this' = width this /\ height this' = height this /\
     backgroundColor this' = backgroundColor this /\
     lastUsedColor this' = c /\ wf this') /\
  (~ 0 <= y < height this -> setRow y color this = (Throw RangeError, this)) /\
  (0 <= y < height this ->
   forall e, resolved_color color this = Throw e -> setRow y color this = (Throw e, this)).
Proof.
  intros Hwf. repeat apply conj.
  - intros Hy c Hc. rewrite setRow_eq.
    destruct (setPixels_writes this (counters (width this)) [y] color c Hwf)
      as (this' & E & Hin & Hout & Hrest);
      [apply Forall_counters|repeat constructor; lia|exact Hc|].
    exists this'. split; [exact E|]. split; [|split; [|exact Hrest]].
    + intros x Hx. apply Hin; [apply In_counters; exact Hx|left; reflexivity].
    + intros x' y' Hne. apply Hout. intros [_ [<-|[]]]. apply Hne. reflexivity.
  - intros Hnot. rewrite setRow_cases, in_range_false by exact Hnot. reflexivity.
  - intros Hy e He. rewrite setRow_cases, in_range_true, He by assumption. reflexivity.
Qed.

Lemma setRow_fills_row_witness :
  let this := {| width := 2; height := 2; pixelMap := [[Null; Null]; [Null; Null]];
                 lastUsedColor := Int 0; backgroundColor := Int 0 |} in
  exists this',
    setRow 1 (JStr "blue") this = (Ok tt, this') /\
    (forall x, 0 <= x < width this ->
               cell_at (pixelMap this') x 1 = Some (Color (Int 0x0000ff))) /\
    (forall x' y', y' <> 1 ->
                   cell_at (pixelMap this') x' y' = cell_at (pixelMap this) x' y') /\
    width this' = width this /\ height this' = height this /\
    backgroundColor this' = backgroundColor this /\
    lastUsedColor this' = Int 0x0000ff /\ wf this'.
Proof.
  intros this.
  refine (proj1 (setRow_fills_row this 1 (JStr "blue") _) _ (Int 0x0000ff) _).
  - unfold wf. cbn. repeat split; try lia. repeat constructor.
  - cbn. lia.
  - vm_compute. reflexivity.
Defined.

(** ** The colours a canvas holds *)

Lemma AVAILABLE_COLOR_TYPES_eq : AVAILABLE_COLOR_TYPES = [0; 2; 4; 6].
Proof. reflexivity. Qed.

Lemma In_AVAILABLE (t : Z) :
  In t AVAILABLE_COLOR_TYPES <-> t = 0 \/ t = 2 \/ t = 4 \/ t = 6.
Proof. rewrite AVAILABLE_COLOR_TYPES_eq. cbn [In]. intuition congruence. Qed.

Lemma property_In {V} (object : list (string * V)) (key : string) (v : V) :
  property object key = Some v -> In (key, v) object.
Proof.
  induction object as [|[k v'] rest IH]; cbn [property]; [discriminate|].
  destruct (String.eqb_spec k key) as [->|Hne].
  - intros E. injection E as ->. left. reflexivity.
  - intros E. right. apply IH. exact E.
Qed.

Lemma hasOwn_property {V} (object : list (string * V)) (key : string) :
  hasOwn object key = true -> exists v, property object key = Some v.
Proof.
  unfold hasOwn. induction object as [|[k v'] rest IH]; cbn [existsb property fst]; [discriminate|].
  destruct (String.eqb k key); [intros _; eexists; reflexivity|exact IH].
Qed.

Lemma COLORS_in_range :
  forallb (fun kv : string * Z => (0 <=? snd kv) && (snd kv <=? 0xFFFFFF)) COLORS = true.
Proof. vm_compute. reflexivity. Qed.

Lemma COLORS_value (name : string) (z : Z) : In (name, z) COLORS -> 0 <= z <= 0xFFFFFF.
Proof.
  intros Hin. pose proof COLORS_in_range as H. rewrite forallb_forall in H.
  specialize (H _ Hin). cbn [snd] in H. lia.
Qed.

Lemma throwIfInvalidColorValue_cases (v : number) :
  throwIfInvalidColorValue v
  = if num_lt v (Int 0) || num_lt (Int 0xFFFFFF) v then Throw RangeError else Ok tt.
Proof.
  unfold throwIfInvalidColorValue, throwIfNegative, throwIfOutOfRange.
  unfold VALID_COLOR_VALUE_RANGE.min, VALID_COLOR_VALUE_RANGE.max.
  destruct (num_lt v (Int 0)); [reflexivity|]. cbn [rbind orb].
  destruct (num_lt (Int 0xFFFFFF) v); reflexivity.
Qed.

Lemma validateColor_valid (color : jsval) (v : number) :
  validateColor color = Ok v -> throwIfInvalidColorValue v = Ok tt.
Proof.
  rewrite validateColor_error_cases. destruct color as [| |b|name|n]; try discriminate.
  - destruct (hasOwn COLORS name) eqn:Hown; [|discriminate]. intros E. injection E as <-.
    destruct (hasOwn_property _ _ Hown) as [z Ez]. unfold COLORS_at. rewrite Ez.
    apply throwIfInvalidColorValue_Int. apply (COLORS_value name). apply property_In. exact Ez.
  - rewrite throwIfInvalidColorValue_cases.
    destruct (num_lt n (Int 0) || num_lt (Int 0xFFFFFF) n) eqn:E; [discriminate|].
    intros E'. injection E' as <-. rewrite E. reflexivity.
Qed.

(** X9.  A colour that [#validateColor] accepts is a value that the check of
    the pixel encoder accepts as well.  For a name it is the entry of the
    colour table, an integer of [0, 0xFFFFFF]; for a number it is the number
    itself. *)
Theorem validateColor_accepted_by_encoder (color : jsval) (v : number) :
  validateColor color = Ok v ->
  throwIfInvalidColorValue v = Ok tt /\
  (forall name, color = JStr name ->
     exists z, v = Int z /\ In (name, z) COLORS /\ 0 <= z <= 0xFFFFFF) /\
  (forall n, color = JNum n -> v = n).
Proof.
  intros Hv. split; [apply (validateColor_valid color); exact Hv|]. split.
  - intros name ->. rewrite validateColor_error_cases in Hv.
    destruct (hasOwn COLORS name) eqn:Hown; [|discriminate]. injection Hv as <-.
    destruct (hasOwn_property _ _ Hown) as [z Ez]. unfold COLORS_at. rewrite Ez.
    apply property_In in Ez. exists z. split; [reflexivity|]. split; [exact Ez|].
    apply (COLORS_value name). exact Ez.
  - intros n ->. rewrite validateColor_error_cases in Hv.
    destruct (_ || _); [discriminate|]. injection Hv as <-. reflexivity.
Qed.

Lemma validateColor_accepted_by_encoder_witness :
  throwIfInvalidColorValue (Int 0x32cd32) = Ok tt /\
  (forall name, JStr "limegreen" = JStr name ->
     exists z, Int 0x32cd32 = Int z /\ In (name, z) COLORS /\ 0 <= z <= 0xFFFFFF) /\
  (forall n, JStr "limegreen" = JNum n -> Int 0x32cd32 = n).
Proof.
  apply (validateColor_accepted_by_encoder (JStr "limegreen") (Int 0x32cd32)).
  vm_compute. reflexivity.
Defined.

(** ** The colours of a canvas *)

Lemma resolved_color_valid (color : jsval) (this : PixelCanvas) (c : number) :
  valid_colors this -> resolved_color color this = Ok c -> throwIfInvalidColorValue c = Ok tt.
Proof.
  intros (_ & Hlast & _). destruct color as [| |b|name|n]; cbn [resolved_color];
    try (apply validateColor_valid).
  intros E. injection E as <-. exact Hlast.
Qed.

Lemma put_cell_Forall (P : cell -> Prop) (pixelMap : PixelMap) (x y : Z) (value : cell) :
  P value -> Forall (Forall P) pixelMap -> Forall (Forall P) (put_cell pixelMap x y value).
Proof.
  intros Hv Hall. unfold put_cell.
  destruct (pixelMap !! Z.to_nat x) as [column|] eqn:E; [|exact Hall].
  apply Forall_insert; [exact Hall|]. apply Forall_insert; [|exact Hv].
  rewrite Forall_forall in Hall. apply Hall. eapply list_elem_of_lookup_2. exact E.
Qed.

Lemma fold_put_cell_Forall (P : cell -> Prop) (ws : list (Z * Z * cell)) (pixelMap : PixelMap) :
  (forall x y v, In (x, y, v) ws -> P v) ->
  Forall (Forall P) pixelMap ->
  Forall (Forall P) (fold_left (fun pm '(x, y, v) => put_cell pm x y v) ws pixelMap).
Proof.
  revert pixelMap. induction ws as [|[[x y] v] ws IH]; intros pixelMap Hws Hall; [exact Hall|].
  cbn [fold_left]. apply IH.
  - intros x0 y0 v0 H0. apply (Hws x0 y0). right. exact H0.
  - apply put_cell_Forall; [|exact Hall]. apply (Hws x y). left. reflexivity.
Qed.

Lemma cell_at_Forall (P : cell -> Prop) (pixelMap : PixelMap) (x y : Z) (v : cell) :
  Forall (Forall P) pixelMap -> cell_at pixelMap x y = Some v -> P v.
Proof.
  intros Hall. unfold cell_at, js_get.
  destruct (x <? 0); [discriminate|].
  destruct (pixelMap !! Z.to_nat x) as [column|] eqn:E; [|discriminate].
  destruct (y <? 0); [discriminate|]. intros Ev.
  rewrite Forall_forall in Hall. specialize (Hall column (list_elem_of_lookup_2 _ _ _ E)).
  rewrite Forall_forall in Hall. apply Hall. eapply list_elem_of_lookup_2. exact Ev.
Qed.

Lemma replicate_valid (w h : nat) : Forall (Forall valid_cell) (replicate w (replicate h Null)).
Proof.
  apply Forall_forall. intros column Hc. apply elem_of_replicate in Hc as [-> _].
  apply Forall_forall. intros c Hc. apply elem_of_replicate in Hc as [-> _]. exact I.
Qed.

Lemma setPixels_keeps (this : PixelCanvas) (xValues yValues : list Z) (color : jsval) :
  wf this -> valid_colors this ->
  wf (snd (setPixels xValues yValues color this)) /\
  valid_colors (snd (setPixels xValues yValues color this)).
Proof.
  intros Hwf Hvalid. rewrite setPixels_cases.
  destruct (forallb _ xValues) eqn:Exs; [|split; assumption].
  destruct (forallb _ yValues) eqn:Eys; [|split; assumption].
  destruct (resolved_color color this) as [c|e] eqn:Ec; [|split; assumption].
  apply forallb_range in Exs, Eys.
  rewrite (product_loop (Z.to_nat (width this)) (Z.to_nat (height this)));
    [|apply wf_dims; exact Hwf
     |eapply Forall_impl; [exact Exs|cbn beta; intros; lia]
     |eapply Forall_impl; [exact Eys|cbn beta; intros; lia]].
  cbn [snd]. pose proof Hwf as (Hw & Hh & Hlen & Hcols).
  pose proof Hvalid as (Hbg & Hlast & Hcells).
  split.
  - destruct (fold_put_cell (Z.to_nat (width this)) (Z.to_nat (height this))
                (fun _ _ => Color c) (product_writes xValues yValues (Color c))
                (pixelMap this)) as (Hd' & _ & _).
    + split; assumption.
    + intros x y v Hv. apply in_product_writes in Hv as (Hx & Hy & ->).
      rewrite Forall_forall in Exs, Eys.
      apply list_elem_of_In in Hx, Hy. specialize (Exs x Hx). specialize (Eys y Hy).
      split; [split; lia|reflexivity].
    + unfold wf. cbn [width height pixelMap set_lastUsedColor set_pixelMap].
      split; [exact Hw|]. split; [exact Hh|]. exact Hd'.
  - unfold valid_colors.
    cbn [backgroundColor lastUsedColor pixelMap set_lastUsedColor set_pixelMap].
    split; [exact Hbg|]. split; [apply (resolved_color_valid color this); assumption|].
    apply fold_put_cell_Forall; [|exact Hcells].
    intros x y v Hv. apply in_product_writes in Hv as (_ & _ & ->).
    cbn [valid_cell]. apply (resolved_color_valid color this); assumption.
Qed.

Lemma scale_checks_Ok (scale : jsval) (n : number) :
  scale_checks scale = Ok n -> valid_scale scale /\ scale = JNum n.
Proof.
  intros E. destruct scale as [| |b|s|m]; try discriminate E.
  assert (m = n) as ->.
  { unfold scale_checks in E. cbn [throwIfNotNumber rbind] in E.
    destruct (throwIfNegative m) as [[]|e]; cbn [rbind] in E; [|discriminate].
    destruct (throwIfOutOfRange m (Int 1) (Int 100)) as [[]|e]; cbn [rbind] in E; [|discriminate].
    destruct (throwIfNotInteger m) as [[]|e]; cbn [rbind] in E; [|discriminate].
    congruence. }
  split; [|reflexivity].
  unfold scale_checks in E. cbn [throwIfNotNumber rbind] in E.
  unfold throwIfNegative in E. destruct (num_lt n (Int 0)) eqn:Hneg; [discriminate|].
  cbn [rbind] in E. unfold throwIfOutOfRange in E.
  destruct (num_lt n (Int 1) || num_lt (Int 100) n) eqn:Hout; [discriminate|].
  cbn [rbind] in E. unfold throwIfNotInteger in E.
  destruct (isInteger n) eqn:Hint; [|discriminate].
  exists n. split; [reflexivity|]. split; [exact Hint|].
  destruct n as [q| | |]; try discriminate Hint.
  cbn [isInteger] in Hint. apply Z.eqb_eq in Hint.
  pose proof (integer_value q Hint) as Hq. cbn [num_to_Z].
  apply orb_false_elim in Hout as [Hlo Hhi].
  unfold num_lt, Int, Qltb in Hlo, Hhi. cbn [Qnum Qden inject_Z] in Hlo, Hhi.
  assert (Hb : 0 < QDen q) by reflexivity.
  destruct (Z.ltb_spec (Qnum q * 1) (1 * QDen q)); [discriminate|].
  destruct (Z.ltb_spec (100 * QDen q) (Qnum q * 1)); [discriminate|]. nia.
Qed.

(** [setScale] with a factor that passes its checks. *)
Lemma setScale_run (this : PixelCanvas) (scale : jsval) (n : number) :
  wf this -> scale_checks scale = Ok n ->
  let f := num_to_Z n in
  1 <= f <= 100 /\
  setScale scale this
  = (Ok tt,
     set_pixelMap
       (fold_left (fun pm '(x, y, v) => put_cell pm x y v) (scale_writes this f)
                  (replicate (Z.to_nat (width this * f))
                             (replicate (Z.to_nat (height this * f)) Null)))
       (set_height (height this * f) (set_width (width this * f) this))).
Proof.
  intros Hwf Hn f. destruct (scale_checks_Ok scale n Hn) as [(m & Em & Hint & Hrange) ->].
  injection Em as <-. fold f in Hrange. split; [exact Hrange|].
  rewrite setScale_cases, Hn. cbv zeta. fold f.
  pose proof Hwf as (Hw & Hh & _ & _).
  rewrite initPixelMap_Int by nia.
  rewrite (scale_loops this f) by (try exact Hwf; try lia; apply replicate_dims).
  reflexivity.
Qed.

Lemma scale_writes_grid (this : PixelCanvas) (f : Z) :
  wf this -> 1 <= f ->
  forall X Y v, In (X, Y, v) (scale_writes this f) ->
    in_grid (Z.to_nat (width this * f)) (Z.to_nat (height this * f)) X Y /\
    v = old_cell this (X / f) (Y / f) /\
    cell_at (pixelMap this) (X / f) (Y / f) = Some v.
Proof.
  intros Hwf Hf X Y v Hv.
  apply in_scale_writes in Hv as (x & y & i & j & Hx & Hy & Hi & Hj & -> & -> & ->).
  rewrite !div_block by assumption. split; [split; nia|]. split; [reflexivity|].
  destruct (read2_in_grid (Z.to_nat (width this)) (Z.to_nat (height this))
              (pixelMap this) x y) as (value & Ecell & _).
  - apply wf_dims. exact Hwf.
  - split; lia.
  - unfold old_cell. rewrite Ecell. reflexivity.
Qed.

Lemma setScale_keeps (this : PixelCanvas) (scale : jsval) :
  wf this -> valid_colors this ->
  wf (snd (setScale scale this)) /\ valid_colors (snd (setScale scale this)).
Proof.
  intros Hwf Hvalid.
  destruct (scale_checks scale) as [n|e] eqn:Echecks.
  - destruct (setScale_run this scale n Hwf Echecks) as [Hf E]. rewrite E. cbn [snd].
    set (f := num_to_Z n) in *.
    pose proof Hwf as (Hw & Hh & _ & _). pose proof Hvalid as (Hbg & Hlast & Hcells).
    split.
    + destruct (fold_put_cell (Z.to_nat (width this * f)) (Z.to_nat (height this * f))
                  (fun X Y => old_cell this (X / f) (Y / f)) (scale_writes this f)
                  (replicate (Z.to_nat (width this * f))
                             (replicate (Z.to_nat (height this * f)) Null)))
        as (Hd' & _ & _).
      * apply replicate_dims.
      * intros X Y v Hv. destruct (scale_writes_grid this f Hwf (proj1 Hf) X Y v Hv) as (H1 & H2 & _).
        split; assumption.
      * unfold wf. cbn [width height pixelMap set_pixelMap set_height set_width].
        split; [nia|]. split; [nia|]. exact Hd'.
    + unfold valid_colors.
      cbn [backgroundColor lastUsedColor pixelMap set_pixelMap set_height set_width].
      split; [exact Hbg|]. split; [exact Hlast|].
      apply fold_put_cell_Forall; [|apply replicate_valid].
      intros X Y v Hv. destruct (scale_writes_grid this f Hwf (proj1 Hf) X Y v Hv) as (_ & _ & H3).
      apply (cell_at_Forall valid_cell _ _ _ _ Hcells H3).
  - rewrite setScale_cases, Echecks. split; assumption.
Qed.

(** X8.  [setPixel], [setPixels], [setColumn], [setRow] and [setScale], called
    with any arguments on a canvas that has width columns of height cells and
    whose colours are all accepted by the pixel encoder, leave a canvas with
    both properties, whether the call returns or throws. *)
Theorem methods_keep_invariant (this : PixelCanvas) :
  wf this -> valid_colors this ->
  let kept (method : M PixelCanvas unit) :=
    wf (snd (method this)) /\ valid_colors (snd (method this)) in
  (forall x y color, kept (setPixel x y color)) /\
  (forall xValues yValues color, kept (setPixels xValues yValues color)) /\
  (forall x color, kept (setColumn x color)) /\
  (forall y color, kept (setRow y color)) /\
  (forall scale, kept (setScale scale)).
Proof.
  intros Hwf Hvalid kept. unfold kept. repeat apply conj.
  - intros x y color. rewrite setPixel_eq. apply setPixels_keeps; assumption.
  - intros xValues yValues color. apply setPixels_keeps; assumption.
  - intros x color. rewrite setColumn_eq. apply setPixels_keeps; assumption.
  - intros y color. rewrite setRow_eq. apply setPixels_keeps; assumption.
  - intros scale. apply setScale_keeps; assumption.
Qed.

Lemma methods_keep_invariant_witness :
  let this := {| width := 2; height := 1; pixelMap := [[Color (Int 0x123456)]; [Null]];
                 lastUsedColor := Int 0x123456; backgroundColor := Int 0 |} in
  let kept (method : M PixelCanvas unit) :=
    wf (snd (method this)) /\ valid_colors (snd (method this)) in
  (forall x y color, kept (setPixel x y color)) /\
  (forall xValues yValues color, kept (setPixels xValues yValues color)) /\
  (forall x color, kept (setColumn x color)) /\
  (forall y color, kept (setRow y color)) /\
  (forall scale, kept (setScale scale)).
Proof.
  intros this. apply (methods_keep_invariant this).
  - unfold wf. cbn. repeat split; try lia. repeat constructor.
  - unfold valid_colors. cbn. repeat split. repeat constructor.
Defined.

(** X7.  Every canvas the constructor returns has width columns of height
    cells; its background colour is accepted by the pixel encoder and its last
    used colour is 0.  A supplied map is taken as it is, its cells unchecked;
    without one every cell is unset.  So the colours of the canvas are all
    valid, provided those of a supplied map are. *)
Theorem PixelCanvas_new_invariant (options : option PixelCanvasOptions) (this : PixelCanvas) :
  PixelCanvas_new options = Ok this ->
  wf this /\
  throwIfInvalidColorValue (backgroundColor this) = Ok tt /\
  lastUsedColor this = Int 0 /\
  match options with
  | Some {| o_pixelMap := Some pixelMap |} => getPixelMap this = pixelMap
  | _ => Forall (Forall (fun value => value = Null)) (getPixelMap this)
  end /\
  ((forall o pixelMap, options = Some o -> o_pixelMap o = Some pixelMap ->
                       Forall (Forall valid_cell) pixelMap) ->
   valid_colors this).
Proof.
  intros Hnew. split; [apply (PixelCanvas_new_wf options); exact Hnew|].
  assert (Hnull : forall w h, Forall (Forall (fun value => value = Null))
                                     (replicate w (replicate h Null))).
  { intros w h. apply Forall_forall. intros column Hc. apply elem_of_replicate in Hc as [-> _].
    apply Forall_forall. intros c Hc. apply elem_of_replicate in Hc as [-> _]. reflexivity. }
  destruct options as [o|].
  - rewrite PixelCanvas_new_cases in Hnew.
    destruct (o_width o) as [| |b|s|w]; try discriminate.
    destruct (num_lt w (Int 0)) eqn:Hw; [discriminate|].
    destruct (o_height o) as [| |b|s|h] eqn:Eh; try discriminate.
    destruct (num_lt h (Int 0)) eqn:Hh; [discriminate|].
    destruct (match o_pixelMap o with Some _ => _ | None => _ end) as [pm|e] eqn:Emap;
      [|discriminate].
    destruct (validateColor (o_backgroundColor o)) as [c|e] eqn:Ec; [|discriminate].
    injection Hnew as <-.
    cbn [backgroundColor lastUsedColor getPixelMap PixelCanvas_IPixelCanvas pixelMap].
    apply validateColor_valid in Ec.
    split; [exact Ec|]. split; [reflexivity|].
    destruct o as [ow oh obg [pm'|]]; cbn [o_pixelMap] in *.
    + destruct (validateInitialPixelMap pm' w h); cbn [rbind] in Emap; [|discriminate].
      injection Emap as <-. split; [reflexivity|].
      intros Hpm. unfold valid_colors. cbn [backgroundColor lastUsedColor pixelMap].
      split; [exact Ec|]. split; [reflexivity|]. eapply Hpm; reflexivity.
    + rewrite initPixelMap_cases in Emap.
      destruct (isInteger w && _); [|discriminate].
      assert (Hpm : Forall (Forall (fun value => value = Null)) pm).
      { destruct (Nat.eqb_spec (Z.to_nat (num_to_Z w)) 0) as [E0|E0].
        - injection Emap as <-. constructor.
        - destruct (isInteger h && _); [|discriminate]. injection Emap as <-. apply Hnull. }
      split; [exact Hpm|].
      intros _. unfold valid_colors. cbn [backgroundColor lastUsedColor pixelMap].
      split; [exact Ec|]. split; [reflexivity|].
      eapply Forall_impl; [exact Hpm|]. cbn beta. intros column Hcol.
      eapply Forall_impl; [exact Hcol|]. cbn beta. intros value ->. exact I.
  - unfold PixelCanvas_new in Hnew. rewrite PixelCanvas_fields_eq in Hnew. cbn [rbind] in Hnew.
    injection Hnew as <-.
    cbn [backgroundColor lastUsedColor getPixelMap PixelCanvas_IPixelCanvas pixelMap].
    split; [reflexivity|]. split; [reflexivity|]. split; [apply (Hnull 16%nat 16%nat)|].
    intros _. unfold valid_colors. cbn [backgroundColor lastUsedColor pixelMap].
    split; [reflexivity|]. split; [reflexivity|]. apply (replicate_valid 16 16).
Qed.

(** ** The pixel encoder *)

(** The bytes of a pixel, for a colour value the encoder accepts. *)
Lemma createPixelBuffer_valid (v : number) (t : Z) :
  throwIfInvalidColorValue v = Ok tt ->
  let grey := byte_of_Z (convertTrueColorToGrayscale v) in
  let rgb := [byte_of_Z (sample v 16); byte_of_Z (sample v 8); byte_of_Z (sample v 0)] in
  let alpha := if num_eq v (Int 0) then x00 else xff in
  createPixelBuffer v t
  = if t =? 0 then Ok [grey]
    else if t =? 4 then Ok [grey; alpha]
    else if t =? 2 then Ok rgb
    else if t =? 6 then Ok (rgb ++ [alpha])
    else Throw TypeError.
Proof.
  intros Hv grey rgb alpha.
  unfold createPixelBuffer, createGrayscalePixelBuffer, createTrueColorPixelBuffer,
    createAlphaPixelBuffer. rewrite Hv. cbn [rbind].
  change COLOR_TYPES.GRAYSCALE with 0. change COLOR_TYPES.GRAYSCALE_ALPHA with 4.
  change COLOR_TYPES.TRUE_COLOR with 2. change COLOR_TYPES.TRUE_COLOR_ALPHA with 6.
  destruct (t =? 0); [reflexivity|].
  destruct (t =? 4); [subst alpha; destruct (num_eq v (Int 0)); reflexivity|].
  destruct (t =? 2); [reflexivity|].
  destruct (t =? 6); [subst alpha; destruct (num_eq v (Int 0)); reflexivity|].
  reflexivity.
Qed.

Lemma createPixelBuffer_invalid (v : number) (t : Z) (e : error) :
  throwIfInvalidColorValue v = Throw e ->
  createPixelBuffer v t
  = if (t =? 0) || (t =? 4) || (t =? 2) || (t =? 6) then Throw e else Throw TypeError.
Proof.
  intros Hv.
  unfold createPixelBuffer, createGrayscalePixelBuffer, createTrueColorPixelBuffer,
    createAlphaPixelBuffer. rewrite Hv. cbn [rbind].
  change COLOR_TYPES.GRAYSCALE with 0. change COLOR_TYPES.GRAYSCALE_ALPHA with 4.
  change COLOR_TYPES.TRUE_COLOR with 2. change COLOR_TYPES.TRUE_COLOR_ALPHA with 6.
  destruct (t =? 0), (t =? 4), (t =? 2), (t =? 6); reflexivity.
Qed.

Lemma createPixelBuffer_available (v : number) (t : Z) :
  throwIfInvalidColorValue v = Ok tt -> In t AVAILABLE_COLOR_TYPES ->
  exists buffer, createPixelBuffer v t = Ok buffer /\
                 Z.of_nat (length buffer) = color_type_bytes t.
Proof.
  intros Hv Ht. rewrite (createPixelBuffer_valid v t Hv).
  apply In_AVAILABLE in Ht as [-> | [-> | [-> | ->]]]; eexists; split; reflexivity.
Qed.

Lemma not_available (t : Z) :
  ~ In t AVAILABLE_COLOR_TYPES -> (t =? 0) || (t =? 4) || (t =? 2) || (t =? 6) = false.
Proof.
  intros Hn. rewrite In_AVAILABLE in Hn.
  destruct (Z.eqb_spec t 0), (Z.eqb_spec t 4), (Z.eqb_spec t 2), (Z.eqb_spec t 6);
    try reflexivity; exfalso; apply Hn; auto.
Qed.

Lemma createPixelBuffer_unavailable (v : number) (t : Z) :
  ~ In t AVAILABLE_COLOR_TYPES -> createPixelBuffer v t = Throw TypeError.
Proof.
  intros Hn. apply not_available in Hn.
  destruct (throwIfInvalidColorValue v) as [[]|e] eqn:Hv.
  - rewrite (createPixelBuffer_valid v t Hv).
    destruct (t =? 0), (t =? 4), (t =? 2), (t =? 6); try discriminate Hn. reflexivity.
  - rewrite (createPixelBuffer_invalid v t e Hv), Hn. reflexivity.
Qed.

(** X10.  [createPixelBuffer] throws a type error for a colour type other than
    0, 2, 4 and 6, whatever the colour value; for one of these, a range error
    when the colour value is below 0 or above 0xFFFFFF; and otherwise it
    returns a buffer of COLOR_TYPE_BYTES[colorType] bytes. *)
Theorem createPixelBuffer_outcomes (colorValue : number) (colorType : Z) :
  (~ In colorType AVAILABLE_COLOR_TYPES ->
   createPixelBuffer colorValue colorType = Throw TypeError) /\
  (In colorType AVAILABLE_COLOR_TYPES ->
   num_lt colorValue (Int 0) = true \/ num_lt (Int 0xFFFFFF) colorValue = true ->
   createPixelBuffer colorValue colorType = Throw RangeError) /\
  (In colorType AVAILABLE_COLOR_TYPES ->
   num_lt colorValue (Int 0) = false -> num_lt (Int 0xFFFFFF) colorValue = false ->
   exists buffer,
     createPixelBuffer colorValue colorType = Ok buffer /\
     Z.of_nat (length buffer) = color_type_bytes colorType).
Proof.
  repeat apply conj.
  - apply createPixelBuffer_unavailable.
  - intros Ht Hout.
    rewrite (createPixelBuffer_invalid colorValue colorType RangeError).
    + apply In_AVAILABLE in Ht as [-> | [-> | [-> | ->]]]; reflexivity.
    + rewrite throwIfInvalidColorValue_cases.
      destruct Hout as [-> | ->]; [reflexivity|rewrite orb_true_r; reflexivity].
  - intros Ht Hlo Hhi. apply createPixelBuffer_available; [|exact Ht].
    rewrite throwIfInvalidColorValue_cases, Hlo, Hhi. reflexivity.
Qed.

Lemma createPixelBuffer_outcomes_witness :
  createPixelBuffer (Int 0x123456) 3 = Throw TypeError /\
  createPixelBuffer (Int (-1)) 4 = Throw RangeError /\
  exists buffer,
    createPixelBuffer (Int 0x123456) 6 = Ok buffer /\
    Z.of_nat (length buffer) = color_type_bytes 6.
Proof.
  repeat apply conj.
  - apply (proj1 (createPixelBuffer_outcomes (Int 0x123456) 3)). vm_compute. intuition discriminate.
  - apply (proj1 (proj2 (createPixelBuffer_outcomes (Int (-1)) 4))).
    + vm_compute. auto.
    + left. reflexivity.
  - apply (proj2 (proj2 (createPixelBuffer_outcomes (Int 0x123456) 6))).
    + vm_compute. auto.
    + reflexivity.
    + reflexivity.
Defined.

(** X11.  For an integer colour value of [0, 0xFFFFFF] the three bytes of
    Truecolor mode, read as a number with the most significant byte first,
    are the colour value; TruecolorAlpha mode gives the same three bytes and
    one more. *)
Theorem truecolor_round_trip (z : Z) :
  0 <= z <= 0xFFFFFF ->
  exists rgb,
    createPixelBuffer (Int z) COLOR_TYPES.TRUE_COLOR = Ok rgb /\
    be_value rgb = z /\
    exists alpha, createPixelBuffer (Int z) COLOR_TYPES.TRUE_COLOR_ALPHA = Ok (rgb ++ [alpha]).
Proof.
  intros Hz.
  pose proof (createPixelBuffer_valid (Int z) 2 (throwIfInvalidColorValue_Int z Hz)) as E2.
  pose proof (createPixelBuffer_valid (Int z) 6 (throwIfInvalidColorValue_Int z Hz)) as E6.
  cbv zeta in E2, E6. cbn [Z.eqb Pos.eqb] in E2, E6.
  eexists. split; [exact E2|]. split; [|eexists; exact E6].
  unfold be_value. cbn [fold_left]. rewrite !byte_to_of_Z, !sample_Int by lia.
  change (2 ^ 16) with 65536. change (2 ^ 8) with 256. change (2 ^ 0) with 1.
  Z.div_mod_to_equations. lia.
Qed.

Lemma truecolor_round_trip_witness :
  exists rgb,
    createPixelBuffer (Int 0x32cd32) COLOR_TYPES.TRUE_COLOR = Ok rgb /\
    be_value rgb = 0x32cd32 /\
    exists alpha,
      createPixelBuffer (Int 0x32cd32) COLOR_TYPES.TRUE_COLOR_ALPHA = Ok (rgb ++ [alpha]).
Proof. apply (truecolor_round_trip 0x32cd32). lia. Defined.

Lemma grey_levels_checked :
  forallb (fun v =>
             match createPixelBuffer (Int (v * 0x010101)) COLOR_TYPES.GRAYSCALE with
             | Ok [b] => byte_to_Z b =? v
             | _ => false
             end) (counters 256) = true.
Proof. vm_compute. reflexivity. Qed.

(** X12.  A grey colour, with R = G = B = v, is encoded in Greyscale mode as
    the byte v, for every v of 0 .. 255: the rounding of the luminance sum of
    the doubles never leaves the level. *)
Theorem grey_keeps_its_level (v : Z) :
  0 <= v <= 255 ->
  createPixelBuffer (Int (v * 65536 + v * 256 + v)) COLOR_TYPES.GRAYSCALE
  = Ok [byte_of_Z v].
Proof.
  intros Hv. pose proof grey_levels_checked as H. rewrite forallb_forall in H.
  specialize (H v (In_counters 256 v ltac:(lia))).
  replace (v * 65536 + v * 256 + v) with (v * 0x010101) by lia.
  destruct (createPixelBuffer (Int (v * 0x010101)) COLOR_TYPES.GRAYSCALE) as [[|b [|b' l]]|e];
    try discriminate H.
  apply Z.eqb_eq in H. rewrite <- H, byte_of_to_Z. reflexivity.
Qed.

Lemma grey_keeps_its_level_witness :
  createPixelBuffer (Int (128 * 65536 + 128 * 256 + 128)) COLOR_TYPES.GRAYSCALE
  = Ok [byte_of_Z 128].
Proof. apply (grey_keeps_its_level 128). lia. Defined.

(** ** The pixel stream of a canvas *)

(** ** Loops that collect results *)

Lemma mapR_Forall2 {A B} (f : A -> result B) (Q : A -> B -> Prop) (l : list A) :
  (forall a, In a l -> exists b, f a = Ok b /\ Q a b) ->
  exists bs, mapR f l = Ok bs /\ Forall2 Q l bs.
Proof.
  induction l as [|a l IH]; intros Hl.
  - exists []. split; [reflexivity|constructor].
  - destruct (Hl a) as (b & Eb & Hb); [left; reflexivity|].
    destruct IH as (bs & Ebs & Hbs); [intros a' Ha'; apply Hl; right; exact Ha'|].
    exists (b :: bs). cbn [mapR]. rewrite Eb. cbn [rbind]. rewrite Ebs. cbn [rbind].
    split; [reflexivity|constructor; assumption].
Qed.

Lemma mapR_Throw {A B} (f : A -> result B) (e : error) (l : list A) :
  (forall a, In a l -> (exists b, f a = Ok b) \/ f a = Throw e) ->
  (exists a, In a l /\ f a = Throw e) ->
  mapR f l = Throw e.
Proof.
  induction l as [|a l IH]; intros Hall (a0 & Hin & Ha0); [destruct Hin|].
  cbn [mapR]. destruct (Hall a) as [(b & Eb)|Ea]; [left; reflexivity| |rewrite Ea; reflexivity].
  rewrite Eb. cbn [rbind]. destruct Hin as [<-|Hin]; [congruence|].
  rewrite IH; [reflexivity| |exists a0; split; assumption].
  intros a' Ha'. apply Hall. right. exact Ha'.
Qed.

Lemma counters_length (n : Z) : length (counters n) = Z.to_nat n.
Proof. unfold counters. rewrite length_map. apply length_seq. Qed.

Lemma counters_lookup (n : Z) (k : nat) :
  (k < Z.to_nat n)%nat -> counters n !! k = Some (Z.of_nat k).
Proof.
  intros Hk. unfold counters.
  change (map Z.of_nat (seq 0 (Z.to_nat n))) with (Z.of_nat <$> seq 0 (Z.to_nat n)).
  rewrite list_lookup_fmap, lookup_seq_lt by exact Hk. reflexivity.
Qed.

Lemma counters_cons (n : Z) : 1 <= n -> exists l, counters n = 0 :: l.
Proof.
  intros Hn. unfold counters. destruct (Z.to_nat n) as [|k] eqn:E; [lia|].
  cbn [seq map]. eexists. reflexivity.
Qed.

Lemma counters_nil (n : Z) : n <= 0 -> counters n = [].
Proof. intros Hn. unfold counters. replace (Z.to_nat n) with 0%nat by lia. reflexivity. Qed.

(** ** Blocks of one length, concatenated *)

Lemma concat_length_uniform {A} (n : nat) (blocks : list (list A)) :
  Forall (fun b => length b = n) blocks -> length (concat blocks) = (length blocks * n)%nat.
Proof.
  induction 1 as [|b blocks Hb _ IH]; [reflexivity|].
  cbn [concat length]. rewrite length_app, IH, Hb. lia.
Qed.

Lemma concat_drop_block {A} (n : nat) (blocks : list (list A)) (k : nat) (b : list A) :
  Forall (fun b => length b = n) blocks -> blocks !! k = Some b ->
  drop (k * n) (concat blocks) = b ++ concat (drop (S k) blocks).
Proof.
  intros Hall. revert k. induction Hall as [|b0 blocks Hb0 _ IH]; intros k Hk; [discriminate|].
  destruct k as [|k].
  - injection Hk as <-. reflexivity.
  - cbn [lookup list_lookup] in Hk. cbn [concat].
    replace (S k * n)%nat with (length b0 + k * n)%nat by lia.
    rewrite drop_app_add. apply IH. exact Hk.
Qed.

(** ** The colour of a pixel *)

Lemma read_color_in_grid (this : PixelCanvas) (x y : Z) :
  wf this -> 0 <= x < width this -> 0 <= y < height this ->
  exists c, cell_at (pixelMap this) x y = Some c /\
            read_color (resolved_grid this) x y = Ok (resolve_cell (backgroundColor this) c).
Proof.
  intros Hwf Hx Hy.
  destruct (read2_in_grid (Z.to_nat (width this)) (Z.to_nat (height this)) (pixelMap this) x y)
    as (c & Ecell & Eread); [apply wf_dims; exact Hwf|split; lia|].
  exists c. split; [exact Ecell|].
  unfold resolved_grid, read_color, js_get.
  cbn [getPixelMap getBackgroundColor PixelCanvas_IPixelCanvas].
  unfold cell_at, js_get in Ecell.
  destruct (x <? 0); [discriminate|].
  change (map (map (resolve_cell (backgroundColor this))) (pixelMap this))
    with (map (resolve_cell (backgroundColor this)) <$> pixelMap this).
  rewrite list_lookup_fmap.
  destruct (pixelMap this !! Z.to_nat x) as [column|]; [|discriminate].
  cbn [fmap option_fmap option_map]. destruct (y <? 0); [discriminate|].
  change (map (resolve_cell (backgroundColor this)) column)
    with (resolve_cell (backgroundColor this) <$> column).
  rewrite list_lookup_fmap, Ecell. reflexivity.
Qed.

Lemma resolve_valid (this : PixelCanvas) (x y : Z) (c : cell) :
  valid_colors this -> cell_at (pixelMap this) x y = Some c ->
  throwIfInvalidColorValue (resolve_cell (backgroundColor this) c) = Ok tt.
Proof.
  intros (Hbg & _ & Hcells) Ec.
  pose proof (cell_at_Forall valid_cell _ _ _ _ Hcells Ec) as Hc.
  destruct c as [| |n]; cbn [resolve_cell valid_cell] in *; [exact Hbg|contradiction|exact Hc].
Qed.

(** The pixel stream of a canvas whose cells all resolve to colours that the
    encoder accepts: the rows, and in each row the pixels. *)
Lemma stream_rows (this : PixelCanvas) (t : Z) :
  wf this ->
  (forall x y c, cell_at (pixelMap this) x y = Some c ->
     throwIfInvalidColorValue (resolve_cell (backgroundColor this) c) = Ok tt) ->
  In t AVAILABLE_COLOR_TYPES ->
  let bpp := Z.to_nat (color_type_bytes t) in
  let is_pixel y x p :=
    length p = bpp /\
    exists c, cell_at (pixelMap this) x y = Some c /\
              createPixelBuffer (resolve_cell (backgroundColor this) c) t = Ok p in
  let is_row y row :=
    exists pixels, row = x00 :: concat pixels /\
                   Forall2 (is_pixel y) (counters (width this)) pixels in
  exists rows,
    computeImageBuffer this t = Ok (concat rows) /\
    Forall2 is_row (counters (height this)) rows.
Proof.
  intros Hwf Hvalid Ht bpp is_pixel is_row.
  rewrite computeImageBuffer_is_stream. unfold raw_pixel_stream.
  cbn [getSize PixelCanvas_IPixelCanvas snd].
  destruct (mapR_Forall2 (scanline this t) is_row (counters (height this))) as (rows & E & Hrows).
  - intros y Hy. apply In_counters_iff in Hy. unfold scanline.
    cbn [getSize PixelCanvas_IPixelCanvas fst].
    destruct (mapR_Forall2
                (fun x => rbind (read_color (resolved_grid this) x y)
                                (fun colorValue => createPixelBuffer colorValue t))
                (is_pixel y) (counters (width this))) as (pixels & Ep & Hpixels).
    + intros x Hx. apply In_counters_iff in Hx.
      destruct (read_color_in_grid this x y Hwf Hx Hy) as (c & Ec & Er).
      rewrite Er. cbn [rbind].
      destruct (createPixelBuffer_available (resolve_cell (backgroundColor this) c) t)
        as (p & Ep & Hp); [apply (Hvalid x y); exact Ec|exact Ht|].
      exists p. split; [exact Ep|]. split; [unfold bpp; lia|].
      exists c. split; assumption.
    + rewrite Ep. cbn [rbind]. eexists. split; [reflexivity|].
      exists pixels. split; [reflexivity|exact Hpixels].
  - rewrite E. cbn [rbind]. exists rows. split; [reflexivity|exact Hrows].
Qed.

Lemma row_length (A : Type) (Q : Z -> list A -> Prop) (n : nat) (w : Z) (pixels : list (list A)) :
  (forall x p, Q x p -> length p = n) ->
  Forall2 Q (counters w) pixels ->
  length (concat pixels) = (Z.to_nat w * n)%nat /\ Forall (fun p => length p = n) pixels.
Proof.
  intros HQ H2.
  assert (Hall : Forall (fun p => length p = n) pixels).
  { clear -HQ H2. induction H2 as [|x p xs ps Hxp _ IH]; constructor; [|exact IH].
    apply (HQ x). exact Hxp. }
  split; [|exact Hall].
  rewrite (concat_length_uniform n) by exact Hall.
  apply Forall2_length in H2. rewrite counters_length in H2. rewrite <- H2. reflexivity.
Qed.

(** X14.  A canvas that satisfies the invariant of the class and whose colours
    are all accepted by the pixel encoder can be rendered in each of the
    four supported colour modes: the pixel stream is built without an
    exception and has height * (1 + width * bytes per pixel) bytes, and
    [createFromCanvas] returns the image when the sizes and the length of the
    compressed stream fit in 32 bits. *)
Theorem valid_canvas_renders (this : PixelCanvas) (colorType : Z) (creator : PNGCreator) :
  wf this -> valid_colors this -> In colorType AVAILABLE_COLOR_TYPES -> cache_ok creator ->
  exists imageData,
    computeImageBuffer this colorType = Ok imageData /\
    Z.of_nat (length imageData)
    = height this * (1 + width this * color_type_bytes colorType) /\
    (width this < 2 ^ 32 -> height this < 2 ^ 32 ->
     Z.of_nat (length (zlib creator imageData)) < 2 ^ 32 ->
     fst (createFromCanvas this (Some colorType) creator)
     = Ok (png (width this) (height this) colorType (zlib creator imageData))).
Proof.
  intros Hwf Hvalid Ht Hok.
  destruct (stream_rows this colorType Hwf (fun x y c => resolve_valid this x y c Hvalid) Ht)
    as (rows & E & Hrows).
  exists (concat rows). split; [exact E|].
  set (bpp := Z.to_nat (color_type_bytes colorType)) in *.
  assert (Hbpp : Z.of_nat bpp = color_type_bytes colorType).
  { apply In_AVAILABLE in Ht as [-> | [-> | [-> | ->]]]; reflexivity. }
  split.
  - destruct (row_length byte
                (fun y row => exists pixels, row = x00 :: concat pixels /\
                   Forall2 (fun x p => length p = bpp /\
                              exists c, cell_at (pixelMap this) x y = Some c /\
                                createPixelBuffer (resolve_cell (backgroundColor this) c)
                                                  colorType
                                = Ok p)
                           (counters (width this)) pixels)
                (S (Z.to_nat (width this) * bpp)) (height this) rows) as [Hlen _].
    + intros y row (pixels & -> & Hpixels). cbn [length]. f_equal.
      apply (row_length byte _ bpp (width this) pixels (fun x p H => proj1 H) Hpixels).
    + exact Hrows.
    + rewrite Hlen. destruct Hwf as (Hw & Hh & _). nia.
  - intros Hw Hh Hlen. rewrite createFromCanvas_cases. cbn [from_option id].
    rewrite E. cbn [getSize PixelCanvas_IPixelCanvas fst snd].
    rewrite (createFromBuffer_cases _ _ _ _ _ Hok).
    destruct Hwf as (Hw0 & Hh0 & _).
    destruct (Z.ltb_spec (width this) 0); [lia|].
    destruct (Z.ltb_spec (2 ^ 32 - 1) (width this)); [lia|].
    destruct (Z.ltb_spec (height this) 0); [lia|].
    destruct (Z.ltb_spec (2 ^ 32 - 1) (height this)); [lia|].
    assert (Hrange : 0 <= colorType <= 255).
    { apply In_AVAILABLE in Ht as [-> | [-> | [-> | ->]]]; lia. }
    destruct (Z.ltb_spec colorType 0); [lia|]. destruct (Z.ltb_spec 255 colorType); [lia|].
    cbn [orb]. destruct (Z.ltb_spec (Z.of_nat (length (zlib creator (concat rows)))) (2 ^ 32));
      [reflexivity|lia].
Qed.

Lemma valid_canvas_renders_witness :
  let this := {| width := 2; height := 1; pixelMap := [[Color (Int 0x123456)]; [Null]];
                 lastUsedColor := Int 0x123456; backgroundColor := Int 0 |} in
  let creator := getPNGCreator id in
  exists imageData,
    computeImageBuffer this 6 = Ok imageData /\
    Z.of_nat (length imageData) = height this * (1 + width this * color_type_bytes 6) /\
    (width this < 2 ^ 32 -> height this < 2 ^ 32 ->
     Z.of_nat (length (zlib creator imageData)) < 2 ^ 32 ->
     fst (createFromCanvas this (Some 6) creator)
     = Ok (png (width this) (height this) 6 (zlib creator imageData))).
Proof.
  intros this creator. apply (valid_canvas_renders this 6 creator).
  - unfold wf. cbn. repeat split; try lia. repeat constructor.
  - unfold valid_colors. cbn. repeat split. repeat constructor.
  - vm_compute. auto.
  - left. reflexivity.
Defined.

Lemma mapR_Ok_inv {A B} (f : A -> result B) (l : list A) (bs : list B) :
  mapR f l = Ok bs -> Forall2 (fun a b => In a l /\ f a = Ok b) l bs.
Proof.
  revert bs. induction l as [|a l IH]; intros bs E.
  - injection E as <-. constructor.
  - cbn [mapR] in E. destruct (f a) as [b|e] eqn:Ea; cbn [rbind] in E; [|discriminate].
    destruct (mapR f l) as [bs'|e] eqn:El; cbn [rbind] in E; [|discriminate].
    injection E as <-. constructor; [split; [left; reflexivity|exact Ea]|].
    eapply Forall2_impl; [apply IH; reflexivity|].
    cbn beta. intros a' b' [Hin Hb']. split; [right; exact Hin|exact Hb'].
Qed.

Lemma color_type_bytes_nonneg (t : Z) : 0 <= color_type_bytes t.
Proof.
  unfold color_type_bytes, COLOR_TYPE_BYTES. cbn [find fst snd].
  repeat match goal with |- context [if ?b then _ else _] => destruct b end; cbn [snd]; lia.
Qed.

Lemma createPixelBuffer_Ok_length (v : number) (t : Z) (p : list byte) :
  createPixelBuffer v t = Ok p -> length p = Z.to_nat (color_type_bytes t).
Proof.
  intros E. destruct (throwIfInvalidColorValue v) as [[]|e] eqn:Hv.
  - rewrite (createPixelBuffer_valid v t Hv) in E.
    destruct (Z.eqb_spec t 0) as [->|_]; [injection E as <-; reflexivity|].
    destruct (Z.eqb_spec t 4) as [->|_]; [injection E as <-; reflexivity|].
    destruct (Z.eqb_spec t 2) as [->|_]; [injection E as <-; reflexivity|].
    destruct (Z.eqb_spec t 6) as [->|_]; [injection E as <-; reflexivity|].
    discriminate E.
  - rewrite (createPixelBuffer_invalid v t e Hv) in E. destruct (_ || _); discriminate E.
Qed.

(** The pixel stream of a canvas, when it could be built: the rows, and in
    each row the pixels. *)
Lemma stream_rows_inv (this : PixelCanvas) (t : Z) (imageData : list byte) :
  wf this -> computeImageBuffer this t = Ok imageData ->
  let bpp := Z.to_nat (color_type_bytes t) in
  let is_pixel y x p :=
    length p = bpp /\
    exists c, cell_at (pixelMap this) x y = Some c /\
              createPixelBuffer (resolve_cell (backgroundColor this) c) t = Ok p in
  let is_row y row :=
    exists pixels, row = x00 :: concat pixels /\
                   Forall2 (is_pixel y) (counters (width this)) pixels in
  exists rows, imageData = concat rows /\ Forall2 is_row (counters (height this)) rows.
Proof.
  intros Hwf Hdata bpp is_pixel is_row.
  rewrite computeImageBuffer_is_stream in Hdata. unfold raw_pixel_stream in Hdata.
  cbn [getSize PixelCanvas_IPixelCanvas snd] in Hdata.
  destruct (mapR (scanline this t) (counters (height this))) as [rows|e] eqn:Erows;
    cbn [rbind] in Hdata; [|discriminate].
  injection Hdata as <-. exists rows. split; [reflexivity|].
  eapply Forall2_impl; [apply mapR_Ok_inv; exact Erows|].
  cbn beta. intros y row [Hy Erow]. apply In_counters_iff in Hy.
  unfold scanline in Erow. cbn [getSize PixelCanvas_IPixelCanvas fst] in Erow.
  destruct (mapR _ (counters (width this))) as [pixels|e] eqn:Epixels;
    cbn [rbind] in Erow; [|discriminate].
  injection Erow as <-. exists pixels. split; [reflexivity|].
  eapply Forall2_impl; [apply mapR_Ok_inv; exact Epixels|].
  cbn beta. intros x p [Hx Ep]. apply In_counters_iff in Hx.
  destruct (read_color_in_grid this x y Hwf Hx Hy) as (c & Ec & Er).
  rewrite Er in Ep. cbn [rbind] in Ep.
  split; [apply (createPixelBuffer_Ok_length _ _ _ Ep)|].
  exists c. split; assumption.
Qed.

(** Where the bytes of a pixel lie in the stream. *)
Lemma pixel_bytes (this : PixelCanvas) (colorType : Z) (x y : Z) (imageData : list byte) :
  wf this ->
  0 <= x < width this -> 0 <= y < height this ->
  computeImageBuffer this colorType = Ok imageData ->
  let bpp := color_type_bytes colorType in
  let row := 1 + width this * bpp in
  imageData !! Z.to_nat (y * row) = Some x00 /\
  exists value,
    cell_at (pixelMap this) x y = Some value /\
    createPixelBuffer (resolve_cell (backgroundColor this) value) colorType
    = Ok (take (Z.to_nat bpp) (drop (Z.to_nat (y * row + 1 + x * bpp)) imageData)).
Proof.
  intros Hwf Hx Hy Hdata bpp row.
  destruct (stream_rows_inv this colorType imageData Hwf Hdata) as (rows & -> & Hrows).
  set (n := Z.to_nat (color_type_bytes colorType)) in *.
  assert (Hn : Z.of_nat n = bpp).
  { unfold bpp, n. apply Z2Nat.id. apply color_type_bytes_nonneg. }
  set (L := S (Z.to_nat (width this) * n)).
  assert (HL : Z.of_nat L = row).
  { unfold L, row. destruct Hwf as (Hw & _). nia. }
  assert (Hrowlen : Forall (fun r : list byte => length r = L) rows).
  { clear -Hrows. induction Hrows as [|y0 r ys rs (pixels & -> & Hpixels) _ IH];
      constructor; [|exact IH].
    cbn [length]. unfold L. f_equal.
    apply (row_length byte _ n (width this) pixels (fun x p H => proj1 H) Hpixels). }
  destruct (Forall2_lookup_l _ _ _ (Z.to_nat y) y Hrows) as (r & Er & (pixels & -> & Hpixels)).
  { rewrite counters_lookup by lia. f_equal. lia. }
  pose proof (concat_drop_block L rows (Z.to_nat y) _ Hrowlen Er) as Hdrop.
  replace (Z.to_nat y * L)%nat with (Z.to_nat (y * row)) in Hdrop by nia.
  split.
  - rewrite <- (Nat.add_0_r (Z.to_nat (y * row))), <- lookup_drop, Hdrop. reflexivity.
  - destruct (Forall2_lookup_l _ _ _ (Z.to_nat x) x Hpixels) as (p & Ep & Hp & c & Ec & Eenc).
    { rewrite counters_lookup by lia. f_equal. lia. }
    exists c. split; [exact Ec|]. rewrite Eenc. f_equal.
    assert (Hplen : Forall (fun p : list byte => length p = n) pixels).
    { apply (row_length byte _ n (width this) pixels (fun x p H => proj1 H) Hpixels). }
    pose proof (concat_drop_block n pixels (Z.to_nat x) _ Hplen Ep) as Hdropx.
    replace (Z.to_nat (y * row + 1 + x * bpp))
      with (Z.to_nat (y * row) + S (Z.to_nat x * n))%nat by nia.
    rewrite <- drop_drop, Hdrop. cbn [app drop]. rewrite drop_app_le.
    + rewrite Hdropx, <- app_assoc.
      replace (Z.to_nat bpp) with (length p) by lia.
      rewrite take_app_length. reflexivity.
    + rewrite (concat_length_uniform n) by exact Hplen.
      apply lookup_lt_Some in Ep. nia.
Qed.

(** X15.  Whenever the pixel stream of a canvas that satisfies the invariant
    of the class is built, in whatever colour mode, with bpp bytes per pixel:
    it has height (1 + width bpp) bytes; row y starts at offset
    y (1 + width bpp) with the filter byte 0; and the bpp bytes from offset
    y (1 + width bpp) + 1 + x bpp are the encoding of the cell at column x
    and row y of the map, the background colour standing for an unset
    cell. *)
Theorem pixel_position_in_stream (this : PixelCanvas) (colorType : Z) (x y : Z)
  (imageData : list byte) :
  wf this ->
  0 <= x < width this -> 0 <= y < height this ->
  computeImageBuffer this colorType = Ok imageData ->
  let bpp := color_type_bytes colorType in
  let row := 1 + width this * bpp in
  Z.of_nat (length imageData) = height this * row /\
  imageData !! Z.to_nat (y * row) = Some x00 /\
  exists value,
    cell_at (pixelMap this) x y = Some value /\
    createPixelBuffer (resolve_cell (backgroundColor this) value) colorType
    = Ok (take (Z.to_nat bpp) (drop (Z.to_nat (y * row + 1 + x * bpp)) imageData)).
Proof.
  intros Hwf Hx Hy Hdata bpp row. split.
  - destruct (stream_rows_inv this colorType imageData Hwf Hdata) as (rows & -> & Hrows).
    set (n := Z.to_nat (color_type_bytes colorType)) in *.
    assert (Hn : Z.of_nat n = bpp).
    { unfold bpp, n. apply Z2Nat.id. apply color_type_bytes_nonneg. }
    destruct (row_length byte
                (fun y row => exists pixels, row = x00 :: concat pixels /\
                   Forall2 (fun x p => length p = n /\
                              exists c, cell_at (pixelMap this) x y = Some c /\
                                createPixelBuffer (resolve_cell (backgroundColor this) c)
                                                  colorType
                                = Ok p)
                           (counters (width this)) pixels)
                (S (Z.to_nat (width this) * n)) (height this) rows) as [Hlen _].
    + intros y0 r (pixels & -> & Hpixels). cbn [length]. f_equal.
      apply (row_length byte _ n (width this) pixels (fun x p H => proj1 H) Hpixels).
    + exact Hrows.
    + rewrite Hlen. unfold row. destruct Hwf as (Hw & Hh & _). nia.
  - apply (pixel_bytes this colorType x y imageData Hwf Hx Hy Hdata).
Qed.

Lemma pixel_position_in_stream_witness :
  let this := {| width := 2; height := 2;
                 pixelMap := [[Color (Int 0x123456); Null]; [Null; Color (Int 0xabcdef)]];
                 lastUsedColor := Int 0xabcdef; backgroundColor := Int 0x0000ff |} in
  let imageData := [x00; x12; x34; x56; x00; x00; xff;
                    x00; x00; x00; xff; xab; xcd; xef] in
  Z.of_nat (length imageData) = height this * (1 + width this * color_type_bytes 2) /\
  imageData !! Z.to_nat (1 * (1 + 2 * 3)) = Some x00 /\
  exists value,
    cell_at (pixelMap this) 1 1 = Some value /\
    createPixelBuffer (resolve_cell (backgroundColor this) value) 2
    = Ok (take (Z.to_nat 3) (drop (Z.to_nat (1 * (1 + 2 * 3) + 1 + 1 * 3)) imageData)).
Proof.
  intros this imageData.
  apply (pixel_position_in_stream this 2 1 1 imageData).
  - unfold wf. cbn. repeat split; try lia. repeat constructor.
  - cbn. lia.
  - cbn. lia.
  - vm_compute. reflexivity.
Defined.

(** X16.  The colour mode is checked only where a pixel is encoded.  For a
    canvas of any implementation whose width is 0 or less the pixel stream
    is height zero bytes, and it is empty when the height is 0 or less,
    whatever the colour mode; with at least one pixel, a mode other than 0,
    2, 4 and 6 makes [createFromCanvas] throw a type error and leave the
    instance as it was. *)
Theorem unsupported_mode_needs_a_pixel {T} `{IPixelCanvas T}
  (pixelCanvas : T) (colorType : Z) (this : PNGCreator) :
  (fst (getSize pixelCanvas) <= 0 ->
   computeImageBuffer pixelCanvas colorType
   = Ok (replicate (Z.to_nat (snd (getSize pixelCanvas))) x00)) /\
  (snd (getSize pixelCanvas) <= 0 -> computeImageBuffer pixelCanvas colorType = Ok []) /\
  (1 <= fst (getSize pixelCanvas) -> 1 <= snd (getSize pixelCanvas) ->
   ~ In colorType AVAILABLE_COLOR_TYPES ->
   computeImageBuffer pixelCanvas colorType = Throw TypeError /\
   createFromCanvas pixelCanvas (Some colorType) this = (Throw TypeError, this)).
Proof.
  repeat apply conj.
  - intros Hw. rewrite computeImageBuffer_is_stream. unfold raw_pixel_stream, scanline.
    rewrite (counters_nil (fst (getSize pixelCanvas))) by exact Hw. cbn [mapR rbind concat].
    rewrite mapR_const, counters_length.
    destruct (counters (snd (getSize pixelCanvas))) as [|y l] eqn:E.
    + apply (f_equal (@length Z)) in E. rewrite counters_length in E. cbn [length] in E.
      rewrite E. reflexivity.
    + cbn [rbind]. f_equal. generalize (Z.to_nat (snd (getSize pixelCanvas))). intros n.
      induction n as [|n IH]; [reflexivity|]. cbn [replicate concat app]. rewrite IH. reflexivity.
  - intros Hh. rewrite computeImageBuffer_is_stream. unfold raw_pixel_stream.
    rewrite (counters_nil (snd (getSize pixelCanvas))) by exact Hh. reflexivity.
  - intros Hw Hh Ht.
    assert (E : computeImageBuffer pixelCanvas colorType = Throw TypeError).
    { rewrite computeImageBuffer_is_stream. unfold raw_pixel_stream, scanline.
      destruct (counters_cons _ Hw) as [xs ->]. destruct (counters_cons _ Hh) as [ys ->].
      cbn [mapR].
      destruct (read_color (resolved_grid pixelCanvas) 0 0) as [v|e] eqn:Er.
      - cbn [rbind]. rewrite (createPixelBuffer_unavailable v colorType Ht). reflexivity.
      - unfold read_color in Er. destruct (js_get (resolved_grid pixelCanvas) 0); [discriminate|].
        injection Er as <-. reflexivity. }
    split; [exact E|].
    unfold createFromCanvas, bind, lift. cbn [from_option id]. rewrite E. reflexivity.
Qed.

Lemma unsupported_mode_needs_a_pixel_witness :
  let empty := {| width := 0; height := 3; pixelMap := [];
                  lastUsedColor := Int 0; backgroundColor := Int 0 |} in
  let one := {| width := 1; height := 1; pixelMap := [[Null]];
                lastUsedColor := Int 0; backgroundColor := Int 0 |} in
  computeImageBuffer empty 3 = Ok (replicate (Z.to_nat (snd (getSize empty))) x00) /\
  (computeImageBuffer one 3 = Throw TypeError /\
   createFromCanvas one (Some 3) (getPNGCreator id) = (Throw TypeError, getPNGCreator id)).
Proof.
  intros empty one. split.
  - apply (proj1 (unsupported_mode_needs_a_pixel empty 3 (getPNGCreator id))). cbn. lia.
  - apply (proj2 (proj2 (unsupported_mode_needs_a_pixel one 3 (getPNGCreator id)))).
    + cbn. lia.
    + cbn. lia.
    + vm_compute. intuition discriminate.
Defined.

(** X17.  The cells of a map handed to the constructor are not checked there:
    a cell inside the sizes whose colour (the background colour, for an unset
    cell) is below 0 or above 0xFFFFFF makes the pixel stream, and so
    [createFromCanvas], throw a range error in each of the supported modes,
    the instance being left as it was. *)
Theorem invalid_cell_is_a_range_error (this : PixelCanvas) (colorType : Z) (x y : Z)
  (value : cell) (creator : PNGCreator) :
  wf this -> In colorType AVAILABLE_COLOR_TYPES ->
  0 <= x < width this -> 0 <= y < height this ->
  cell_at (pixelMap this) x y = Some value ->
  throwIfInvalidColorValue (resolve_cell (backgroundColor this) value) = Throw RangeError ->
  computeImageBuffer this colorType = Throw RangeError /\
  createFromCanvas this (Some colorType) creator = (Throw RangeError, creator).
Proof.
  intros Hwf Ht Hx Hy Ecell Hbad.
  assert (Hpixel : forall x y, 0 <= x < width this -> 0 <= y < height this ->
            exists c, cell_at (pixelMap this) x y = Some c /\
              rbind (read_color (resolved_grid this) x y)
                    (fun colorValue => createPixelBuffer colorValue colorType)
              = createPixelBuffer (resolve_cell (backgroundColor this) c) colorType).
  { intros x0 y0 Hx0 Hy0. destruct (read_color_in_grid this x0 y0 Hwf Hx0 Hy0) as (c & Ec & Er).
    exists c. split; [exact Ec|]. rewrite Er. reflexivity. }
  assert (Henc : forall v, (exists p, createPixelBuffer v colorType = Ok p)
                           \/ createPixelBuffer v colorType = Throw RangeError).
  { intros v. destruct (throwIfInvalidColorValue v) as [[]|e] eqn:Ev.
    - left. destruct (createPixelBuffer_available v colorType Ev Ht) as (p & Ep & _).
      exists p. exact Ep.
    - right. rewrite (createPixelBuffer_invalid v colorType e Ev).
      rewrite throwIfInvalidColorValue_cases in Ev.
      destruct (_ || _) in Ev; [|discriminate]. injection Ev as <-.
      apply In_AVAILABLE in Ht as [-> | [-> | [-> | ->]]]; reflexivity. }
  assert (Hrow : forall y0, 0 <= y0 < height this ->
            (exists r, scanline this colorType y0 = Ok r)
            \/ scanline this colorType y0 = Throw RangeError).
  { intros y0 Hy0. unfold scanline. cbn [getSize PixelCanvas_IPixelCanvas fst].
    destruct (mapR _ (counters (width this))) as [pixels|e] eqn:Em.
    - left. eexists. reflexivity.
    - right. cbn [rbind]. f_equal.
      clear -Em Hpixel Henc Hy0.
      pose proof (Forall_counters (width this)) as F.
      induction (counters (width this)) as [|x0 l IH]; [discriminate|].
      cbn [mapR] in Em. apply Forall_cons in F as [Hx0 F].
      destruct (Hpixel x0 y0 Hx0 Hy0) as (c & _ & Ep). rewrite Ep in Em.
      destruct (Henc (resolve_cell (backgroundColor this) c)) as [(p & Eenc)|Eenc];
        rewrite Eenc in Em; cbn [rbind] in Em; [|congruence].
      destruct (mapR _ l) as [ps|e'] eqn:El; cbn [rbind] in Em; [discriminate|].
      injection Em as <-. apply IH; [reflexivity|exact F]. }
  assert (E : computeImageBuffer this colorType = Throw RangeError).
  { rewrite computeImageBuffer_is_stream. unfold raw_pixel_stream.
    cbn [getSize PixelCanvas_IPixelCanvas snd].
    rewrite (mapR_Throw (scanline this colorType) RangeError); [reflexivity| |].
    - intros y0 Hy0. apply Hrow. apply In_counters_iff. exact Hy0.
    - exists y. split; [apply In_counters; exact Hy|].
      unfold scanline. cbn [getSize PixelCanvas_IPixelCanvas fst].
      rewrite (mapR_Throw _ RangeError); [reflexivity| |].
      + intros x0 Hx0. apply In_counters_iff in Hx0.
        destruct (Hpixel x0 y Hx0 Hy) as (c & _ & Ep). rewrite Ep. apply Henc.
      + exists x. split; [apply In_counters; exact Hx|].
        destruct (Hpixel x y Hx Hy) as (c & Ec & Ep). rewrite Ep.
        rewrite Ecell in Ec. injection Ec as <-.
        rewrite (createPixelBuffer_invalid _ colorType RangeError Hbad).
        apply In_AVAILABLE in Ht as [-> | [-> | [-> | ->]]]; reflexivity. }
  split; [exact E|].
  unfold createFromCanvas, bind, lift. cbn [from_option id]. rewrite E. reflexivity.
Qed.

Lemma invalid_cell_is_a_range_error_witness :
  let this := {| width := 1; height := 2; pixelMap := [[Null; Color (Int (-1))]];
                 lastUsedColor := Int 0; backgroundColor := Int 0 |} in
  PixelCanvas_new (Some {| o_width := JNum (Int 1); o_height := JNum (Int 2);
                           o_backgroundColor := JNum (Int 0);
                           o_pixelMap := Some [[Null; Color (Int (-1))]] |}) = Ok this /\
  computeImageBuffer this 2 = Throw RangeError /\
  createFromCanvas this (Some 2) (getPNGCreator id) = (Throw RangeError, getPNGCreator id).
Proof.
  intros this. split; [vm_compute; reflexivity|].
  apply (invalid_cell_is_a_range_error this 2 0 1 (Color (Int (-1))) (getPNGCreator id)).
  - unfold wf. cbn. repeat split; try lia. repeat constructor.
  - vm_compute. auto.
  - cbn. lia.
  - cbn. lia.
  - reflexivity.
  - vm_compute. reflexivity.
Defined.

(** X18.  Setting an unset cell to the background colour with [setPixel] does
    not change the pixel stream, in any colour mode. *)
Theorem background_pixel_is_unset_pixel (this : PixelCanvas) (x y : Z) (colorType : Z) :
  wf this ->
  cell_at (pixelMap this) x y = Some Null ->
  computeImageBuffer (snd (setPixel x y (JNum (backgroundColor this)) this)) colorType
  = computeImageBuffer this colorType.
Proof.
  intros Hwf Ecell. rewrite setPixel_cases.
  destruct ((0 <=? x) && (x <? width this)); [|reflexivity].
  destruct ((0 <=? y) && (y <? height this)); [|reflexivity].
  destruct (resolved_color (JNum (backgroundColor this)) this) as [c|e] eqn:Ec; [|reflexivity].
  assert (c = backgroundColor this) as ->.
  { cbn [resolved_color] in Ec. rewrite validateColor_error_cases in Ec.
    destruct (_ || _) in Ec; [discriminate|]. congruence. }
  unfold write_cell, bind, get, lift, put.
  assert (Hcol : exists column, pixelMap this !! Z.to_nat x = Some column /\
                                column !! Z.to_nat y = Some Null /\ 0 <= x /\ 0 <= y).
  { unfold cell_at, js_get in Ecell. destruct (Z.ltb_spec x 0); [discriminate|].
    destruct (pixelMap this !! Z.to_nat x) as [column|]; [|discriminate].
    destruct (Z.ltb_spec y 0); [discriminate|]. exists column. auto. }
  destruct Hcol as (column & Ex & Ey & Hx & Hy).
  unfold write2, js_get. destruct (Z.ltb_spec x 0); [lia|]. rewrite Ex. cbn [snd].
  unfold computeImageBuffer.
  cbn [getSize getPixelMap getBackgroundColor PixelCanvas_IPixelCanvas
       width height pixelMap backgroundColor set_lastUsedColor set_pixelMap].
  rewrite !addBackgroundColor_map.
  replace (map (map (resolve_cell (backgroundColor this)))
               (<[Z.to_nat x := js_set_cell column y (Color (backgroundColor this))]>
                  (pixelMap this)))
    with (map (map (resolve_cell (backgroundColor this))) (pixelMap this)); [reflexivity|].
  change (map (map (resolve_cell (backgroundColor this))) ?l)
    with (map (resolve_cell (backgroundColor this)) <$> l).
  rewrite list_fmap_insert. symmetry. apply list_insert_id.
  rewrite list_lookup_fmap, Ex. cbn [fmap option_fmap option_map]. f_equal.
  unfold js_set_cell, js_set. destruct (Z.ltb_spec y 0); [lia|].
  apply lookup_lt_Some in Ey as Hlt.
  destruct (Z.ltb_spec y (Z.of_nat (length column))); [|lia].
  change (map (resolve_cell (backgroundColor this)) ?l)
    with (resolve_cell (backgroundColor this) <$> l).
  rewrite list_fmap_insert. symmetry. apply list_insert_id.
  rewrite list_lookup_fmap, Ey. reflexivity.
Qed.

Lemma background_pixel_is_unset_pixel_witness :
  let this := {| width := 2; height := 1; pixelMap := [[Color (Int 0x123456)]; [Null]];
                 lastUsedColor := Int 0x123456; backgroundColor := Int 0x00ff00 |} in
  computeImageBuffer (snd (setPixel 1 0 (JNum (backgroundColor this)) this)) 2
  = computeImageBuffer this 2.
Proof.
  intros this. apply (background_pixel_is_unset_pixel this 1 0 2).
  - unfold wf. cbn. repeat split; try lia. repeat constructor.
  - reflexivity.
Defined.

(** X25.  A cell that reads as [undefined] is not given the background
    colour, which only a [null] cell gets: whatever the background colour,
    its pixel in the stream is black, with the alpha byte 0xFF in the alpha
    modes. *)
Theorem undefined_cell_is_black (this : PixelCanvas) (colorType : Z) (x y : Z)
  (imageData : list byte) :
  wf this ->
  0 <= x < width this -> 0 <= y < height this ->
  cell_at (pixelMap this) x y = Some Undefined ->
  computeImageBuffer this colorType = Ok imageData ->
  let bpp := color_type_bytes colorType in
  let row := 1 + width this * bpp in
  take (Z.to_nat bpp) (drop (Z.to_nat (y * row + 1 + x * bpp)) imageData)
  = if colorType =? COLOR_TYPES.GRAYSCALE then [x00]
    else if colorType =? COLOR_TYPES.GRAYSCALE_ALPHA then [x00; xff]
    else if colorType =? COLOR_TYPES.TRUE_COLOR then [x00; x00; x00]
    else [x00; x00; x00; xff].
Proof.
  intros Hwf Hx Hy Ecell Hdata bpp row.
  destruct (pixel_bytes this colorType x y imageData Hwf Hx Hy Hdata)
    as (_ & value & Evalue & Eenc).
  rewrite Ecell in Evalue. injection Evalue as <-. cbn [resolve_cell] in Eenc.
  assert (Ht : In colorType AVAILABLE_COLOR_TYPES).
  { apply In_AVAILABLE.
    destruct (Z.eqb_spec colorType 0) as [->|H0]; [auto|].
    destruct (Z.eqb_spec colorType 2) as [->|H2]; [auto|].
    destruct (Z.eqb_spec colorType 4) as [->|H4]; [auto|].
    destruct (Z.eqb_spec colorType 6) as [->|H6]; [auto|].
    rewrite createPixelBuffer_unavailable in Eenc; [discriminate Eenc|].
    rewrite In_AVAILABLE. intuition congruence. }
  apply In_AVAILABLE in Ht as [-> | [-> | [-> | ->]]].
  - change (createPixelBuffer NaN 0) with (Ok [x00]) in Eenc.
    injection Eenc as Eenc. symmetry. exact Eenc.
  - change (createPixelBuffer NaN 2) with (Ok [x00; x00; x00]) in Eenc.
    injection Eenc as Eenc. symmetry. exact Eenc.
  - change (createPixelBuffer NaN 4) with (Ok [x00; xff]) in Eenc.
    injection Eenc as Eenc. symmetry. exact Eenc.
  - change (createPixelBuffer NaN 6) with (Ok [x00; x00; x00; xff]) in Eenc.
    injection Eenc as Eenc. symmetry. exact Eenc.
Qed.

Lemma undefined_cell_is_black_witness :
  let this := {| width := 1; height := 1; pixelMap := [[Undefined]];
                 lastUsedColor := Int 0; backgroundColor := Int 0xff0000 |} in
  PixelCanvas_new (Some {| o_width := JNum (Int 1); o_height := JNum (Int 1);
                           o_backgroundColor := JStr "red";
                           o_pixelMap := Some [[Undefined]] |}) = Ok this /\
  take (Z.to_nat (color_type_bytes 6))
       (drop (Z.to_nat (0 * (1 + width this * color_type_bytes 6) + 1 + 0 * color_type_bytes 6))
             [x00; x00; x00; x00; xff])
  = [x00; x00; x00; xff].
Proof.
  intros this. split; [vm_compute; reflexivity|].
  apply (undefined_cell_is_black this 6 0 0 [x00; x00; x00; x00; xff]).
  - unfold wf. cbn. repeat split; try lia. repeat constructor.
  - cbn. lia.
  - cbn. lia.
  - reflexivity.
  - vm_compute. reflexivity.
Defined.

(** ** More on the canvas *)

Lemma PixelCanvas_new_invariant_witness :
  let options := Some {| o_width := JNum (Int 2); o_height := JNum (Int 1);
                         o_backgroundColor := JStr "limegreen"; o_pixelMap := None |} in
  let this := {| width := 2; height := 1; pixelMap := [[Null]; [Null]];
                 lastUsedColor := Int 0; backgroundColor := Int 0x32cd32 |} in
  wf this /\
  throwIfInvalidColorValue (backgroundColor this) = Ok tt /\
  lastUsedColor this = Int 0 /\
  Forall (Forall (fun value => value = Null)) (getPixelMap this) /\
  ((forall o pixelMap, options = Some o -> o_pixelMap o = Some pixelMap ->
                       Forall (Forall valid_cell) pixelMap) ->
   valid_colors this).
Proof.
  intros options this. apply (PixelCanvas_new_invariant options this).
  vm_compute. reflexivity.
Defined.

(** X5.  A fill that is given no colour writes the colour of the fill before
    it: after [setPixels] with a colour that validates to c, [setPixels]
    without a colour writes c to its cells, the cells of the first fill still
    hold c, and c is the last colour used. *)
Theorem omitted_color_is_last_used
  (this : PixelCanvas) (xValues yValues xValues' yValues' : list Z) (color : jsval)
  (c : number) :
  wf this ->
  Forall (fun x => 0 <= x < width this) xValues ->
  Forall (fun y => 0 <= y < height this) yValues ->
  Forall (fun x => 0 <= x < width this) xValues' ->
  Forall (fun y => 0 <= y < height this) yValues' ->
  validateColor color = Ok c ->
  exists this'',
    (setPixels xValues yValues color;; setPixels xValues' yValues' JUndefined)%monad this
    = (Ok tt, this'') /\
    (forall x y, In x xValues' -> In y yValues' ->
                 cell_at (pixelMap this'') x y = Some (Color c)) /\
    (forall x y, In x xValues -> In y yValues ->
                 cell_at (pixelMap this'') x y = Some (Color c)) /\
    lastUsedColor this'' = c.
Proof.
  intros Hwf Hxs Hys Hxs' Hys' Hc.
  assert (Hres : resolved_color color this = Ok c).
  { destruct color; try exact Hc. discriminate Hc. }
  destruct (setPixels_writes this xValues yValues color c Hwf Hxs Hys Hres)
    as (this' & E & Hin & _ & Hw & Hh & _ & Hlast & Hwf').
  destruct (setPixels_writes this' xValues' yValues' JUndefined c Hwf')
    as (this'' & E' & Hin' & Hout' & _ & _ & _ & Hlast' & _).
  - rewrite Hw. exact Hxs'.
  - rewrite Hh. exact Hys'.
  - cbn [resolved_color]. rewrite Hlast. reflexivity.
  - exists this''. unfold bind. rewrite E, E'. split; [reflexivity|].
    split; [exact Hin'|]. split; [|exact Hlast'].
    intros x y Hx Hy.
    destruct (in_dec Z.eq_dec x xValues') as [Hx'|Hx'];
      [destruct (in_dec Z.eq_dec y yValues') as [Hy'|Hy']|].
    + apply Hin'; assumption.
    + rewrite Hout' by (intros [_ H]; contradiction). apply Hin; assumption.
    + rewrite Hout' by (intros [H _]; contradiction). apply Hin; assumption.
Qed.

Lemma omitted_color_is_last_used_witness :
  let this := {| width := 2; height := 2; pixelMap := [[Null; Null]; [Null; Null]];
                 lastUsedColor := Int 0; backgroundColor := Int 0 |} in
  exists this'',
    (setPixels [0] [0] (JStr "red");; setPixels [1] [0; 1] JUndefined)%monad this
    = (Ok tt, this'') /\
    (forall x y, In x [1] -> In y [0; 1] ->
                 cell_at (pixelMap this'') x y = Some (Color (Int 0xff0000))) /\
    (forall x y, In x [0] -> In y [0] ->
                 cell_at (pixelMap this'') x y = Some (Color (Int 0xff0000))) /\
    lastUsedColor this'' = Int 0xff0000.
Proof.
  intros this.
  apply (omitted_color_is_last_used this [0] [0] [1] [0; 1] (JStr "red") (Int 0xff0000)).
  - unfold wf. cbn. repeat split; try lia. repeat constructor.
  - repeat constructor; cbn; lia.
  - repeat constructor; cbn; lia.
  - repeat constructor; cbn; lia.
  - repeat constructor; cbn; lia.
  - vm_compute. reflexivity.
Defined.

(** ** Colour values that are not integers *)

Lemma truncate_range (v : number) :
  throwIfInvalidColorValue v = Ok tt -> 0 <= truncate v <= 0xFFFFFF.
Proof.
  rewrite throwIfInvalidColorValue_cases.
  destruct (num_lt v (Int 0)) eqn:Hlo; [discriminate|].
  destruct (num_lt (Int 0xFFFFFF) v) eqn:Hhi; [discriminate|]. intros _.
  destruct v as [q| | |]; cbn [truncate]; try lia; try discriminate.
  unfold num_lt, Int, Qltb in Hlo, Hhi. cbn [Qnum Qden inject_Z] in Hlo, Hhi.
  destruct q as [a b]. cbn [Qnum Qden] in *.
  destruct (Z.ltb_spec (a * 1) (0 * Z.pos b)); [discriminate|].
  destruct (Z.ltb_spec (16777215 * Z.pos b) (a * 1)); [discriminate|].
  rewrite Z.quot_div_nonneg by lia. split.
  - apply Z.div_pos; lia.
  - apply Z.div_le_upper_bound; lia.
Qed.

(** X13.  The two range checks let through every number that is neither
    below 0 nor above 0xFFFFFF: a number that is not an integer, and NaN,
    with which no comparison holds.  The encoder reads the integer part of
    such a value (0 for NaN): Truecolor and Greyscale give the bytes of the
    integer part, and in the alpha modes the alpha byte is 0 only when the
    value itself equals 0. *)
Theorem encoder_reads_integer_part (colorValue : number) :
  throwIfInvalidColorValue colorValue = Ok tt ->
  let z := truncate colorValue in
  let alpha := if num_eq colorValue (Int 0) then x00 else xff in
  validateColor (JNum colorValue) = Ok colorValue /\
  0 <= z <= 0xFFFFFF /\
  createPixelBuffer colorValue COLOR_TYPES.TRUE_COLOR
  = createPixelBuffer (Int z) COLOR_TYPES.TRUE_COLOR /\
  createPixelBuffer colorValue COLOR_TYPES.GRAYSCALE
  = createPixelBuffer (Int z) COLOR_TYPES.GRAYSCALE /\
  createPixelBuffer colorValue COLOR_TYPES.TRUE_COLOR_ALPHA
  = rbind (createPixelBuffer (Int z) COLOR_TYPES.TRUE_COLOR)
          (fun rgb => Ok (rgb ++ [alpha])) /\
  createPixelBuffer colorValue COLOR_TYPES.GRAYSCALE_ALPHA
  = rbind (createPixelBuffer (Int z) COLOR_TYPES.GRAYSCALE)
          (fun grey => Ok (grey ++ [alpha])).
Proof.
  intros Hv z alpha. pose proof (truncate_range colorValue Hv) as Hz. fold z in Hz.
  pose proof (throwIfInvalidColorValue_Int z Hz) as Hvz.
  split.
  { rewrite validateColor_error_cases. rewrite throwIfInvalidColorValue_cases in Hv.
    destruct (_ || _); [discriminate|reflexivity]. }
  split; [exact Hz|].
  rewrite !(createPixelBuffer_valid colorValue _ Hv), !(createPixelBuffer_valid (Int z) _ Hvz).
  unfold convertTrueColorToGrayscale, sample. rewrite truncate_Int. fold z.
  cbn [Z.eqb Pos.eqb COLOR_TYPES.TRUE_COLOR COLOR_TYPES.GRAYSCALE
       COLOR_TYPES.TRUE_COLOR_ALPHA COLOR_TYPES.GRAYSCALE_ALPHA rbind app].
  repeat split.
Qed.

Lemma encoder_reads_integer_part_witness :
  validateColor (JNum NaN) = Ok NaN /\
  0 <= truncate NaN <= 0xFFFFFF /\
  createPixelBuffer NaN COLOR_TYPES.TRUE_COLOR
  = createPixelBuffer (Int (truncate NaN)) COLOR_TYPES.TRUE_COLOR /\
  createPixelBuffer NaN COLOR_TYPES.GRAYSCALE
  = createPixelBuffer (Int (truncate NaN)) COLOR_TYPES.GRAYSCALE /\
  createPixelBuffer NaN COLOR_TYPES.TRUE_COLOR_ALPHA
  = rbind (createPixelBuffer (Int (truncate NaN)) COLOR_TYPES.TRUE_COLOR)
          (fun rgb => Ok (rgb ++ [xff])) /\
  createPixelBuffer NaN COLOR_TYPES.GRAYSCALE_ALPHA
  = rbind (createPixelBuffer (Int (truncate NaN)) COLOR_TYPES.GRAYSCALE)
          (fun grey => Ok (grey ++ [xff])).
Proof. apply (encoder_reads_integer_part NaN). reflexivity. Defined.

(** ** Scaling twice *)

Lemma scale_checks_Int (f : Z) : 1 <= f <= 100 -> scale_checks (JNum (Int f)) = Ok (Int f).
Proof.
  intros Hf. destruct (scale_checks_valid (JNum (Int f))) as (n & En & E).
  - exists (Int f). rewrite isInteger_Int, num_to_Z_Int. auto.
  - injection En as <-. exact E.
Qed.

(** The map [setScale] builds: every cell is the cell of the block it lies
    in. *)
Lemma scaled_map (this : PixelCanvas) (f : Z) :
  wf this -> 1 <= f ->
  let scaled := fold_left (fun pm '(x, y, v) => put_cell pm x y v) (scale_writes this f)
                  (replicate (Z.to_nat (width this * f))
                             (replicate (Z.to_nat (height this * f)) Null)) in
  dims (Z.to_nat (width this * f)) (Z.to_nat (height this * f)) scaled /\
  forall X Y, 0 <= X < width this * f -> 0 <= Y < height this * f ->
              cell_at scaled X Y = cell_at (pixelMap this) (X / f) (Y / f).
Proof.
  intros Hwf Hf scaled.
  destruct (fold_put_cell (Z.to_nat (width this * f)) (Z.to_nat (height this * f))
              (fun X Y => old_cell this (X / f) (Y / f)) (scale_writes this f)
              (replicate (Z.to_nat (width this * f))
                         (replicate (Z.to_nat (height this * f)) Null)))
    as (Hd' & Hin & _).
  - apply replicate_dims.
  - intros X Y v Hv. destruct (scale_writes_grid this f Hwf Hf X Y v Hv) as (H1 & H2 & _).
    split; assumption.
  - split; [exact Hd'|]. intros X Y HX HY.
    assert (Hx : 0 <= X / f < width this).
    { split; [apply Z.div_pos; lia|apply Z.div_lt_upper_bound; lia]. }
    assert (Hy : 0 <= Y / f < height this).
    { split; [apply Z.div_pos; lia|apply Z.div_lt_upper_bound; lia]. }
    assert (Hw : In (X, Y, old_cell this (X / f) (Y / f)) (scale_writes this f)).
    { apply in_scale_writes. exists (X / f), (Y / f), (X mod f), (Y mod f).
      pose proof (Z.mod_pos_bound X f). pose proof (Z.mod_pos_bound Y f).
      pose proof (Z.div_mod X f). pose proof (Z.div_mod Y f).
      repeat split; try lia. }
    fold scaled in Hin. rewrite (Hin X Y _ Hw).
    destruct (scale_writes_grid this f Hwf Hf X Y _ Hw) as (_ & _ & H3). symmetry. exact H3.
Qed.

(** X19.  On a canvas that satisfies the invariant of the class, [setScale]
    with f and then with g has the result and leaves the canvas of
    [setScale] with f g, for integers f and g of 1 or more whose product is
    100 at most. *)
Theorem setScale_composes (this : PixelCanvas) (f g : Z) :
  wf this -> 1 <= f -> 1 <= g -> f * g <= 100 ->
  (setScale (JNum (Int f));; setScale (JNum (Int g)))%monad this
  = setScale (JNum (Int (f * g))) this.
Proof.
  intros Hwf Hf Hg Hfg.
  assert (Hf' : 1 <= f <= 100) by nia. assert (Hg' : 1 <= g <= 100) by nia.
  assert (Hfg' : 1 <= f * g <= 100) by nia.
  destruct (setScale_run this _ _ Hwf (scale_checks_Int f Hf')) as [_ E1].
  destruct (setScale_run this _ _ Hwf (scale_checks_Int (f * g) Hfg')) as [_ E3].
  rewrite num_to_Z_Int in E1, E3.
  destruct (scaled_map this f Hwf Hf) as [Hd1 Hc1].
  destruct (scaled_map this (f * g) Hwf ltac:(lia)) as [Hd3 Hc3].
  set (PM1 := fold_left _ (scale_writes this f) _) in *.
  set (PM3 := fold_left _ (scale_writes this (f * g)) _) in *.
  set (this1 := set_pixelMap PM1 (set_height (height this * f) (set_width (width this * f) this)))
    in *.
  pose proof Hwf as (Hw & Hh & _ & _).
  assert (Hwf1 : wf this1).
  { unfold wf, this1. cbn [width height pixelMap set_pixelMap set_height set_width].
    split; [nia|]. split; [nia|]. exact Hd1. }
  destruct (setScale_run this1 _ _ Hwf1 (scale_checks_Int g Hg')) as [_ E2].
  rewrite num_to_Z_Int in E2.
  destruct (scaled_map this1 g Hwf1 Hg) as [Hd2 Hc2].
  set (PM2 := fold_left _ (scale_writes this1 g) _) in *.
  unfold bind. rewrite E1, E2, E3. f_equal.
  unfold this1 in *. cbn [width height pixelMap lastUsedColor backgroundColor
                          set_pixelMap set_height set_width] in *.
  replace (width this * f * g) with (width this * (f * g)) in * by ring.
  replace (height this * f * g) with (height this * (f * g)) in * by ring.
  unfold set_pixelMap, set_height, set_width.
  cbn [width height pixelMap lastUsedColor backgroundColor]. f_equal.
  apply (dims_ext _ _ _ _ Hd2 Hd3). intros X Y [HX HY].
  rewrite Hc2, Hc3 by nia.
  assert (HXg : 0 <= X / g < width this * f).
  { split; [apply Z.div_pos; lia|apply Z.div_lt_upper_bound; nia]. }
  assert (HYg : 0 <= Y / g < height this * f).
  { split; [apply Z.div_pos; lia|apply Z.div_lt_upper_bound; nia]. }
  rewrite Hc1 by assumption.
  rewrite !Z.div_div by lia. rewrite (Z.mul_comm g f). reflexivity.
Qed.

Lemma setScale_composes_witness :
  let this := {| width := 2; height := 1; pixelMap := [[Color (Int 0x123456)]; [Null]];
                 lastUsedColor := Int 0x123456; backgroundColor := Int 0 |} in
  (setScale (JNum (Int 2));; setScale (JNum (Int 3)))%monad this
  = setScale (JNum (Int (2 * 3))) this.
Proof.
  intros this. apply (setScale_composes this 2 3); try lia.
  unfold wf. cbn. repeat split; try lia. repeat constructor.
Defined.

(** ** The output and the checksum *)

(** ** Reading the output back *)

(** X20.  The buffer that [createFromBuffer] returns can be read back: its
    first eight bytes are the signature; bytes 16 .. 19 and 20 .. 23 are width
    and height, the most significant byte first; byte 24 is the bit depth 8
    and byte 25 the colour type; bytes 33 .. 36 are the length of the
    compressed stream, which follows from byte 41; the last twelve bytes are
    the IEND chunk 00 00 00 00 49 45 4E 44 AE 42 60 82; and the whole is 57
    bytes longer than the compressed stream. *)
Theorem output_can_be_read_back
  (this : PNGCreator) (pixelBuffer : list byte) (width height colorType : Z)
  (bytes : list byte) :
  cache_ok this ->
  fst (createFromBuffer pixelBuffer width height colorType this) = Ok bytes ->
  let idat := zlib this pixelBuffer in
  take 8 bytes = signature /\
  be_value (take 4 (drop 16 bytes)) = width /\
  be_value (take 4 (drop 20 bytes)) = height /\
  byte_to_Z <$> bytes !! 24%nat = Some 8 /\
  byte_to_Z <$> bytes !! 25%nat = Some colorType /\
  be_value (take 4 (drop 33 bytes)) = Z.of_nat (length idat) /\
  take (length idat) (drop 41 bytes) = idat /\
  drop (45 + length idat) bytes
  = [x00; x00; x00; x00; x49; x45; x4e; x44; xae; x42; x60; x82] /\
  length bytes = (57 + length idat)%nat.
Proof.
  intros Hok Hbytes idat. rewrite (createFromBuffer_cases _ _ _ _ _ Hok) in Hbytes.
  destruct (Z.ltb_spec width 0); [discriminate|].
  destruct (Z.ltb_spec (2 ^ 32 - 1) width); [discriminate|].
  destruct (Z.ltb_spec height 0); [discriminate|].
  destruct (Z.ltb_spec (2 ^ 32 - 1) height); [discriminate|].
  destruct (Z.ltb_spec colorType 0); [discriminate|].
  destruct (Z.ltb_spec 255 colorType); [discriminate|].
  cbn [orb] in Hbytes.
  destruct (Z.ltb_spec (Z.of_nat (length (zlib this pixelBuffer))) (2 ^ 32)) as [Hlen|_];
    [|discriminate].
  injection Hbytes as <-. fold idat in Hlen |- *.
  unfold png, chunk. rewrite header_length.
  set (crc1 := crc32 (Buffer_from IHDR ++ header width height colorType)).
  set (crc2 := crc32 (Buffer_from IDAT ++ idat)).
  set (crc3 := crc32 (Buffer_from IEND ++ [])).
  change (Buffer_from IHDR) with [x49; x48; x44; x52].
  change (Buffer_from IDAT) with [x49; x44; x41; x54].
  change (Buffer_from IEND) with [x49; x45; x4e; x44].
  unfold header, signature, BigEndian32.
  cbn [app take drop lookup list_lookup fmap option_fmap option_map].
  repeat apply conj.
  - reflexivity.
  - apply (BigEndian32_value width). lia.
  - apply (BigEndian32_value height). lia.
  - reflexivity.
  - f_equal. rewrite byte_to_of_Z. apply Z.mod_small. lia.
  - apply (BigEndian32_value (Z.of_nat (length idat))). lia.
  - rewrite <- app_assoc. apply take_app_length.
  - replace (45 + length idat)%nat with (41 + (length idat + 4))%nat by lia.
    rewrite <- drop_drop. cbn [drop]. rewrite drop_0, <- app_assoc, drop_app_add.
    vm_compute. reflexivity.
  - cbn [length]. rewrite !length_app. cbn [length]. lia.
Qed.

Lemma output_can_be_read_back_witness :
  let this := getPNGCreator id in
  let idat := [x00; x12; x34; x56] in
  let bytes := png 1 1 2 idat in
  take 8 bytes = signature /\
  be_value (take 4 (drop 16 bytes)) = 1 /\
  be_value (take 4 (drop 20 bytes)) = 1 /\
  byte_to_Z <$> bytes !! 24%nat = Some 8 /\
  byte_to_Z <$> bytes !! 25%nat = Some 2 /\
  be_value (take 4 (drop 33 bytes)) = Z.of_nat (length idat) /\
  take (length idat) (drop 41 bytes) = idat /\
  drop (45 + length idat) bytes
  = [x00; x00; x00; x00; x49; x45; x4e; x44; xae; x42; x60; x82] /\
  length bytes = (57 + length idat)%nat.
Proof.
  intros this idat bytes.
  apply (output_can_be_read_back this idat 1 1 2 bytes).
  - left. reflexivity.
  - vm_compute. reflexivity.
Defined.

(** ** The checksum tells apart two inputs that differ in one byte *)

Lemma lxor_cancel_r (a b c : Z) : Z.lxor a c = Z.lxor b c -> a = b.
Proof.
  intros E. apply (f_equal (fun x => Z.lxor x c)) in E.
  rewrite !Z.lxor_assoc, !Z.lxor_nilpotent, !Z.lxor_0_r in E. exact E.
Qed.

Lemma lxor_cancel_l (a b c : Z) : Z.lxor c a = Z.lxor c b -> a = b.
Proof. rewrite !(Z.lxor_comm c). apply lxor_cancel_r. Qed.

Lemma lxor_range32 (a b : Z) :
  0 <= a < 2 ^ 32 -> 0 <= b < 2 ^ 32 -> 0 <= Z.lxor a b < 2 ^ 32.
Proof.
  intros Ha Hb. rewrite <- (wrap32_small a Ha), <- (wrap32_small b Hb), <- wrap32_lxor.
  apply wrap32_range.
Qed.

Lemma bit31_small (x : Z) : 0 <= x < 2 ^ 31 -> Z.testbit x 31 = false.
Proof.
  intros Hx. apply Z.testbit_false; [lia|]. rewrite Z.div_small by lia. reflexivity.
Qed.

Lemma crc32_bit_range (c : Z) : 0 <= c < 2 ^ 32 -> 0 <= crc32_bit c < 2 ^ 32.
Proof.
  intros Hc. unfold crc32_bit.
  assert (Hs : 0 <= Z.shiftr c 1 < 2 ^ 32) by (apply shiftr_range32; lia).
  destruct (Z.odd c); [apply lxor_range32; [exact Hs|lia]|exact Hs].
Qed.

Lemma crc32_bit_inj (a b : Z) :
  0 <= a < 2 ^ 32 -> 0 <= b < 2 ^ 32 -> crc32_bit a = crc32_bit b -> a = b.
Proof.
  intros Ha Hb E. unfold crc32_bit in E.
  rewrite !Z.shiftr_div_pow2 in E by lia. change (2 ^ 1) with 2 in E.
  assert (Ha2 : 0 <= a / 2 < 2 ^ 31) by (split; [apply Z.div_pos|apply Z.div_lt_upper_bound]; lia).
  assert (Hb2 : 0 <= b / 2 < 2 ^ 31) by (split; [apply Z.div_pos|apply Z.div_lt_upper_bound]; lia).
  assert (Hhigh : forall x, 0 <= x < 2 ^ 31 -> Z.testbit (Z.lxor x 0xEDB88320) 31 = true).
  { intros x Hx. rewrite Z.lxor_spec, (bit31_small x Hx). reflexivity. }
  pose proof (Zdiv2_odd_eqn a) as Ea. pose proof (Zdiv2_odd_eqn b) as Eb.
  rewrite Z.div2_div in Ea, Eb.
  destruct (Z.odd a) eqn:Oa, (Z.odd b) eqn:Ob.
  - apply lxor_cancel_r in E. lia.
  - apply (f_equal (fun x => Z.testbit x 31)) in E.
    rewrite (Hhigh _ Ha2), (bit31_small _ Hb2) in E. discriminate E.
  - apply (f_equal (fun x => Z.testbit x 31)) in E.
    rewrite (Hhigh _ Hb2), (bit31_small _ Ha2) in E. discriminate E.
  - lia.
Qed.

Lemma iter_crc32_bit_range (n : nat) (c : Z) :
  0 <= c < 2 ^ 32 -> 0 <= Nat.iter n crc32_bit c < 2 ^ 32.
Proof.
  intros Hc. induction n as [|n IH]; [exact Hc|]. rewrite Nat.iter_succ.
  apply crc32_bit_range. exact IH.
Qed.

Lemma iter_crc32_bit_inj (n : nat) (a b : Z) :
  0 <= a < 2 ^ 32 -> 0 <= b < 2 ^ 32 ->
  Nat.iter n crc32_bit a = Nat.iter n crc32_bit b -> a = b.
Proof.
  intros Ha Hb. induction n as [|n IH]; [intros E; exact E|].
  rewrite !Nat.iter_succ. intros E. apply IH.
  apply crc32_bit_inj; [apply iter_crc32_bit_range; exact Ha
                       |apply iter_crc32_bit_range; exact Hb|exact E].
Qed.

Lemma byte_range32 (b : byte) : 0 <= byte_to_Z b < 2 ^ 32.
Proof. pose proof (byte_to_Z_range b). lia. Qed.

Lemma crc32_byte_range (c : Z) (b : byte) :
  0 <= c < 2 ^ 32 -> 0 <= crc32_byte c b < 2 ^ 32.
Proof.
  intros Hc. unfold crc32_byte. apply iter_crc32_bit_range.
  apply lxor_range32; [exact Hc|apply byte_range32].
Qed.

Lemma crc32_fold_range (data : list byte) (c : Z) :
  0 <= c < 2 ^ 32 -> 0 <= fold_left crc32_byte data c < 2 ^ 32.
Proof.
  revert c. induction data as [|b data IH]; intros c Hc; [exact Hc|].
  cbn [fold_left]. apply IH. apply crc32_byte_range. exact Hc.
Qed.

Lemma crc32_byte_inj_state (c c' : Z) (b : byte) :
  0 <= c < 2 ^ 32 -> 0 <= c' < 2 ^ 32 -> crc32_byte c b = crc32_byte c' b -> c = c'.
Proof.
  intros Hc Hc' E. unfold crc32_byte in E.
  apply iter_crc32_bit_inj in E;
    [|apply lxor_range32; [assumption|apply byte_range32]
     |apply lxor_range32; [assumption|apply byte_range32]].
  apply lxor_cancel_r in E. exact E.
Qed.

Lemma crc32_byte_inj_byte (c : Z) (b b' : byte) :
  0 <= c < 2 ^ 32 -> crc32_byte c b = crc32_byte c b' -> b = b'.
Proof.
  intros Hc E. unfold crc32_byte in E.
  apply iter_crc32_bit_inj in E;
    [|apply lxor_range32; [assumption|apply byte_range32]
     |apply lxor_range32; [assumption|apply byte_range32]].
  apply lxor_cancel_l in E.
  rewrite <- (byte_of_to_Z b), <- (byte_of_to_Z b'), E. reflexivity.
Qed.

Lemma crc32_fold_inj (data : list byte) (c c' : Z) :
  0 <= c < 2 ^ 32 -> 0 <= c' < 2 ^ 32 ->
  fold_left crc32_byte data c = fold_left crc32_byte data c' -> c = c'.
Proof.
  revert c c'. induction data as [|b data IH]; intros c c' Hc Hc' E; [exact E|].
  cbn [fold_left] in E.
  apply IH in E; [|apply crc32_byte_range; assumption|apply crc32_byte_range; assumption].
  apply (crc32_byte_inj_state c c' b Hc Hc' E).
Qed.

Lemma crc32_one_byte (before after : list byte) (b b' : byte) :
  crc32 (before ++ b :: after) = crc32 (before ++ b' :: after) -> b = b'.
Proof.
  intros E. unfold crc32 in E. apply lxor_cancel_r in E.
  rewrite !fold_left_app in E. cbn [fold_left] in E.
  assert (Hs : 0 <= fold_left crc32_byte before 0xFFFFFFFF < 2 ^ 32)
    by (apply crc32_fold_range; lia).
  apply crc32_fold_inj in E;
    [|apply crc32_byte_range; exact Hs|apply crc32_byte_range; exact Hs].
  apply (crc32_byte_inj_byte _ b b' Hs E).
Qed.

(** X21.  [#computeCRC32] tells apart any two buffers that differ in exactly
    one byte: their checksums are never equal. *)
Theorem checksum_detects_one_changed_byte
  (this : PNGCreator) (before after : list byte) (b b' : byte) :
  cache_ok this -> b <> b' ->
  fst (computeCRC32 (before ++ b :: after) this)
  <> fst (computeCRC32 (before ++ b' :: after) this).
Proof.
  intros Hok Hne. rewrite !(computeCRC32_spec _ this Hok). cbn [fst].
  intros E. injection E as E. apply Hne. apply (crc32_one_byte before after b b' E).
Qed.

Lemma checksum_detects_one_changed_byte_witness :
  fst (computeCRC32 ([x49; x44] ++ x41 :: [x54]) (getPNGCreator id))
  <> fst (computeCRC32 ([x49; x44] ++ x40 :: [x54]) (getPNGCreator id)).
Proof.
  apply (checksum_detects_one_changed_byte (getPNGCreator id) [x49; x44] [x54] x41 x40).
  - left. reflexivity.
  - discriminate.
Defined.

(** ** An instance serves any number of images *)

Lemma createFromBuffer_state (pixelBuffer : list byte) (w h t : Z) (this : PNGCreator) :
  cache_ok this ->
  snd (createFromBuffer pixelBuffer w h t this) = this \/
  snd (createFromBuffer pixelBuffer w h t this) = set_crc32Table crc_table this.
Proof.
  intros Hok. unfold createFromBuffer, bind, get, lift.
  destruct (createIHDRBuffer w h t) as [ihdr|e]; [|left; reflexivity].
  rewrite (finalizeCreation_cases _ _ _ Hok).
  destruct (_ <? _); [|left; reflexivity].
  destruct (_ <? _); right; reflexivity.
Qed.

Lemma createFromCanvas_state {T} `{IPixelCanvas T}
  (pixelCanvas : T) (colorMode : option Z) (this : PNGCreator) :
  cache_ok this ->
  snd (createFromCanvas pixelCanvas colorMode this) = this \/
  snd (createFromCanvas pixelCanvas colorMode this) = set_crc32Table crc_table this.
Proof.
  intros Hok. unfold createFromCanvas, bind, get, lift.
  destruct (computeImageBuffer pixelCanvas _) as [imageData|e]; [|left; reflexivity].
  destruct (getSize pixelCanvas) as [w h].
  destruct (createIHDRBuffer w h _) as [ihdr|e]; [|left; reflexivity].
  rewrite (finalizeCreation_cases _ _ _ Hok).
  destruct (_ <? _); [|left; reflexivity].
  destruct (_ <? _); right; reflexivity.
Qed.

Lemma createFromBuffer_any_cache (pixelBuffer : list byte) (w h t : Z) (this : PNGCreator) :
  cache_ok this ->
  fst (createFromBuffer pixelBuffer w h t this)
  = fst (createFromBuffer pixelBuffer w h t (getPNGCreator (zlib this))).
Proof.
  intros Hok. rewrite (createFromBuffer_cases _ _ _ _ _ Hok).
  rewrite (createFromBuffer_cases _ _ _ _ (getPNGCreator (zlib this))) by (left; reflexivity).
  reflexivity.
Qed.

(** X22.  An instance can be used for any number of images: after a call of
    [createFromBuffer] or [createFromCanvas], returned or thrown, the cache of
    the checksum table is still empty or complete, and both methods return
    what a new instance with the same compressor returns. *)
Theorem creator_can_be_reused {T} `{IPixelCanvas T} (this : PNGCreator) :
  cache_ok this ->
  forall this',
    (exists pixelBuffer width height colorType,
        this' = snd (createFromBuffer pixelBuffer width height colorType this)) \/
    (exists (pixelCanvas : T) colorMode,
        this' = snd (createFromCanvas pixelCanvas colorMode this)) ->
    cache_ok this' /\
    (forall pixelBuffer width height colorType,
        fst (createFromBuffer pixelBuffer width height colorType this')
        = fst (createFromBuffer pixelBuffer width height colorType
                 (getPNGCreator (zlib this)))) /\
    (forall (pixelCanvas : T) colorMode,
        fst (createFromCanvas pixelCanvas colorMode this')
        = fst (createFromCanvas pixelCanvas colorMode (getPNGCreator (zlib this)))).
Proof.
  intros Hok this' Hthis'.
  assert (Hcases : this' = this \/ this' = set_crc32Table crc_table this).
  { destruct Hthis' as [(b & w & h & t & ->)|(c & m & ->)].
    - apply createFromBuffer_state. exact Hok.
    - apply createFromCanvas_state. exact Hok. }
  assert (Hok' : cache_ok this').
  { destruct Hcases as [-> | ->]; [exact Hok|apply cache_ok_filled]. }
  assert (Hz : zlib this' = zlib this).
  { destruct Hcases as [-> | ->]; reflexivity. }
  split; [exact Hok'|]. split.
  - intros b w h t. rewrite (createFromBuffer_any_cache b w h t this' Hok'), Hz. reflexivity.
  - intros c m. rewrite !createFromCanvas_cases.
    destruct (computeImageBuffer c _) as [imageData|e]; [|reflexivity].
    rewrite (createFromBuffer_any_cache _ _ _ _ this' Hok'), Hz. reflexivity.
Qed.

Lemma creator_can_be_reused_witness :
  let this := getPNGCreator id in
  let this' := snd (createFromBuffer [x00] 1 1 0 this) in
  cache_ok this' /\
  (forall pixelBuffer width height colorType,
      fst (createFromBuffer pixelBuffer width height colorType this')
      = fst (createFromBuffer pixelBuffer width height colorType (getPNGCreator (zlib this)))) /\
  (forall (pixelCanvas : PixelCanvas) colorMode,
      fst (createFromCanvas pixelCanvas colorMode this')
      = fst (createFromCanvas pixelCanvas colorMode (getPNGCreator (zlib this)))).
Proof.
  intros this this'. apply (creator_can_be_reused this).
  - left. reflexivity.
  - left. exists [x00], 1, 1, 0. reflexivity.
Defined.

(** ** Lists without coordinates *)

Lemma for_of_no_rows {S} (xValues : list Z) (body : Z -> Z -> M S unit) (s : S) :
  for_of xValues (fun x => for_of [] (fun y => body x y)) s = (Ok tt, s).
Proof.
  induction xValues as [|x xValues IH]; [reflexivity|].
  cbn [for_of]. unfold bind, ret. exact IH.
Qed.

(** X6.  When one of the two coordinate lists is empty, [setPixels] writes no
    cell; it still checks the coordinates of the other list and the colour,
    and when they pass the colour becomes the last one used.  This holds on
    every canvas. *)
Theorem setPixels_without_cells
  (this : PixelCanvas) (xValues yValues : list Z) (color : jsval) :
  xValues = [] \/ yValues = [] ->
  setPixels xValues yValues color this
  = if forallb (fun x => (0 <=? x) && (x <? width this)) xValues
       && forallb (fun y => (0 <=? y) && (y <? height this)) yValues
    then match resolved_color color this with
         | Ok c => (Ok tt, set_lastUsedColor c this)
         | Throw e => (Throw e, this)
         end
    else (Throw RangeError, this).
Proof.
  intros Hempty. rewrite setPixels_cases.
  destruct (forallb _ xValues); [|reflexivity].
  destruct (forallb _ yValues); [|reflexivity]. cbn [andb].
  destruct (resolved_color color this) as [c|e]; [|reflexivity].
  destruct Hempty as [-> | ->]; [reflexivity|].
  rewrite (for_of_no_rows xValues (fun x y => write_cell x y (Color c))). reflexivity.
Qed.

Lemma setPixels_without_cells_witness :
  let this := {| width := 2; height := 2; pixelMap := [[Null; Null]; [Null; Null]];
                 lastUsedColor := Int 0; backgroundColor := Int 0 |} in
  setPixels [0; 1] [] (JStr "red") this
  = if forallb (fun x => (0 <=? x) && (x <? width this)) [0; 1]
       && forallb (fun y => (0 <=? y) && (y <? height this)) []
    then match resolved_color (JStr "red") this with
         | Ok c => (Ok tt, set_lastUsedColor c this)
         | Throw e => (Throw e, this)
         end
    else (Throw RangeError, this).
Proof.
  intros this. apply (setPixels_without_cells this [0; 1] [] (JStr "red")).
  right. reflexivity.
Defined.

(** ** Filling twice *)

(** X23.  Repeating a fill changes nothing: [setPixels] run twice with the
    same arguments ends with the same result and the same canvas as run
    once, whether it succeeds or throws. *)
Theorem setPixels_idempotent
  (this : PixelCanvas) (xValues yValues : list Z) (color : jsval) :
  wf this ->
  (setPixels xValues yValues color;; setPixels xValues yValues color)%monad this
  = setPixels xValues yValues color this.
Proof.
  intros Hwf. unfold bind.
  rewrite (setPixels_cases xValues yValues color this).
  destruct (forallb _ xValues) eqn:Exs; [|reflexivity].
  destruct (forallb _ yValues) eqn:Eys; [|reflexivity].
  destruct (resolved_color color this) as [c|e] eqn:Ec; [|reflexivity].
  pose proof Exs as Hxs. pose proof Eys as Hys. apply forallb_range in Hxs, Hys.
  assert (Hxs' : Forall (fun x => 0 <= x < Z.of_nat (Z.to_nat (width this))) xValues)
    by (eapply Forall_impl; [exact Hxs|cbn beta; intros; lia]).
  assert (Hys' : Forall (fun y => 0 <= y < Z.of_nat (Z.to_nat (height this))) yValues)
    by (eapply Forall_impl; [exact Hys|cbn beta; intros; lia]).
  rewrite (product_loop (Z.to_nat (width this)) (Z.to_nat (height this)))
    by (try assumption; apply wf_dims; exact Hwf).
  set (writes := product_writes xValues yValues (Color c)).
  set (PM := fold_left (fun pm '(x, y, v) => put_cell pm x y v) writes (pixelMap this)).
  set (this' := set_lastUsedColor c (set_pixelMap PM this)).
  assert (Hwrites : forall x y v, In (x, y, v) writes ->
            in_grid (Z.to_nat (width this)) (Z.to_nat (height this)) x y /\ v = Color c).
  { intros x y v Hv. apply in_product_writes in Hv as (Hx & Hy & ->).
    rewrite Forall_forall in Hxs', Hys'.
    apply list_elem_of_In in Hx, Hy. specialize (Hxs' x Hx). specialize (Hys' y Hy).
    split; [split; assumption|reflexivity]. }
  destruct (fold_put_cell (Z.to_nat (width this)) (Z.to_nat (height this))
              (fun _ _ => Color c) writes (pixelMap this) (wf_dims this Hwf) Hwrites)
    as (Hd & Hin & Hout).
  fold PM in Hd, Hin, Hout.
  rewrite (setPixels_cases xValues yValues color this').
  change (width this') with (width this). change (height this') with (height this).
  rewrite Exs, Eys.
  assert (Ec' : resolved_color color this' = Ok c).
  { destruct color; try exact Ec. reflexivity. }
  rewrite Ec'.
  rewrite (product_loop (Z.to_nat (width this)) (Z.to_nat (height this)))
    by (try assumption; exact Hd).
  fold writes. change (pixelMap this') with PM. f_equal. unfold this', set_lastUsedColor, set_pixelMap.
  cbn [width height pixelMap lastUsedColor backgroundColor]. f_equal.
  destruct (fold_put_cell (Z.to_nat (width this)) (Z.to_nat (height this))
              (fun _ _ => Color c) writes PM Hd Hwrites) as (Hd2 & Hin2 & Hout2).
  apply (dims_ext _ _ _ _ Hd2 Hd). intros x y _.
  destruct (in_dec Z.eq_dec x xValues) as [Hx|Hx];
    [destruct (in_dec Z.eq_dec y yValues) as [Hy|Hy]|].
  - assert (Hw : In (x, y, Color c) writes) by (apply in_product_writes; auto).
    rewrite (Hin2 x y _ Hw), (Hin x y _ Hw). reflexivity.
  - apply Hout2. intros v Hv. apply in_product_writes in Hv as (_ & Hy' & _). contradiction.
  - apply Hout2. intros v Hv. apply in_product_writes in Hv as (Hx' & _ & _). contradiction.
Qed.

Lemma setPixels_idempotent_witness :
  let this := {| width := 2; height := 2; pixelMap := [[Null; Null]; [Null; Null]];
                 lastUsedColor := Int 0; backgroundColor := Int 0 |} in
  (setPixels [0; 1] [1] (JStr "red");; setPixels [0; 1] [1] (JStr "red"))%monad this
  = setPixels [0; 1] [1] (JStr "red") this.
Proof.
  intros this. apply (setPixels_idempotent this [0; 1] [1] (JStr "red")).
  unfold wf. cbn. repeat split; try lia. repeat constructor.
Defined.

(** ** What [createFromBuffer] checks *)

(** X24.  [createFromBuffer] returns the image exactly when width and height
    lie in [0, 2^32 - 1], the colour type in [0, 255] and the compressed
    stream is shorter than 2^32 bytes, and throws a range error otherwise;
    nothing else is checked: neither that the colour type is a supported one
    nor that the length of the pixel buffer agrees with the sizes. *)
Theorem createFromBuffer_outcomes
  (this : PNGCreator) (pixelBuffer : list byte) (width height colorType : Z) :
  cache_ok this ->
  (0 <= width < 2 ^ 32 /\ 0 <= height < 2 ^ 32 /\ 0 <= colorType <= 255 /\
   Z.of_nat (length (zlib this pixelBuffer)) < 2 ^ 32 ->
   fst (createFromBuffer pixelBuffer width height colorType this)
   = Ok (png width height colorType (zlib this pixelBuffer))) /\
  (~ (0 <= width < 2 ^ 32 /\ 0 <= height < 2 ^ 32 /\ 0 <= colorType <= 255 /\
      Z.of_nat (length (zlib this pixelBuffer)) < 2 ^ 32) ->
   fst (createFromBuffer pixelBuffer width height colorType this) = Throw RangeError).
Proof.
  intros Hok. rewrite (createFromBuffer_cases _ _ _ _ _ Hok).
  destruct (Z.ltb_spec width 0), (Z.ltb_spec (2 ^ 32 - 1) width),
    (Z.ltb_spec height 0), (Z.ltb_spec (2 ^ 32 - 1) height),
    (Z.ltb_spec colorType 0), (Z.ltb_spec 255 colorType),
    (Z.ltb_spec (Z.of_nat (length (zlib this pixelBuffer))) (2 ^ 32));
    cbn [orb]; split; intros Hc; try reflexivity; try lia; exfalso; apply Hc; lia.
Qed.

Lemma createFromBuffer_outcomes_witness :
  let this := getPNGCreator id in
  fst (createFromBuffer [] 10 10 3 this) = Ok (png 10 10 3 (zlib this [])) /\
  fst (createFromBuffer [] (2 ^ 32) 10 2 this) = Throw RangeError.
Proof.
  intros this. split.
  - apply (proj1 (createFromBuffer_outcomes this [] 10 10 3 (or_introl eq_refl))).
    cbn. lia.
  - apply (proj2 (createFromBuffer_outcomes this [] (2 ^ 32) 10 2 (or_introl eq_refl))).
    cbn. lia.
Defined.
